(** * Retirement planner: tax engine, RRIF minimums and the withdrawal simulator

    A shallow embedding of [src/utils/constants.ts], [src/utils/taxes.ts],
    [src/types/index.ts], [src/utils/withdrawals.ts], [src/utils/limits.ts]
    and [src/utils/projections.ts].

    Numbers.  The TypeScript code computes on JavaScript [number]s.  Money,
    rates and factors are embedded as exact rationals ([Q], compared with
    [==]); ages, calendar years and loop counters as integers ([Z]).  The one
    non-finite number the code writes down, the [Infinity] upper bound of the
    last tax bracket, is embedded as [None].  Rounding, [NaN], signed zeros and
    overflow are outside the embedding; so is [Math.pow(0, n)] for a negative
    [n], which is [Infinity] in JavaScript and [0] for [Q]'s power. *)

From Stdlib Require Import QArith Qminmax Qpower Lqa ZArith Lia.
From stdpp Require Import gmap strings list fin_maps.

Local Open Scope Q_scope.

(** ** Comparisons as the code writes them *)

Definition Qleb (x y : Q) : bool := Qle_bool x y.
Definition Qltb (x y : Q) : bool := negb (Qle_bool y x).

(** ** [src/utils/constants.ts] *)

(** [TaxBracket]; [bmax = None] is the [Infinity] of the last bracket. *)
Record TaxBracket := mkBracket { bmin : Q; bmax : option Q; rate : Q }.

Definition TAX_BRACKETS_FEDERAL : list TaxBracket :=
  [ mkBracket 0 (Some 57375) (15 # 100);
    mkBracket 57375 (Some 114750) (205 # 1000);
    mkBracket 114750 (Some 177882) (26 # 100);
    mkBracket 177882 (Some 253414) (29 # 100);
    mkBracket 253414 None (33 # 100) ].

Definition TAX_BRACKETS_PROVINCIAL : list TaxBracket :=
  [ mkBracket 0 (Some 52886) (505 # 10000);
    mkBracket 52886 (Some 105775) (915 # 10000);
    mkBracket 105775 (Some 150000) (1116 # 10000);
    mkBracket 150000 (Some 220000) (1216 # 10000);
    mkBracket 220000 None (1316 # 10000) ].

Definition ONTARIO_SURTAX_1_THRESHOLD : Q := 5710.
Definition ONTARIO_SURTAX_1_RATE : Q := 20 # 100.
Definition ONTARIO_SURTAX_2_THRESHOLD : Q := 7307.
Definition ONTARIO_SURTAX_2_RATE : Q := 36 # 100.

Definition BASIC_PERSONAL_AMOUNT : Q := 16129.

Definition CAPITAL_GAINS_INCLUSION_RATE_BASE : Q := 50 # 100.

Definition RRIF_START_AGE : Z := 72.

Record RRIFEntry := mkRRIF { rage : Z; factor : Q }.

Definition RRIF_TABLE : list RRIFEntry :=
  [ mkRRIF 70 (500 # 10000); mkRRIF 71 (528 # 10000); mkRRIF 72 (540 # 10000);
    mkRRIF 73 (553 # 10000); mkRRIF 74 (567 # 10000); mkRRIF 75 (582 # 10000);
    mkRRIF 76 (598 # 10000); mkRRIF 77 (617 # 10000); mkRRIF 78 (636 # 10000);
    mkRRIF 79 (658 # 10000); mkRRIF 80 (682 # 10000); mkRRIF 81 (708 # 10000);
    mkRRIF 82 (738 # 10000); mkRRIF 83 (771 # 10000); mkRRIF 84 (808 # 10000);
    mkRRIF 85 (851 # 10000); mkRRIF 86 (899 # 10000); mkRRIF 87 (955 # 10000);
    mkRRIF 88 (1021 # 10000); mkRRIF 89 (1099 # 10000); mkRRIF 90 (1192 # 10000);
    mkRRIF 91 (1306 # 10000); mkRRIF 92 (1449 # 10000); mkRRIF 93 (1634 # 10000);
    mkRRIF 94 (1879 # 10000); mkRRIF 95 (2000 # 10000) ].

(** [RRIF_TABLE.find(e => e.age === age)] *)
Definition findRRIF (age : Z) : option RRIFEntry :=
  List.find (fun e => Z.eqb (rage e) age) RRIF_TABLE.

Definition getRRIFFactor (age : Z) : Q :=
  if (age <? RRIF_START_AGE)%Z then 0
  else match findRRIF age with
       | Some entry => factor entry
       | None => if (95 <=? age)%Z then 20 # 100 else 0
       end.

(** The table's last explicit entry. *)
Definition lastRRIFEntry : RRIFEntry := List.last RRIF_TABLE (mkRRIF 0 0).

(** ** [src/utils/taxes.ts] *)

(** The [for (const bracket of brackets)] walk of [calculateBracketTax],
    with its three loop variables as arguments.  Under an [Infinity] bound
    the bracket width is infinite, so [Math.min] returns the remaining
    income; in both tables that bracket is the last one and the walk ends
    with it. *)
Fixpoint bracketWalk (brackets : list TaxBracket)
    (tax remainingIncome previousMax : Q) : Q :=
  match brackets with
  | [] => tax
  | bracket :: rest =>
      let incomeInBracket :=
        match bmax bracket with
        | Some m => Qmin remainingIncome (m - previousMax)
        | None => remainingIncome
        end in
      if Qleb incomeInBracket 0 then tax
      else
        let tax' := tax + incomeInBracket * rate bracket in
        match bmax bracket with
        | Some m => bracketWalk rest tax' (remainingIncome - incomeInBracket) m
        | None => tax'
        end
  end.

Definition calculateBracketTax (taxableIncome : Q) (brackets : list TaxBracket) : Q :=
  if Qleb taxableIncome 0 then 0
  else bracketWalk brackets 0 taxableIncome 0.

Definition calculateRawFederalTax (taxableIncome : Q) : Q :=
  calculateBracketTax taxableIncome TAX_BRACKETS_FEDERAL.

(** [TAX_BRACKETS_FEDERAL[0].rate] and its provincial counterpart. *)
Definition firstRate (brackets : list TaxBracket) : Q :=
  match brackets with b :: _ => rate b | [] => 0 end.

(** The only [FilingStatus] is ['single'], and the code voids it. *)
Inductive FilingStatus := single.

Definition calculateTotalFederalTax (ordinaryIncome capitalGains : Q)
    (filingStatus : FilingStatus) : Q :=
  let taxableCapitalGains := capitalGains * CAPITAL_GAINS_INCLUSION_RATE_BASE in
  let totalTaxableIncome := ordinaryIncome + taxableCapitalGains in
  if Qleb totalTaxableIncome 0 then 0
  else
    let tax := calculateRawFederalTax totalTaxableIncome in
    let bpaCredit := BASIC_PERSONAL_AMOUNT * firstRate TAX_BRACKETS_FEDERAL in
    Qmax 0 (tax - bpaCredit).

(** The stepped health premium of [calculateProvincialTax]. *)
Definition healthPremium (totalTaxableIncome : Q) : Q :=
  if Qltb 200000 totalTaxableIncome then 900
  else if Qltb 72000 totalTaxableIncome then 750
  else if Qltb 48000 totalTaxableIncome then 600
  else if Qltb 36000 totalTaxableIncome then 450
  else if Qltb 20000 totalTaxableIncome then 300
  else 0.

Definition provincialBPA : Q := 11865.

(** Basic provincial tax after the credit, floored at zero. *)
Definition basicProvincialTax (totalTaxableIncome : Q) : Q :=
  let basicTax := calculateBracketTax totalTaxableIncome TAX_BRACKETS_PROVINCIAL in
  let provincialCredit := provincialBPA * firstRate TAX_BRACKETS_PROVINCIAL in
  Qmax 0 (basicTax - provincialCredit).

(** The two [if (basicTax > THRESHOLD) surtax += ...] statements. *)
Definition ontarioSurtax (basicTax : Q) : Q :=
  let surtax := 0 in
  let surtax :=
    if Qltb ONTARIO_SURTAX_1_THRESHOLD basicTax
    then surtax + (basicTax - ONTARIO_SURTAX_1_THRESHOLD) * ONTARIO_SURTAX_1_RATE
    else surtax in
  let surtax :=
    if Qltb ONTARIO_SURTAX_2_THRESHOLD basicTax
    then surtax + (basicTax - ONTARIO_SURTAX_2_THRESHOLD) * ONTARIO_SURTAX_2_RATE
    else surtax in
  surtax.

(** [_flatRate] is part of the signature and is not read by the body. *)
Definition calculateProvincialTax (ordinaryIncome capitalGains _flatRate : Q) : Q :=
  let taxableCapitalGains := capitalGains * CAPITAL_GAINS_INCLUSION_RATE_BASE in
  let totalTaxableIncome := ordinaryIncome + taxableCapitalGains in
  if Qleb totalTaxableIncome 0 then 0
  else
    let basicTax := basicProvincialTax totalTaxableIncome in
    let surtax := ontarioSurtax basicTax in
    basicTax + surtax + healthPremium totalTaxableIncome.

(** ** [calculateRRIFMinimum] of [src/utils/withdrawals.ts] *)

Definition calculateRRIFMinimum (age : Z) (rrspBalance : Q) : Q :=
  if (age <? RRIF_START_AGE)%Z then 0
  else
    let factor := getRRIFFactor age in
    rrspBalance * factor.

(** ** [src/types/index.ts] *)

Inductive AccountType := rrsp | tfsa | non_registered | fhsa.

Inductive TaxTreatment := pretax | tax_free | taxable.

Inductive Owner := owner_primary | owner_spouse.

Definition getTaxTreatment (accountType : AccountType) : TaxTreatment :=
  match accountType with
  | rrsp => pretax
  | tfsa | fhsa => tax_free
  | non_registered => taxable
  end.

Definition isPreTax (t : AccountType) : bool :=
  match t with rrsp => true | _ => false end.

Definition isTaxFree (t : AccountType) : bool :=
  match getTaxTreatment t with tax_free => true | _ => false end.

Definition isTaxable (t : AccountType) : bool :=
  match getTaxTreatment t with taxable => true | _ => false end.

Definition isOwner (o o' : Owner) : bool :=
  match o, o' with
  | owner_primary, owner_primary | owner_spouse, owner_spouse => true
  | _, _ => false
  end.

(** The fields of [Account] that the withdrawal simulator reads;
    [account_owner = None] is an absent owner, which the simulator reads as
    ['primary']. *)
Record Account := mkAccount {
  account_id : string;
  account_type : AccountType;
  account_owner : option Owner;
  account_balance : Q
}.

(** [Profile], with its optional fields and its optional nested spouse. *)
#[local] Set Warnings "-register-all".
Inductive Profile := mkProfile {
  currentAge : Z;
  retirementAge : Z;
  lifeExpectancy : Z;
  provinceTaxRate : Q;
  cppOasBenefit : option Q;
  cppOasStartAge : option Z;
  spouse : option Profile
}.

Record Assumptions := mkAssumptions {
  inflationRate : Q;
  safeWithdrawalRate : Q;
  retirementReturnRate : Q
}.

(** The fields of [AccumulationResult] that the simulator reads. *)
Record AccumulationResult := mkAccumulation {
  finalBalances : gmap string Q;
  totalAtRetirement : Q;
  totalAtRetirementReal : Q
}.

Record YearlyWithdrawal := mkYearly {
  age : Z;
  year : Z;
  withdrawals : gmap string Q;
  remainingBalances : gmap string Q;
  totalWithdrawal : Q;
  cppOasIncome : Q;
  grossIncome : Q;
  federalTax : Q;
  provincialTax : Q;
  totalTax : Q;
  afterTaxIncome : Q;
  targetSpending : Q;
  rmdAmount : Q;
  totalRemainingBalance : Q
}.

Record RetirementResult := mkRetirement {
  yearlyWithdrawals : list YearlyWithdrawal;
  portfolioDepletionAge : option Z;
  lifetimeTaxesPaid : Q;
  sustainableMonthlyWithdrawal : Q;
  sustainableAnnualWithdrawal : Q;
  sustainableMonthlyWithdrawalNominal : Q;
  sustainableAnnualWithdrawalNominal : Q;
  accountDepletionAges : gmap string (option Z)
}.

(** ** [src/utils/withdrawals.ts]: the working state *)

Record AccountState := mkState {
  id : string;
  type : AccountType;
  owner : Owner;
  balance : Q;
  costBasis : Q
}.

Record WithdrawalResult := mkResult {
  total : Q;
  rrspWithdrawal : Q;
  taxFreeWithdrawal : Q;
  taxableWithdrawal : Q;
  taxableGains : Q;
  byAccount : gmap string Q
}.

(** What [performTaxOptimizedWithdrawal] mutates besides the accounts: its
    [result], its local [remainingNeed], and the caller's
    [accountDepletionAges] object, which it receives by reference. *)
Record Ledger := mkLedger {
  result : WithdrawalResult;
  remainingNeed : Q;
  depletionAges : gmap string (option Z)
}.

(** [m[k] || 0] *)
Definition getOr0 (m : gmap string Q) (k : string) : Q := default 0 (m !! k).

(** [result.byAccount[acc.id] += withdrawal]; every key the code writes was
    initialised to [0] by the [forEach] at the top of the function. *)
Definition addTo (m : gmap string Q) (k : string) (withdrawal : Q) : gmap string Q :=
  <[k := getOr0 m k + withdrawal]> m.

Definition isNull {A} (o : option (option A)) : bool :=
  match o with Some None => true | _ => false end.

(** [if (acc.balance <= 0 && accountDepletionAges[acc.id] === null)
        accountDepletionAges[acc.id] = age;] *)
Definition markDepleted (acc : AccountState) (age : Z)
    (ages : gmap string (option Z)) : gmap string (option Z) :=
  if Qleb (balance acc) 0 && isNull (ages !! id acc)
  then <[id acc := Some age]> ages
  else ages.

Definition withBalance (acc : AccountState) (b : Q) : AccountState :=
  mkState (id acc) (type acc) (owner acc) b (costBasis acc).

(** The four statements every tax-deferred withdrawal makes on [result]. *)
Definition creditRRSP (r : WithdrawalResult) (k : string) (withdrawal : Q) : WithdrawalResult :=
  mkResult (total r + withdrawal) (rrspWithdrawal r + withdrawal)
    (taxFreeWithdrawal r) (taxableWithdrawal r) (taxableGains r)
    (addTo (byAccount r) k withdrawal).

Definition creditTaxFree (r : WithdrawalResult) (k : string) (withdrawal : Q) : WithdrawalResult :=
  mkResult (total r + withdrawal) (rrspWithdrawal r)
    (taxFreeWithdrawal r + withdrawal) (taxableWithdrawal r) (taxableGains r)
    (addTo (byAccount r) k withdrawal).

Definition creditTaxable (r : WithdrawalResult) (k : string) (withdrawal gains : Q) : WithdrawalResult :=
  mkResult (total r + withdrawal) (rrspWithdrawal r)
    (taxFreeWithdrawal r) (taxableWithdrawal r + withdrawal) (taxableGains r + gains)
    (addTo (byAccount r) k withdrawal).

(** [for (const acc of accountStates.filter(sel)) { if (stop) break; body }]
    over the shared account objects: the accounts the filter leaves out stay
    as they are, [break] leaves the rest of the array as it is. *)
Fixpoint forAccounts {S : Type} (sel : AccountState -> bool) (stop : S -> bool)
    (body : AccountState -> S -> AccountState * S)
    (accs : list AccountState) (s : S) : list AccountState * S :=
  match accs with
  | [] => ([], s)
  | acc :: rest =>
      if sel acc then
        if stop s then (acc :: rest, s)
        else
          let '(acc', s') := body acc s in
          let '(rest', s'') := forAccounts sel stop body rest s' in
          (acc' :: rest', s'')
      else
        let '(rest', s') := forAccounts sel stop body rest s in
        (acc :: rest', s')
  end.

(** ** [performTaxOptimizedWithdrawal] *)

(** [TAX_BRACKETS_FEDERAL[0].max] *)
Definition bracket1Max : Q :=
  match TAX_BRACKETS_FEDERAL with
  | b :: _ => match bmax b with Some m => m | None => 0 end
  | [] => 0
  end.

(** Step 1, the body of the loop that takes the RRIF minimums; its state is
    the local [rrifRemaining] and the ledger. *)
Definition rrifBody (age : Z) (acc : AccountState) (s : Q * Ledger)
    : AccountState * (Q * Ledger) :=
  let '(rrifRemaining, l) := s in
  let withdrawal := Qmin rrifRemaining (balance acc) in
  let acc' := withBalance acc (balance acc - withdrawal) in
  (acc',
   (rrifRemaining - withdrawal,
    mkLedger (creditRRSP (result l) (id acc) withdrawal)
      (Qmax 0 (remainingNeed l - withdrawal))
      (markDepleted acc' age (depletionAges l)))).

(** Step 2, the body of the loop that fills the first federal bracket. *)
Definition bracketFillBody (age : Z) (otherIncome : Q) (hasSpouse : bool)
    (acc : AccountState) (l : Ledger) : AccountState * Ledger :=
  let householdOrdinaryIncome := rrspWithdrawal (result l) + otherIncome in
  let householdBracketCap := bracket1Max * (if hasSpouse then 2 else 1) in
  let roomInHouseholdBracket := Qmax 0 (householdBracketCap - householdOrdinaryIncome) in
  let withdrawal := Qmin (Qmin roomInHouseholdBracket (remainingNeed l)) (balance acc) in
  if Qltb 0 withdrawal then
    let acc' := withBalance acc (balance acc - withdrawal) in
    (acc',
     mkLedger (creditRRSP (result l) (id acc) withdrawal)
       (remainingNeed l - withdrawal)
       (markDepleted acc' age (depletionAges l)))
  else (acc, l).

(** Step 3, the body of the loop over the tax-free accounts. *)
Definition taxFreeBody (age : Z) (acc : AccountState) (l : Ledger) : AccountState * Ledger :=
  let withdrawal := Qmin (remainingNeed l) (balance acc) in
  let acc' := withBalance acc (balance acc - withdrawal) in
  (acc',
   mkLedger (creditTaxFree (result l) (id acc) withdrawal)
     (remainingNeed l - withdrawal)
     (markDepleted acc' age (depletionAges l))).

(** [acc.costBasis > 0 ? Math.max(0, 1 - acc.costBasis / acc.balance) : 0.5].
    With a positive cost basis and a zero balance the quotient is [Infinity]
    and [Math.max] returns 0. *)
Definition gainRatioOf (acc : AccountState) : Q :=
  if Qltb 0 (costBasis acc) then
    if Qeq_bool (balance acc) 0 then 0
    else Qmax 0 (1 - costBasis acc / balance acc)
  else 1 # 2.

(** The gain the taxable step adds to [result.taxableGains] for one account. *)
Definition realizedGain (remainingNeed : Q) (acc : AccountState) : Q :=
  let withdrawal := Qmin remainingNeed (balance acc) in
  withdrawal * gainRatioOf acc.

(** Step 4, the body of the loop over the taxable accounts. *)
Definition taxableBody (age : Z) (acc : AccountState) (l : Ledger) : AccountState * Ledger :=
  let withdrawal := Qmin (remainingNeed l) (balance acc) in
  let gains := realizedGain (remainingNeed l) acc in
  let balance' := balance acc - withdrawal in
  let costBasis' :=
    if Qltb 0 balance' then costBasis acc * (balance' / (balance' + withdrawal))
    else 0 in
  let acc' := mkState (id acc) (type acc) (owner acc) balance' costBasis' in
  (acc',
   mkLedger (creditTaxable (result l) (id acc) withdrawal gains)
     (remainingNeed l - withdrawal)
     (markDepleted acc' age (depletionAges l))).

(** Step 5, the body of the loop that takes the rest from the RRSPs. *)
Definition extraRRSPBody (age : Z) (acc : AccountState) (l : Ledger) : AccountState * Ledger :=
  let withdrawal := Qmin (remainingNeed l) (balance acc) in
  let acc' := withBalance acc (balance acc - withdrawal) in
  (acc',
   mkLedger (creditRRSP (result l) (id acc) withdrawal)
     (remainingNeed l - withdrawal)
     (markDepleted acc' age (depletionAges l))).

Definition needMet (l : Ledger) : bool := Qleb (remainingNeed l) 0.

Definition rrifDone (s : Q * Ledger) : bool := Qleb (fst s) 0.

(** [accountStates.forEach(acc => { result.byAccount[acc.id] = 0; })] *)
Definition zeroByAccount (accountStates : list AccountState) : gmap string Q :=
  fold_left (fun m acc => <[id acc := 0]> m) accountStates ∅.

Definition step1 (age : Z) (rrifMinimum : Q) (accs : list AccountState) (l : Ledger)
    : list AccountState * Ledger :=
  let '(accs', (_, l')) :=
    forAccounts (fun acc => isPreTax (type acc)) rrifDone (rrifBody age) accs (rrifMinimum, l) in
  (accs', l').

Definition step2 (age : Z) (otherIncome : Q) (hasSpouse : bool)
    (accs : list AccountState) (l : Ledger) : list AccountState * Ledger :=
  forAccounts (fun acc => isPreTax (type acc)) needMet
    (bracketFillBody age otherIncome hasSpouse) accs l.

Definition step3 (age : Z) (accs : list AccountState) (l : Ledger) : list AccountState * Ledger :=
  forAccounts (fun acc => isTaxFree (type acc)) needMet (taxFreeBody age) accs l.

Definition step4 (age : Z) (accs : list AccountState) (l : Ledger) : list AccountState * Ledger :=
  forAccounts (fun acc => isTaxable (type acc)) needMet (taxableBody age) accs l.

Definition step5 (age : Z) (accs : list AccountState) (l : Ledger) : list AccountState * Ledger :=
  if Qltb 0 (remainingNeed l)
  then forAccounts (fun acc => isPreTax (type acc)) needMet (extraRRSPBody age) accs l
  else (accs, l).

Definition hasSpouse (profile : Profile) : bool :=
  match spouse profile with Some _ => true | None => false end.

(** The function returns its [result]; the accounts and the depletion ages
    it mutated come back with it. *)
Definition performTaxOptimizedWithdrawal (accountStates : list AccountState)
    (targetSpending rrifMinimum otherIncome : Q) (profile : Profile)
    (accountDepletionAges : gmap string (option Z)) (age : Z)
    : list AccountState * WithdrawalResult * gmap string (option Z) :=
  let result0 := mkResult 0 0 0 0 0 (zeroByAccount accountStates) in
  let remainingNeed0 := Qmax 0 (targetSpending - otherIncome) in
  let l0 := mkLedger result0 remainingNeed0 accountDepletionAges in
  let '(accs1, l1) := step1 age rrifMinimum accountStates l0 in
  let '(accs2, l2) := step2 age otherIncome (hasSpouse profile) accs1 l1 in
  let '(accs3, l3) := step3 age accs2 l2 in
  let '(accs4, l4) := step4 age accs3 l3 in
  let '(accs5, l5) := step5 age accs4 l4 in
  (accs5, result l5, depletionAges l5).

(** ** [calculateWithdrawals] *)

(** What the year loop carries from one iteration to the next. *)
Record SimState := mkSim {
  accountStates : list AccountState;
  simTargetSpending : Q;
  simYearlyWithdrawals : list YearlyWithdrawal;
  simLifetimeTaxesPaid : Q;
  simPortfolioDepletionAge : option Z;
  simAccountDepletionAges : gmap string (option Z)
}.

(** [accountStates.reduce((sum, acc) => sum + acc.balance, 0)] *)
Definition sumBalances (accs : list AccountState) : Q :=
  fold_left (fun sum acc => sum + balance acc) accs 0.

(** [accs.filter(a => a.owner === o && isPreTax(a.type))] *)
Definition preTaxOf (o : Owner) (accs : list AccountState) : list AccountState :=
  List.filter (fun a => isOwner (owner a) o && isPreTax (type a)) accs.

(** [.reduce((sum, a) => sum + (withdrawals.byAccount[a.id] || 0), 0)] *)
Definition sumWithdrawn (byAcc : gmap string Q) (accs : list AccountState) : Q :=
  fold_left (fun sum a => sum + getOr0 byAcc (id a)) accs 0.

(** A [number | undefined] in a condition: absent and 0 are both falsy. *)
Definition truthyQ (o : option Q) : bool :=
  match o with Some x => negb (Qeq_bool x 0) | None => false end.

Definition truthyZ (o : option Z) : bool :=
  match o with Some x => negb (x =? 0)%Z | None => false end.

(** The initial [accountStates] array. *)
Definition initAccountState (accumulationResult : AccumulationResult)
    (account : Account) : AccountState :=
  let final := getOr0 (finalBalances accumulationResult) (account_id account) in
  mkState (account_id account) (account_type account)
    (default owner_primary (account_owner account))
    final
    (match getTaxTreatment (account_type account) with
     | taxable => final * (5 # 10)
     | _ => 0
     end).

(** [accounts.forEach(account => { accountDepletionAges[account.id] = null; })] *)
Definition initDepletionAges (accounts : list Account) : gmap string (option Z) :=
  fold_left (fun m account => <[account_id account := None]> m) accounts ∅.

Definition initSim (accounts : list Account) (assumptions : Assumptions)
    (accumulationResult : AccumulationResult) : SimState :=
  mkSim (map (initAccountState accumulationResult) accounts)
    (totalAtRetirement accumulationResult * safeWithdrawalRate assumptions)
    [] 0 None (initDepletionAges accounts).

(** [acc.balance *= (1 + assumptions.retirementReturnRate)] *)
Definition applyReturn (assumptions : Assumptions) (acc : AccountState) : AccountState :=
  withBalance acc (balance acc * (1 + retirementReturnRate assumptions)).

(** [accountStates.forEach(acc => { remainingBalances[acc.id] = acc.balance; })] *)
Definition recordBalances (accs : list AccountState) : gmap string Q :=
  fold_left (fun m acc => <[id acc := balance acc]> m) accs ∅.

(** One iteration of the year loop ([currentYear] is what
    [new Date().getFullYear()] returned): the record it pushes, and the state
    it leaves. *)
Definition simulateYear (currentYear : Z) (profile : Profile) (assumptions : Assumptions)
    (i : Z) (st : SimState) : YearlyWithdrawal * SimState :=
  let retirementStartYear := (currentYear + (retirementAge profile - currentAge profile))%Z in
  let age := (retirementAge profile + i)%Z in
  let year := (retirementStartYear + i)%Z in
  let totalRemaining := sumBalances (accountStates st) in
  let portfolioDepletionAge :=
    match simPortfolioDepletionAge st with
    | None => if Qleb totalRemaining 0 then Some age else None
    | Some a => Some a
    end in
  let primaryCppOas :=
    match cppOasBenefit profile, cppOasStartAge profile with
    | Some benefit, Some startAge =>
        if truthyQ (Some benefit) && truthyZ (Some startAge) && (startAge <=? age)%Z
        then benefit * (1 + inflationRate assumptions) ^ (age - currentAge profile)
        else 0
    | _, _ => 0
    end in
  let spouseCppOas :=
    match spouse profile with
    | Some sp =>
        match cppOasBenefit sp, cppOasStartAge sp with
        | Some benefit, Some startAge =>
            if truthyQ (Some benefit) && truthyZ (Some startAge)
               && (startAge <=? currentAge sp + (year - currentYear))%Z
            then benefit * (1 + inflationRate assumptions) ^ (year - currentYear)
            else 0
        | _, _ => 0
        end
    | None => 0
    end in
  let totalCppOas := primaryCppOas + spouseCppOas in
  let primaryRRIF :=
    calculateRRIFMinimum age (sumBalances (preTaxOf owner_primary (accountStates st))) in
  let spouseAge :=
    match spouse profile with
    | Some sp => (currentAge sp + (year - currentYear))%Z
    | None => age
    end in
  let spouseRRIF :=
    calculateRRIFMinimum spouseAge (sumBalances (preTaxOf owner_spouse (accountStates st))) in
  let totalRRIF := primaryRRIF + spouseRRIF in
  let '(accs, withdrawals, depletion) :=
    performTaxOptimizedWithdrawal (accountStates st) (simTargetSpending st)
      totalRRIF totalCppOas profile (simAccountDepletionAges st) age in
  let accs := map (applyReturn assumptions) accs in
  let totalTaxableWithdrawal := taxableWithdrawal withdrawals in
  let primaryTaxableWithdrawal :=
    sumWithdrawn (byAccount withdrawals)
      (List.filter (fun a => isOwner (owner a) owner_primary && isTaxable (type a)) accs) in
  let primaryGains :=
    if Qltb 0 totalTaxableWithdrawal
    then taxableGains withdrawals * (primaryTaxableWithdrawal / totalTaxableWithdrawal)
    else 0 in
  let spouseGains := taxableGains withdrawals - primaryGains in
  let primaryRRSPWithdrawal :=
    sumWithdrawn (byAccount withdrawals) (preTaxOf owner_primary accs) in
  let primaryOrdinaryIncome := primaryRRSPWithdrawal + primaryCppOas in
  let primaryFederalTax := calculateTotalFederalTax primaryOrdinaryIncome primaryGains single in
  let primaryProvincialTax :=
    calculateProvincialTax primaryOrdinaryIncome primaryGains (provinceTaxRate profile) in
  let spouseRRSPWithdrawal :=
    sumWithdrawn (byAccount withdrawals) (preTaxOf owner_spouse accs) in
  let spouseOrdinaryIncome := spouseRRSPWithdrawal + spouseCppOas in
  let spouseFederalTax := calculateTotalFederalTax spouseOrdinaryIncome spouseGains single in
  let spouseProvincialTax :=
    calculateProvincialTax spouseOrdinaryIncome spouseGains
      (match spouse profile with
       | Some sp => provinceTaxRate sp
       | None => provinceTaxRate profile
       end) in
  let totalTax := primaryFederalTax + primaryProvincialTax + spouseFederalTax + spouseProvincialTax in
  let grossWithdrawal := total withdrawals in
  let grossIncome := grossWithdrawal + totalCppOas in
  let afterTaxIncome := grossIncome - totalTax in
  let record :=
    mkYearly age year (byAccount withdrawals) (recordBalances accs)
      grossWithdrawal totalCppOas grossIncome
      (primaryFederalTax + spouseFederalTax)
      (primaryProvincialTax + spouseProvincialTax)
      totalTax afterTaxIncome (simTargetSpending st) totalRRIF
      (sumBalances accs) in
  (record,
   mkSim accs
     (simTargetSpending st * (1 + inflationRate assumptions))
     (simYearlyWithdrawals st ++ [record])
     (simLifetimeTaxesPaid st + totalTax)
     portfolioDepletionAge
     depletion).

Definition yearRecord (currentYear : Z) (profile : Profile) (assumptions : Assumptions)
    (i : Z) (st : SimState) : YearlyWithdrawal :=
  fst (simulateYear currentYear profile assumptions i st).

Definition yearStep (currentYear : Z) (profile : Profile) (assumptions : Assumptions)
    (i : Z) (st : SimState) : SimState :=
  snd (simulateYear currentYear profile assumptions i st).

(** [for (let i = 0; i <= retirementYears; i++)], by its trip count. *)
Fixpoint yearsLoop (currentYear : Z) (profile : Profile) (assumptions : Assumptions)
    (trips : nat) (i : Z) (st : SimState) : SimState :=
  match trips with
  | O => st
  | S trips' =>
      yearsLoop currentYear profile assumptions trips' (i + 1)%Z
        (yearStep currentYear profile assumptions i st)
  end.

(** The iterations [i = 0 .. retirementYears]: none when that is negative. *)
Definition tripCount (profile : Profile) : nat :=
  Z.to_nat (lifeExpectancy profile - retirementAge profile + 1).

Definition calculateWithdrawals (currentYear : Z) (accounts : list Account)
    (profile : Profile) (assumptions : Assumptions)
    (accumulationResult : AccumulationResult) : RetirementResult :=
  let st :=
    yearsLoop currentYear profile assumptions (tripCount profile) 0%Z
      (initSim accounts assumptions accumulationResult) in
  let sustainableAnnualWithdrawal :=
    totalAtRetirementReal accumulationResult * safeWithdrawalRate assumptions in
  let sustainableAnnualWithdrawalNominal :=
    totalAtRetirement accumulationResult * safeWithdrawalRate assumptions in
  mkRetirement (simYearlyWithdrawals st)
    (simPortfolioDepletionAge st)
    (simLifetimeTaxesPaid st)
    (sustainableAnnualWithdrawal / 12)
    sustainableAnnualWithdrawal
    (sustainableAnnualWithdrawalNominal / 12)
    sustainableAnnualWithdrawalNominal
    (simAccountDepletionAges st).

(** The state in which year [k] of the simulation starts. *)
Definition stateAt (currentYear : Z) (accounts : list Account) (profile : Profile)
    (assumptions : Assumptions) (accumulationResult : AccumulationResult)
    (k : nat) : SimState :=
  yearsLoop currentYear profile assumptions k 0%Z
    (initSim accounts assumptions accumulationResult).

(** ** The premium of the regional tax as the specification words it

    A premium looked up in five income bands. *)

(** The bands of the premium: the income above which a band starts, and the
    premium of the band. *)
Definition premiumBands : list (Q * Q) :=
  [ (20000, 300); (36000, 450); (48000, 600); (72000, 750); (200000, 900) ].

(** The premium of the highest band that the income has entered. *)
Definition bandPremium (income : Q) : Q :=
  fold_left (fun p band => if Qltb (fst band) income then snd band else p)
    premiumBands 0.

(** ** Scenario A of the test suite *)

Definition scenarioA_accounts : list Account :=
  [ mkAccount "rrsp" rrsp None 500000; mkAccount "tfsa" tfsa None 100000 ].

Definition scenarioA_profile : Profile :=
  mkProfile 65 65 66 (1 # 10) (Some 0) (Some 65%Z) None.

Definition scenarioA_assumptions : Assumptions := mkAssumptions 0 (4 # 100) 0.

(** What [calculateAccumulation] hands over when the current age is the
    retirement age: the balances as entered, and their total. *)
Definition scenarioA_accumulation : AccumulationResult :=
  mkAccumulation (<["rrsp" := 500000]> (<["tfsa" := 100000]> ∅)) 600000 600000.

(** ** Quantities the properties speak of *)

(** The sum of the values of a per-account map. *)
Definition sumValues (m : gmap string Q) : Q :=
  map_fold (fun _ v sum => sum + v) 0 m.

(** The balance held under an account id: the balance of the account with
    that id (of all of them, should several accounts share the id). *)
Fixpoint balanceHeld (key : string) (accs : list AccountState) : Q :=
  match accs with
  | [] => 0
  | acc :: rest =>
      (if String.eqb (id acc) key then balance acc else 0) + balanceHeld key rest
  end.

(** The per-account withdrawals of a ledger add up to its total. *)
Definition totalsAgree (r : WithdrawalResult) : Prop :=
  sumValues (byAccount r) == total r.

(** Every depletion age that is set in [m] is set to the same age in [m']. *)
Definition keepsAges (m m' : gmap string (option Z)) : Prop :=
  forall key a, m !! key = Some (Some a) -> m' !! key = Some (Some a).

(** What a withdrawal leaves of an account: the same account, and, if its
    balance was not negative, a balance between 0 and what it was. *)
Definition shrinks (acc acc' : AccountState) : Prop :=
  id acc' = id acc /\ type acc' = type acc /\ owner acc' = owner acc /\
  (0 <= balance acc -> 0 <= balance acc' /\ balance acc' <= balance acc).

(** From one ledger to a later one: the totals still agree and no depletion
    age was overwritten. *)
Definition ledgerStep (l l' : Ledger) : Prop :=
  (totalsAgree (result l) -> totalsAgree (result l')) /\
  keepsAges (depletionAges l) (depletionAges l').

(** The map of a ledger that the withdrawals are entered in. *)
Definition ledgerMap (l : Ledger) : gmap string Q := byAccount (result l).

(** From one year's state to a later one: no depletion age, of an account
    or of the portfolio, was overwritten. *)
Definition keepsDepletion (st st' : SimState) : Prop :=
  keepsAges (simAccountDepletionAges st) (simAccountDepletionAges st') /\
  (forall a, simPortfolioDepletionAge st = Some a -> simPortfolioDepletionAge st' = Some a).

(** An account whose balance is not negative. *)
Definition nonNegative (acc : AccountState) : Prop := 0 <= balance acc.

(** ** A household that spends its only account in the first year *)

Definition spendItAll_accounts : list Account := [ mkAccount "rrsp" rrsp None 1000 ].

Definition spendItAll_profile : Profile :=
  mkProfile 65 65 67 (1 # 10) None None None.

Definition spendItAll_assumptions : Assumptions := mkAssumptions 0 1 (5 # 100).

Definition spendItAll_accumulation : AccumulationResult :=
  mkAccumulation (<["rrsp" := 1000]> ∅) 1000 1000.

(** ** Further concrete inputs *)

(** An accumulation result without balances. *)
Definition noAccumulation : AccumulationResult := mkAccumulation ∅ 0 0.

(** ** The rest of [src/utils/taxes.ts] *)

Definition getTaxBrackets (filingStatus : FilingStatus) : list TaxBracket :=
  TAX_BRACKETS_FEDERAL.

(** [currentTotalIncome <= bracket.max]; every income is at most
    [Infinity]. *)
Definition atMost (income : Q) (bracket : TaxBracket) : bool :=
  match bmax bracket with
  | Some m => Qleb income m
  | None => true
  end.

(** The loop returns the rate of the first bracket the income does not
    exceed, and the last bracket's rate if there is none. *)
Definition getMarginalTaxRate (currentTotalIncome : Q) (filingStatus : FilingStatus) : Q :=
  let brackets := TAX_BRACKETS_FEDERAL in
  match List.find (atMost currentTotalIncome) brackets with
  | Some bracket => rate bracket
  | None => rate (List.last brackets (mkBracket 0 None 0))
  end.

(** The result is a number or [Infinity] ([None]): for the unbounded
    bracket [income >= Infinity] is false and [Infinity - income] is
    [Infinity]. *)
Definition getWithdrawalToFillBracket (currentTotalIncome targetBracketRate : Q)
    (filingStatus : FilingStatus) : option Q :=
  let brackets := TAX_BRACKETS_FEDERAL in
  match List.find (fun b => Qeq_bool (rate b) targetBracketRate) brackets with
  | None => Some 0
  | Some targetBracket =>
      match bmax targetBracket with
      | Some m =>
          if Qleb m currentTotalIncome then Some 0
          else
            let totalRoom := m - currentTotalIncome in
            Some (Qmax 0 totalRoom)
      | None => None
      end
  end.

Definition getEffectiveTaxRate (totalTax grossIncome : Q) : Q :=
  if Qleb grossIncome 0 then 0 else totalTax / grossIncome.

(** ** Bracket tables as the properties speak of them *)

(** The part of an income that lies between a bracket's bounds. *)
Definition portion (income : Q) (bracket : TaxBracket) : Q :=
  Qmax 0 (match bmax bracket with
          | Some m => Qmin income m
          | None => income
          end - bmin bracket).

(** Every bracket's rate on the part of the income that lies in it. *)
Fixpoint taxByPortions (income : Q) (brackets : list TaxBracket) : Q :=
  match brackets with
  | [] => 0
  | bracket :: rest => portion income bracket * rate bracket + taxByPortions income rest
  end.

(** ** The regional tax as the specification words it

    The bracket sum of the regional table, less the regional exemption
    credit, floored at 0, is the basic regional tax [B]; on it come two
    surtaxes, each a rate times the part of [B] above its own threshold, and
    the premium of the income's band.  Nothing here is taken from the code
    but the tables and the constants. *)

(** The rate of the lowest bracket of an ascending table. *)
Definition lowestBracketRate (brackets : list TaxBracket) : Q :=
  match brackets with
  | [] => 0
  | bracket :: _ => rate bracket
  end.

(** The regional exemption amount at the regional lowest-bracket rate. *)
Definition regionalCredit : Q :=
  provincialBPA * lowestBracketRate TAX_BRACKETS_PROVINCIAL.

(** The sum over the brackets of the regional table of the rate times the
    part of the income in the bracket, less the credit, floored at 0. *)
Definition basicRegionalTax (income : Q) : Q :=
  Qmax 0 (taxByPortions income TAX_BRACKETS_PROVINCIAL - regionalCredit).

Definition regionalTaxSpec (ordinaryIncome capitalGains : Q) : Q :=
  let income := ordinaryIncome + capitalGains * CAPITAL_GAINS_INCLUSION_RATE_BASE in
  let B := basicRegionalTax income in
  B + ONTARIO_SURTAX_1_RATE * Qmax 0 (B - ONTARIO_SURTAX_1_THRESHOLD)
    + ONTARIO_SURTAX_2_RATE * Qmax 0 (B - ONTARIO_SURTAX_2_THRESHOLD)
    + bandPremium income.

(** A table that starts at [from], in which every bracket starts where the
    one before it ends and is not empty, and after whose unbounded bracket
    nothing follows. *)
Fixpoint contiguous (from : Q) (brackets : list TaxBracket) : Prop :=
  match brackets with
  | [] => True
  | bracket :: rest =>
      bmin bracket == from /\
      match bmax bracket with
      | Some m => from < m /\ contiguous m rest
      | None => rest = []
      end
  end.

(** Every rate of the table lies between [lo] and [hi]. *)
Definition ratesWithin (lo hi : Q) (brackets : list TaxBracket) : Prop :=
  Forall (fun b => lo <= rate b /\ rate b <= hi) brackets.

(** The table ends with an unbounded bracket. *)
Fixpoint unbounded (brackets : list TaxBracket) : Prop :=
  match brackets with
  | [] => False
  | [bracket] => bmax bracket = None
  | _ :: rest => unbounded rest
  end.

(** ** Further quantities of the withdrawal steps *)

(** The household ceiling of the bracket-fill step. *)
Definition householdBracketCap (withSpouse : bool) : Q :=
  bracket1Max * (if withSpouse then 2 else 1).

(** From one ledger to a later one: what was withdrawn came off the
    remaining need, and the need did not become negative. *)
Definition accountsFor (l l' : Ledger) : Prop :=
  total (result l') + remainingNeed l' == total (result l) + remainingNeed l /\
  (0 <= remainingNeed l -> 0 <= remainingNeed l').

(** From one ledger to a later one: the need did not grow and no total
    shrank. *)
Definition advances (l l' : Ledger) : Prop :=
  remainingNeed l' <= remainingNeed l /\
  total (result l) <= total (result l') /\
  rrspWithdrawal (result l) <= rrspWithdrawal (result l') /\
  taxFreeWithdrawal (result l) <= taxFreeWithdrawal (result l') /\
  taxableWithdrawal (result l) <= taxableWithdrawal (result l').

(** From one ledger to a later one: nothing was entered for the tax-free
    and the taxable accounts. *)
Definition onlyTaxDeferred (l l' : Ledger) : Prop :=
  taxFreeWithdrawal (result l') = taxFreeWithdrawal (result l) /\
  taxableWithdrawal (result l') = taxableWithdrawal (result l) /\
  taxableGains (result l') = taxableGains (result l).

(** From one state of the loop over the RRIF minimums to a later one. *)
Definition takesMinimum (s s' : Q * Ledger) : Prop :=
  total (result (snd s')) + fst s' == total (result (snd s)) + fst s /\
  fst s' <= fst s /\
  (0 <= fst s -> 0 <= fst s') /\
  total (result (snd s)) <= total (result (snd s')) /\
  rrspWithdrawal (result (snd s)) <= rrspWithdrawal (result (snd s')) /\
  (0 <= remainingNeed (snd s) ->
   remainingNeed (snd s') == Qmax 0 (remainingNeed (snd s) - (fst s - fst s'))).

(** Whether an account is of one of the kinds the steps select. *)
Definition isKind (kind : AccountType -> bool) (acc : AccountState) : bool :=
  kind (type acc).

(** An account of the kind is empty. *)
Definition emptied (kind : AccountType -> bool) (acc : AccountState) : Prop :=
  kind (type acc) = true -> balance acc <= 0.

(** The taxes of a sequence of yearly records, added up. *)
Definition taxesOf (records : list YearlyWithdrawal) : Q :=
  fold_right (fun rec sum => totalTax rec + sum) 0 records.

(** From one table of depletion ages to a later one: every entry is as it
    was, or was [null] and is now [age]. *)
Definition setsOnly (age : Z) (m m' : gmap string (option Z)) : Prop :=
  forall key,
    m' !! key = m !! key \/ (m !! key = Some None /\ m' !! key = Some (Some age)).


(** ** Inputs for the withdrawal steps on their own *)

(** A single household with a tax-deferred and a tax-free account, as the
    account states of the start of a year. *)
Definition twoShelters : list AccountState :=
  [ mkState "rrsp" rrsp owner_primary 500000 500000;
    mkState "tfsa" tfsa owner_primary 100000 100000 ].

Definition smallPot : list AccountState :=
  [ mkState "rrsp" rrsp owner_primary 1000 1000 ].

(** ** A household that retires at the age of the first mandatory minimum *)

Definition lateRetiree_accounts : list Account := [ mkAccount "rrsp" rrsp None 100000 ].

Definition lateRetiree_profile : Profile :=
  mkProfile 72 72 73 (1 # 10) None None None.

Definition lateRetiree_assumptions : Assumptions := mkAssumptions 0 (4 # 100) 0.

Definition lateRetiree_accumulation : AccumulationResult :=
  mkAccumulation (<["rrsp" := 100000]> ∅) 100000 100000.

(** ** [src/utils/limits.ts] *)

(** The payroll and contribution constants of [src/utils/constants.ts]. *)
Definition CPP_PREMIUM_RATE : Q := 595 # 10000.
Definition CPP_MAX_PENSIONABLE_EARNINGS : Q := 71300.
Definition CPP_EXEMPTION : Q := 3500.
Definition CPP_MAX_CONTRIBUTION : Q := 403410 # 100.
Definition EI_PREMIUM_RATE : Q := 164 # 10000.
Definition EI_MAX_INSURABLE_EARNINGS : Q := 65700.
Definition EI_MAX_CONTRIBUTION : Q := 107748 # 100.
Definition RRSP_CONTRIBUTION_RATE : Q := 18 # 100.
Definition RRSP_MAX_LIMIT : Q := 32490.
Definition TFSA_ANNUAL_LIMIT : Q := 7000.
Definition FHSA_ANNUAL_LIMIT : Q := 8000.
Definition FHSA_LIFETIME_LIMIT : Q := 40000.

(** CPP and EI premiums. *)
Definition calculateDeductions (income : Q) : Q :=
  let cppPensionable :=
    Qmax 0 (Qmin income CPP_MAX_PENSIONABLE_EARNINGS - CPP_EXEMPTION) in
  let cpp := Qmin (cppPensionable * CPP_PREMIUM_RATE) CPP_MAX_CONTRIBUTION in
  let eiInsurable := Qmin income EI_MAX_INSURABLE_EARNINGS in
  let ei := Qmin (eiInsurable * EI_PREMIUM_RATE) EI_MAX_CONTRIBUTION in
  cpp + ei.

(** [ContributionLimits] of one person; the optional [spouse] field is only
    ever added by [calculateAnnualLimits]. *)
Record ContributionLimits := mkLimits {
  limits_rrsp : Q;
  limits_tfsa : Q;
  limits_fhsa : Q;
  limits_nonRegistered : Q;
  limits_total : Q;
  limits_grossIncome : Q;
  limits_totalTax : Q;
  limits_federalTax : Q;
  limits_provincialTax : Q;
  limits_cppEi : Q;
  limits_netIncome : Q;
  limits_annualSpending : Q;
  limits_availableSavings : Q
}.

(** The theoretical room of each shelter, steps 1 of
    [calculateIndividualLimits]. *)
Definition maxRrsp (annualIncome : Q) : Q :=
  Qmin (annualIncome * RRSP_CONTRIBUTION_RATE) RRSP_MAX_LIMIT.

Definition maxTfsa (age : Z) : Q :=
  if (18 <=? age)%Z then TFSA_ANNUAL_LIMIT else 0.

Definition maxFhsa (age : Z) (isFirstTimeHomeBuyer : bool) : Q :=
  if (18 <=? age)%Z && isFirstTimeHomeBuyer then FHSA_ANNUAL_LIMIT else 0.

Definition calculateIndividualLimits (annualIncome annualSpending : Q) (age : Z)
    (isFirstTimeHomeBuyer : bool) (provinceTaxRate : Q) : ContributionLimits :=
  let maxRrsp := maxRrsp annualIncome in
  let maxTfsa := maxTfsa age in
  let maxFhsa := maxFhsa age isFirstTimeHomeBuyer in
  let federalTax := calculateTotalFederalTax annualIncome 0 single in
  let provincialTax := calculateProvincialTax annualIncome 0 provinceTaxRate in
  let totalTax := federalTax + provincialTax in
  let cppEi := calculateDeductions annualIncome in
  let netIncome := annualIncome - totalTax - cppEi in
  let availableSavings := Qmax 0 (netIncome - annualSpending) in
  let remainingBudget := availableSavings in
  let fhsaContribution := Qmin remainingBudget maxFhsa in
  let remainingBudget := remainingBudget - fhsaContribution in
  let tfsaContribution := Qmin remainingBudget maxTfsa in
  let remainingBudget := remainingBudget - tfsaContribution in
  let rrspContribution := Qmin remainingBudget maxRrsp in
  let remainingBudget := remainingBudget - rrspContribution in
  let nonRegisteredContribution := remainingBudget in
  mkLimits rrspContribution tfsaContribution fhsaContribution nonRegisteredContribution
    (rrspContribution + tfsaContribution + fhsaContribution + nonRegisteredContribution)
    annualIncome totalTax federalTax provincialTax cppEi netIncome annualSpending
    availableSavings.

(** ** [src/utils/projections.ts] *)

(** [hasEmployerMatch] of [src/types/index.ts]. *)
Definition hasEmployerMatch (t : AccountType) : bool :=
  match t with rrsp => true | _ => false end.

(** [Account] with the fields that only the projection reads. *)
Record PlannedAccount := mkPlanned {
  account_of : Account;
  annualContribution : Q;
  contributionGrowthRate : Q;
  returnRate : Q;
  employerMatchPercent : option Q;
  employerMatchLimit : option Q
}.

Definition planned_id (a : PlannedAccount) : string := account_id (account_of a).
Definition planned_type (a : PlannedAccount) : AccountType := account_type (account_of a).

(** [{ ...account, annualContribution: c }] *)
Definition withContribution (a : PlannedAccount) (c : Q) : PlannedAccount :=
  mkPlanned (account_of a) c (contributionGrowthRate a) (returnRate a)
    (employerMatchPercent a) (employerMatchLimit a).

Definition calculateEmployerMatch (a : PlannedAccount) : Q :=
  match employerMatchPercent a, employerMatchLimit a with
  | Some percent, Some limit =>
      if negb (hasEmployerMatch (planned_type a))
         || negb (truthyQ (Some percent)) || negb (truthyQ (Some limit))
      then 0
      else
        let matchAmount := annualContribution a * percent in
        Qmin matchAmount limit
  | _, _ => 0
  end.

Record YearlyAccountBalance := mkYearBalance {
  yb_age : Z;
  yb_year : Z;
  yb_balances : gmap string Q;
  yb_totalBalance : Q;
  yb_contributions : gmap string Q
}.

(** The three tables that [calculateAccumulation] keeps by account id.  Every
    id that the year loop reads was written by the [forEach] that sets the
    tables up, so that the default of [getOr0] is never used. *)
Record Projection := mkProjection {
  balances : gmap string Q;
  contributions : gmap string Q;
  cumulativeContributions : gmap string Q
}.

Definition initProjection (accounts : list PlannedAccount) : Projection :=
  fold_left
    (fun p a =>
       mkProjection (<[planned_id a := account_balance (account_of a)]> (balances p))
         (<[planned_id a := annualContribution a]> (contributions p))
         (<[planned_id a := 0]> (cumulativeContributions p)))
    accounts (mkProjection ∅ ∅ ∅).

Definition isFhsa (t : AccountType) : bool :=
  match t with fhsa => true | _ => false end.

(** One account in one year: the body of the inner [forEach]. *)
Definition projectAccount (p : Projection) (a : PlannedAccount) : Projection :=
  let k := planned_id a in
  let currentBalance := getOr0 (balances p) k in
  let currentContribution := getOr0 (contributions p) k in
  let '(currentContribution, cumulative) :=
    if isFhsa (planned_type a) then
      let remainingSpace := FHSA_LIFETIME_LIMIT - getOr0 (cumulativeContributions p) k in
      let currentContribution :=
        if Qleb remainingSpace 0 then 0
        else if Qltb remainingSpace currentContribution then remainingSpace
        else currentContribution in
      (currentContribution, addTo (cumulativeContributions p) k currentContribution)
    else (currentContribution, cumulativeContributions p) in
  let balanceAfterReturn := currentBalance * (1 + returnRate a) in
  let employerMatch := calculateEmployerMatch (withContribution a currentContribution) in
  let totalContribution := currentContribution + employerMatch in
  let balances' := <[k := balanceAfterReturn + totalContribution]> (balances p) in
  let contributions' :=
    if negb (isFhsa (planned_type a)) || Qltb (getOr0 cumulative k) FHSA_LIFETIME_LIMIT
    then <[k := currentContribution * (1 + contributionGrowthRate a)]> (contributions p)
    else <[k := 0]> (contributions p) in
  mkProjection balances' contributions' cumulative.

(** The snapshot pushed for a year. *)
Definition snapshot (age year : Z) (p : Projection) : YearlyAccountBalance :=
  mkYearBalance age year (balances p) (sumValues (balances p)) (contributions p).

(** One turn of the year loop, for the loop counter [i]. *)
Definition projectYear (currentYear : Z) (accounts : list PlannedAccount) (profile : Profile)
    (i : Z) (s : Projection * list YearlyAccountBalance)
    : Projection * list YearlyAccountBalance :=
  let age := (currentAge profile + i)%Z in
  let year := (currentYear + i)%Z in
  let p := fold_left projectAccount accounts (fst s) in
  (p, snd s ++ [snapshot age year p]).

(** [for (let i = from; i <= yearsToRetirement; i++)], by its trip count. *)
Fixpoint projectionLoop (currentYear : Z) (accounts : list PlannedAccount) (profile : Profile)
    (trips : nat) (i : Z) (s : Projection * list YearlyAccountBalance)
    : Projection * list YearlyAccountBalance :=
  match trips with
  | O => s
  | S trips' =>
      projectionLoop currentYear accounts profile trips' (i + 1)%Z
        (projectYear currentYear accounts profile i s)
  end.

Definition yearsToRetirement (profile : Profile) : Z :=
  (retirementAge profile - currentAge profile)%Z.

(** The tables and the snapshots after [k] turns of the year loop. *)
Definition projectionAt (currentYear : Z) (accounts : list PlannedAccount) (profile : Profile)
    (k : nat) : Projection * list YearlyAccountBalance :=
  projectionLoop currentYear accounts profile k 1
    (initProjection accounts,
     [snapshot (currentAge profile) currentYear (initProjection accounts)]).

Record Breakdown := mkBreakdown {
  breakdown_pretax : Q;
  breakdown_tax_free : Q;
  breakdown_taxable : Q
}.

(** [breakdownByTaxTreatment[treatment] += amount] *)
Definition addToTreatment (b : Breakdown) (treatment : TaxTreatment) (amount : Q)
    : Breakdown :=
  match treatment with
  | pretax =>
      mkBreakdown (breakdown_pretax b + amount) (breakdown_tax_free b) (breakdown_taxable b)
  | tax_free =>
      mkBreakdown (breakdown_pretax b) (breakdown_tax_free b + amount) (breakdown_taxable b)
  | taxable =>
      mkBreakdown (breakdown_pretax b) (breakdown_tax_free b) (breakdown_taxable b + amount)
  end.

(** [AccumulationResult] as [calculateAccumulation] returns it; the three
    fields that the simulator reads are kept together in [handedOver]. *)
Record Accumulation := mkAccumulated {
  yearlyBalances : list YearlyAccountBalance;
  handedOver : AccumulationResult;
  breakdownByTaxTreatment : Breakdown;
  breakdownByTaxTreatmentReal : Breakdown
}.

Definition calculateAccumulation (currentYear : Z) (accounts : list PlannedAccount)
    (profile : Profile) (assumptions : Assumptions) : Accumulation :=
  let yearsToRetirement := yearsToRetirement profile in
  let '(p, yearlyBalances) :=
    projectionAt currentYear accounts profile (Z.to_nat yearsToRetirement) in
  let breakdownByTaxTreatment :=
    fold_left
      (fun b a =>
         addToTreatment b (getTaxTreatment (planned_type a))
           (getOr0 (balances p) (planned_id a)))
      accounts (mkBreakdown 0 0 0) in
  let totalAtRetirement := sumValues (balances p) in
  let discountFactor := (1 + inflationRate assumptions) ^ yearsToRetirement in
  let totalAtRetirementReal := totalAtRetirement / discountFactor in
  let breakdownByTaxTreatmentReal :=
    mkBreakdown (breakdown_pretax breakdownByTaxTreatment / discountFactor)
      (breakdown_tax_free breakdownByTaxTreatment / discountFactor)
      (breakdown_taxable breakdownByTaxTreatment / discountFactor) in
  mkAccumulated yearlyBalances
    (mkAccumulation (balances p) totalAtRetirement totalAtRetirementReal)
    breakdownByTaxTreatment breakdownByTaxTreatmentReal.

(** [result.yearlyBalances.find(y => y.age === age)], then
    [yearData.balances[accountId] || 0]. *)
Definition getBalanceAtAge (result : Accumulation) (accountId : string) (age : Z) : Q :=
  match List.find (fun y => (yb_age y =? age)%Z) (yearlyBalances result) with
  | None => 0
  | Some yearData => getOr0 (yb_balances yearData) accountId
  end.

(** One turn of the inner loop of [calculateTotalContributions], on the
    pair of [totalContribution] and [yearlyContribution]. *)
Definition contributionStep (a : PlannedAccount) (s : Q * Q) : Q * Q :=
  let '(totalContribution, yearlyContribution) := s in
  let employerMatch := calculateEmployerMatch (withContribution a yearlyContribution) in
  (totalContribution + (yearlyContribution + employerMatch),
   yearlyContribution * (1 + contributionGrowthRate a)).

(** [for (let i = 0; i < yearsToRetirement; i++)], by its trip count. *)
Fixpoint contributionLoop (a : PlannedAccount) (trips : nat) (s : Q * Q) : Q * Q :=
  match trips with
  | O => s
  | S trips' => contributionLoop a trips' (contributionStep a s)
  end.

Definition calculateTotalContributions (accounts : list PlannedAccount) (profile : Profile)
    : gmap string Q :=
  let yearsToRetirement := yearsToRetirement profile in
  fold_left
    (fun totals a =>
       <[planned_id a :=
           fst (contributionLoop a (Z.to_nat yearsToRetirement) (0, annualContribution a))]>
         totals)
    accounts ∅.

(** ** Quantities the properties of the projection speak of *)

(** A plan without negative amounts: the balance, the contribution and the
    employer match terms are not negative, and neither rate is below -1. *)
Definition wellFunded (a : PlannedAccount) : Prop :=
  0 <= account_balance (account_of a) /\ 0 <= annualContribution a /\
  -1 <= contributionGrowthRate a /\ -1 <= returnRate a /\
  (forall percent, employerMatchPercent a = Some percent -> 0 <= percent) /\
  (forall limit, employerMatchLimit a = Some limit -> 0 <= limit).

(** No entry of a table is negative, and no entry is above a bound. *)
Definition entriesFrom0 (m : gmap string Q) : Prop := forall key, 0 <= getOr0 m key.

Definition entriesUpTo (bound : Q) (m : gmap string Q) : Prop :=
  forall key, getOr0 m key <= bound.

(** The entries of the three tables under one account id. *)
Definition entriesAt (p : Projection) (key : string) : option Q * option Q * option Q :=
  (balances p !! key, contributions p !! key, cumulativeContributions p !! key).

(** The tables of an account that is projected on its own, after [k]
    years. *)
Definition aloneAt (a : PlannedAccount) (k : nat) : Projection :=
  Nat.iter k (fun p => projectAccount p a) (initProjection [a]).

(** The pair of [totalContribution] and [yearlyContribution] after [k]
    turns of the inner loop of [calculateTotalContributions]. *)
Definition contributedAt (a : PlannedAccount) (k : nat) : Q * Q :=
  contributionLoop a k (0, annualContribution a).

(** ** A household of savers, six years before retirement *)

(** A group RRSP with an employer match and no return, an FHSA that is
    filled in five years, and a TFSA that is left to compound. *)
Definition savers_rrsp : PlannedAccount :=
  mkPlanned (mkAccount "rrsp" rrsp None 10000) 5000 0 0 (Some (1 # 2)) (Some 2000).

Definition savers_fhsa : PlannedAccount :=
  mkPlanned (mkAccount "fhsa" fhsa None 0) 8000 0 0 None None.

Definition savers_tfsa : PlannedAccount :=
  mkPlanned (mkAccount "tfsa" tfsa None 20000) 0 0 (5 # 100) None None.

Definition savers_accounts : list PlannedAccount :=
  [ savers_rrsp; savers_fhsa; savers_tfsa ].

Definition savers_profile : Profile :=
  mkProfile 30 36 90 (1 # 10) None None None.

Definition savers_assumptions : Assumptions := mkAssumptions (2 # 100) (4 # 100) (5 # 100).

(** ** The taxable step within a simulated year *)




(** ** A taxable account that loses half of its value in the first year *)





(** * Properties *)

(** ** Comparisons *)

Lemma Qleb_true x y : Qleb x y = true <-> x <= y.
Proof. apply Qle_bool_iff. Qed.

Lemma Qleb_false x y : Qleb x y = false <-> y < x.
Proof.
  unfold Qleb. split; intros H.
  - apply Qnot_le_lt. intros Hle. apply Qle_bool_iff in Hle. congruence.
  - destruct (Qle_bool x y) eqn:E; [|reflexivity].
    apply Qle_bool_iff in E. lra.
Qed.

Lemma Qltb_true x y : Qltb x y = true <-> x < y.
Proof.
  unfold Qltb. rewrite negb_true_iff. apply (Qleb_false y x).
Qed.

Lemma Qltb_false x y : Qltb x y = false <-> y <= x.
Proof.
  unfold Qltb. rewrite negb_false_iff. apply (Qleb_true y x).
Qed.

(** Case analysis on a comparison, leaving its meaning in the context. *)
Ltac cmp_case x y :=
  let E := fresh "E" in
  match goal with
  | |- context [Qleb x y] =>
      destruct (Qleb x y) eqn:E; [apply Qleb_true in E | apply Qleb_false in E]
  | |- context [Qltb x y] =>
      destruct (Qltb x y) eqn:E; [apply Qltb_true in E | apply Qltb_false in E]
  end.

Lemma Qmin_cases x y : (x <= y /\ Qmin x y == x) \/ (y <= x /\ Qmin x y == y).
Proof.
  destruct (Q.min_spec x y) as [[H1 H2]|[H1 H2]]; [left | right]; split;
    try rewrite H2; try reflexivity; lra.
Qed.

Lemma Qmax_cases x y : (x <= y /\ Qmax x y == y) \/ (y <= x /\ Qmax x y == x).
Proof.
  destruct (Q.max_spec x y) as [[H1 H2]|[H1 H2]]; [left | right]; split;
    try rewrite H2; try reflexivity; lra.
Qed.

(** ** Minimum distributions *)

Lemma findRRIF_in_table a e : findRRIF a = Some e -> (rage e = a /\ 70 <= a <= 95)%Z.
Proof.
  unfold findRRIF. intros H. apply List.find_some in H as [Hin Heq].
  apply Z.eqb_eq in Heq. subst a.
  assert (Hall : List.Forall (fun e => (70 <= rage e <= 95)%Z) RRIF_TABLE).
  { unfold RRIF_TABLE. repeat constructor; simpl; lia. }
  split; [reflexivity|]. rewrite List.Forall_forall in Hall. auto.
Qed.

Lemma findRRIF_beyond a : (95 < a)%Z -> findRRIF a = None.
Proof.
  intros Ha. destruct (findRRIF a) as [e|] eqn:Hf; [|reflexivity].
  apply findRRIF_in_table in Hf. lia.
Qed.

Lemma getRRIFFactor_beyond a : (95 <= a)%Z -> getRRIFFactor a == factor lastRRIFEntry.
Proof.
  intros Ha. destruct (Z.eq_dec a 95%Z) as [->|Hne]; [reflexivity|].
  unfold getRRIFFactor. rewrite findRRIF_beyond by lia.
  destruct (Z.ltb_spec a RRIF_START_AGE) as [Hlt|_]; [unfold RRIF_START_AGE in Hlt; lia|].
  destruct (Z.leb_spec 95 a); [reflexivity | lia].
Qed.

Lemma getRRIFFactor_step a :
  (RRIF_START_AGE <= a)%Z -> getRRIFFactor a <= getRRIFFactor (a + 1).
Proof.
  unfold RRIF_START_AGE. intros Ha.
  destruct (Z.le_gt_cases 95%Z a) as [Hbig|Hsmall].
  - rewrite !getRRIFFactor_beyond by lia. lra.
  - assert (Hcases : List.Forall
              (fun k => getRRIFFactor (72 + Z.of_nat k) <= getRRIFFactor (72 + Z.of_nat k + 1))
              (List.seq 0 23)).
    { repeat constructor; vm_compute; discriminate. }
    rewrite List.Forall_forall in Hcases.
    specialize (Hcases (Z.to_nat (a - 72))).
    replace (72 + Z.of_nat (Z.to_nat (a - 72)))%Z with a in Hcases by lia.
    apply Hcases. apply List.in_seq. lia.
Qed.

Lemma getRRIFFactor_mono a1 a2 :
  (RRIF_START_AGE <= a1 <= a2)%Z -> getRRIFFactor a1 <= getRRIFFactor a2.
Proof.
  intros [H1 H2].
  replace a2 with (a1 + Z.of_nat (Z.to_nat (a2 - a1)))%Z by lia.
  generalize (Z.to_nat (a2 - a1)) as n. intros n.
  induction n as [|n IH].
  - replace (a1 + Z.of_nat 0)%Z with a1 by lia. lra.
  - eapply Qle_trans; [exact IH|].
    replace (a1 + Z.of_nat (S n))%Z with (a1 + Z.of_nat n + 1)%Z by lia.
    apply getRRIFFactor_step. lia.
Qed.

Lemma getRRIFFactor_nonneg a : 0 <= getRRIFFactor a.
Proof.
  unfold getRRIFFactor.
  destruct (Z.ltb_spec a RRIF_START_AGE); [lra|].
  destruct (findRRIF a) as [e|] eqn:Hf.
  - unfold findRRIF in Hf. apply List.find_some in Hf as [Hin _].
    assert (Hall : List.Forall (fun e => 0 <= factor e) RRIF_TABLE).
    { unfold RRIF_TABLE. repeat constructor; simpl; discriminate. }
    rewrite List.Forall_forall in Hall. auto.
  - destruct (95 <=? a)%Z; [discriminate | lra].
Qed.

Lemma calculateRRIFMinimum_nonneg a b : 0 <= b -> 0 <= calculateRRIFMinimum a b.
Proof.
  intros Hb. unfold calculateRRIFMinimum.
  destruct (a <? RRIF_START_AGE)%Z; [lra|].
  apply Qmult_le_0_compat; [exact Hb | apply getRRIFFactor_nonneg].
Qed.

(** C5.  For a fixed balance [b >= 0] the mandatory minimum is exactly 0 at
    every age below the start age (the table's own entries for 70 and 71
    included), is non-decreasing in the age from the start age on, and
    beyond the age of the table's last entry is [b] times that entry's
    factor, which is the largest factor of the table. *)
Theorem rrif_minimum_by_age (b : Q) (Hb : 0 <= b) :
  (forall a, (a < RRIF_START_AGE)%Z -> calculateRRIFMinimum a b = 0) /\
  (forall e, List.In e RRIF_TABLE -> (rage e < RRIF_START_AGE)%Z ->
             calculateRRIFMinimum (rage e) b = 0) /\
  (forall a1 a2, (RRIF_START_AGE <= a1 <= a2)%Z ->
             calculateRRIFMinimum a1 b <= calculateRRIFMinimum a2 b) /\
  (forall a, (rage lastRRIFEntry < a)%Z ->
             calculateRRIFMinimum a b == b * factor lastRRIFEntry) /\
  List.Forall (fun e => factor e <= factor lastRRIFEntry) RRIF_TABLE.
Proof.
  assert (Hzero : forall a, (a < RRIF_START_AGE)%Z -> calculateRRIFMinimum a b = 0).
  { intros a Ha. unfold calculateRRIFMinimum.
    destruct (Z.ltb_spec a RRIF_START_AGE); [reflexivity | lia]. }
  repeat split.
  - exact Hzero.
  - intros e _ He. apply Hzero, He.
  - intros a1 a2 [H1 H2]. unfold calculateRRIFMinimum.
    destruct (Z.ltb_spec a1 RRIF_START_AGE); [lia|].
    destruct (Z.ltb_spec a2 RRIF_START_AGE); [lia|].
    assert (Hm := getRRIFFactor_mono a1 a2 (conj H1 H2)).
    assert (Hf := getRRIFFactor_nonneg a1). nra.
  - intros a Ha. change (rage lastRRIFEntry) with 95%Z in Ha.
    unfold calculateRRIFMinimum.
    destruct (Z.ltb_spec a RRIF_START_AGE) as [Hlt|_]; [unfold RRIF_START_AGE in Hlt; lia|].
    rewrite getRRIFFactor_beyond by lia. reflexivity.
  - unfold RRIF_TABLE. repeat constructor; vm_compute; discriminate.
Qed.

Lemma rrif_minimum_by_age_witness :
  calculateRRIFMinimum 71 1000 = 0 /\
  calculateRRIFMinimum 72 1000 <= calculateRRIFMinimum 80 1000 /\
  calculateRRIFMinimum 99 1000 == 1000 * factor lastRRIFEntry.
Proof.
  assert (Hb : 0 <= 1000) by discriminate.
  destruct (rrif_minimum_by_age 1000 Hb) as (H1 & _ & H3 & H4 & _).
  split; [apply H1; reflexivity|].
  split; [apply H3; unfold RRIF_START_AGE; lia|].
  apply H4. reflexivity.
Defined.

(** ** The tax engine *)

(** Replace every [Qmin]/[Qmax] of the goal by a fresh number with its two
    defining cases. *)
Ltac minmax_cases :=
  repeat match goal with
  | |- context [Qmin ?a ?b] =>
      let m := fresh "m" in
      let Hm := fresh "Hm" in
      pose proof (Qmin_cases a b) as Hm;
      set (m := Qmin a b) in *; clearbody m;
      destruct Hm as [[? ?]|[? ?]]
  | |- context [Qmax ?a ?b] =>
      let m := fresh "m" in
      let Hm := fresh "Hm" in
      pose proof (Qmax_cases a b) as Hm;
      set (m := Qmax a b) in *; clearbody m;
      destruct Hm as [[? ?]|[? ?]]
  end.

Lemma firstBracket_tax (y : Q) :
  0 < y -> y <= bracket1Max -> calculateRawFederalTax y == y * (15 # 100).
Proof.
  unfold bracket1Max. simpl. intros Hpos Hle.
  unfold calculateRawFederalTax, calculateBracketTax.
  cmp_case y 0; [lra|].
  cbv [TAX_BRACKETS_FEDERAL bracketWalk bmax rate].
  cmp_case (Qmin y (57375 - 0)) 0.
  { revert E0. minmax_cases; lra. }
  cmp_case (Qmin (y - Qmin y (57375 - 0)) (114750 - 57375)) 0.
  - minmax_cases; lra.
  - revert E1. minmax_cases; lra.
Qed.

(** C6.  For an ordinary income [y] between 0 and the upper bound of the
    first federal bracket and no capital gain, the federal tax is
    [max(0, y * 0.15 - BASIC_PERSONAL_AMOUNT * 0.15)]; at [y = 50000] that
    is [50000 * 0.15 - BASIC_PERSONAL_AMOUNT * 0.15]. *)
Theorem federal_tax_first_bracket :
  (forall y, 0 <= y -> y <= bracket1Max ->
     calculateTotalFederalTax y 0 single
       == Qmax 0 (y * (15 # 100) - BASIC_PERSONAL_AMOUNT * (15 # 100))) /\
  calculateTotalFederalTax 50000 0 single
       == 50000 * (15 # 100) - BASIC_PERSONAL_AMOUNT * (15 # 100).
Proof.
  split.
  - intros y H0 Hle. unfold calculateTotalFederalTax.
    unfold CAPITAL_GAINS_INCLUSION_RATE_BASE, BASIC_PERSONAL_AMOUNT. simpl firstRate.
    cmp_case (y + 0 * (50 # 100)) 0.
    + minmax_cases; lra.
    + assert (Hy : y + 0 * (50 # 100) == y) by ring.
      assert (Ht := firstBracket_tax (y + 0 * (50 # 100))).
      rewrite Hy in Ht at 1 2 4.
      specialize (Ht ltac:(lra) Hle).
      minmax_cases; lra.
  - vm_compute. reflexivity.
Qed.

Lemma federal_tax_first_bracket_witness :
  calculateTotalFederalTax 30000 0 single
    == Qmax 0 (30000 * (15 # 100) - BASIC_PERSONAL_AMOUNT * (15 # 100)).
Proof.
  apply (proj1 federal_tax_first_bracket 30000); vm_compute; discriminate.
Defined.

Lemma healthPremium_bands (income : Q) : healthPremium income = bandPremium income.
Proof.
  unfold healthPremium, bandPremium, premiumBands. simpl.
  repeat match goal with |- context [Qltb ?a ?b] => cmp_case a b end;
    try reflexivity; lra.
Qed.

Lemma ontarioSurtax_spec (B : Q) :
  ontarioSurtax B ==
    ONTARIO_SURTAX_1_RATE * Qmax 0 (B - ONTARIO_SURTAX_1_THRESHOLD)
    + ONTARIO_SURTAX_2_RATE * Qmax 0 (B - ONTARIO_SURTAX_2_THRESHOLD).
Proof.
  unfold ontarioSurtax, ONTARIO_SURTAX_1_RATE, ONTARIO_SURTAX_2_RATE,
    ONTARIO_SURTAX_1_THRESHOLD, ONTARIO_SURTAX_2_THRESHOLD.
  cmp_case 5710 B; cmp_case 7307 B; minmax_cases; lra.
Qed.

(** C10, as the code has it.  The regional flat rate is an argument that
    the body of [calculateProvincialTax] never reads: whatever two rates are
    passed, the tax is the same. *)
Theorem regional_tax_ignores_flat_rate :
  forall ordinaryIncome capitalGains rate1 rate2,
    calculateProvincialTax ordinaryIncome capitalGains rate1
    = calculateProvincialTax ordinaryIncome capitalGains rate2.
Proof. reflexivity. Qed.

(** C10 as stated fails: no income, gain and pair of rates make the
    regional tax differ. *)
Lemma regional_tax_rate_sensitive_refuted :
  ~ exists ordinaryIncome capitalGains rate1 rate2,
      ~ rate1 == rate2 /\
      ~ calculateProvincialTax ordinaryIncome capitalGains rate1
        == calculateProvincialTax ordinaryIncome capitalGains rate2.
Proof.
  intros (y & g & r1 & r2 & _ & Hne). apply Hne.
  unfold calculateProvincialTax. reflexivity.
Qed.

(** ** The year loop *)

Section YearLoop.
Variable currentYear : Z.
Variable accounts : list Account.
Variable profile : Profile.
Variable assumptions : Assumptions.
Variable accumulationResult : AccumulationResult.

Abbreviation stateAtYear := (stateAt currentYear accounts profile assumptions accumulationResult).
Abbreviation step := (yearStep currentYear profile assumptions).
Abbreviation record := (yearRecord currentYear profile assumptions).

Lemma yearStep_records i st :
  simYearlyWithdrawals (step i st) = simYearlyWithdrawals st ++ [record i st].
Proof.
  unfold yearStep, yearRecord, simulateYear.
  destruct (performTaxOptimizedWithdrawal _ _ _ _ _ _ _) as [[accs w] d].
  reflexivity.
Qed.

Lemma yearsLoop_last n : forall i st,
  yearsLoop currentYear profile assumptions (S n) i st
  = step (i + Z.of_nat n)%Z (yearsLoop currentYear profile assumptions n i st).
Proof.
  induction n as [|n IH]; intros i st.
  - simpl. f_equal. lia.
  - change (yearsLoop currentYear profile assumptions (S (S n)) i st)
      with (yearsLoop currentYear profile assumptions (S n) (i + 1)%Z (step i st)).
    rewrite IH. simpl yearsLoop at 2. f_equal. lia.
Qed.

Lemma stateAt_succ k :
  stateAtYear (S k) = step (Z.of_nat k) (stateAtYear k).
Proof. unfold stateAt. rewrite yearsLoop_last. reflexivity. Qed.

Lemma stateAt_records_length k :
  length (simYearlyWithdrawals (stateAtYear k)) = k.
Proof.
  induction k as [|k IH]; [reflexivity|].
  rewrite stateAt_succ, yearStep_records, length_app, IH. simpl. lia.
Qed.

(** The record at position [k] is the one year [k] pushed, whatever the
    number of years simulated after it. *)
Lemma stateAt_records_lookup n k :
  (k < n)%nat ->
  simYearlyWithdrawals (stateAtYear n) !! k
  = Some (record (Z.of_nat k) (stateAtYear k)).
Proof.
  induction n as [|n IH]; intros Hk; [lia|].
  rewrite stateAt_succ, yearStep_records.
  destruct (decide (k = n)) as [->|Hne].
  - rewrite lookup_app_r by (rewrite stateAt_records_length; lia).
    rewrite stateAt_records_length, Nat.sub_diag. reflexivity.
  - rewrite lookup_app_l by (rewrite stateAt_records_length; lia).
    apply IH. lia.
Qed.

Lemma calculateWithdrawals_records :
  yearlyWithdrawals
    (calculateWithdrawals currentYear accounts profile assumptions accumulationResult)
  = simYearlyWithdrawals (stateAtYear (tripCount profile)).
Proof. reflexivity. Qed.

(** Every record of the result is the record of a simulated year. *)
Lemma calculateWithdrawals_record_of k rec :
  yearlyWithdrawals
    (calculateWithdrawals currentYear accounts profile assumptions accumulationResult)
    !! k = Some rec ->
  (k < tripCount profile)%nat /\ rec = record (Z.of_nat k) (stateAtYear k).
Proof.
  rewrite calculateWithdrawals_records. intros H.
  assert (Hk : (k < tripCount profile)%nat).
  { apply lookup_lt_Some in H. rewrite stateAt_records_length in H. exact H. }
  split; [exact Hk|].
  rewrite (stateAt_records_lookup _ _ Hk) in H. congruence.
Qed.
End YearLoop.

(** ** The withdrawal order *)

(** C1.  In Scenario A (target spending 24,000) the first simulated year
    withdraws at least 24,000 from the tax-deferred account and exactly 0
    from the tax-free account. *)
Theorem scenarioA_first_year (currentYear : Z) :
  simTargetSpending
    (initSim scenarioA_accounts scenarioA_assumptions scenarioA_accumulation) == 24000 /\
  exists year1 fromRRSP fromTFSA,
    yearlyWithdrawals
      (calculateWithdrawals currentYear scenarioA_accounts scenarioA_profile
         scenarioA_assumptions scenarioA_accumulation) !! 0%nat = Some year1 /\
    withdrawals year1 !! "rrsp" = Some fromRRSP /\
    withdrawals year1 !! "tfsa" = Some fromTFSA /\
    24000 <= fromRRSP /\
    fromTFSA == 0.
Proof.
  split; [reflexivity|].
  eexists _, _, _. split; [|split; [|split]].
  - rewrite calculateWithdrawals_records.
    apply stateAt_records_lookup. vm_compute. lia.
  - vm_compute. reflexivity.
  - vm_compute. reflexivity.
  - split.
    + vm_compute. discriminate.
    + reflexivity.
Qed.

(** ** Realized gains of the taxable step *)




(** ** Degenerate horizons *)

Lemma calculateWithdrawals_record_count currentYear accounts profile assumptions accumulationResult :
  length (yearlyWithdrawals
            (calculateWithdrawals currentYear accounts profile assumptions accumulationResult))
  = tripCount profile.
Proof. rewrite calculateWithdrawals_records. apply stateAt_records_length. Qed.

(** C8, as the code has it.  The year loop runs over the closed interval
    from the retirement age to the life expectancy: a life expectancy below
    the retirement age gives an empty yearly sequence. *)
Theorem negative_horizon_is_empty currentYear accounts profile assumptions accumulationResult :
  (lifeExpectancy profile < retirementAge profile)%Z ->
  yearlyWithdrawals
    (calculateWithdrawals currentYear accounts profile assumptions accumulationResult) = [].
Proof.
  intros Hlt. apply length_zero_iff_nil.
  rewrite calculateWithdrawals_record_count. unfold tripCount. lia.
Qed.

Lemma negative_horizon_is_empty_witness :
  yearlyWithdrawals
    (calculateWithdrawals 2026 [] (mkProfile 60 65 64 (1 # 10) None None None)
       (mkAssumptions 0 (4 # 100) 0) noAccumulation) = [].
Proof.
  apply negative_horizon_is_empty. simpl. lia.
Defined.

(** C8 as stated fails on the zero-year horizon: with the life expectancy
    equal to the retirement age the loop runs once and the yearly sequence
    holds one record. *)
Lemma zero_horizon_has_one_year :
  let profile := mkProfile 60 65 65 (1 # 10) None None None in
  (lifeExpectancy profile <= retirementAge profile)%Z /\
  length (yearlyWithdrawals
            (calculateWithdrawals 2026 [] profile (mkAssumptions 0 (4 # 100) 0)
               noAccumulation)) = 1%nat.
Proof.
  split; [simpl; lia | reflexivity].
Qed.

(** ** Sums over per-account maps *)

Lemma sumValues_insert_fresh (m : gmap string Q) k v :
  m !! k = None -> sumValues (<[k := v]> m) == sumValues m + v.
Proof.
  intros Hk. unfold sumValues.
  apply (map_fold_insert Qeq (fun _ v sum => sum + v) 0 k v m); [| |exact Hk].
  - intros _ z x y Hxy. rewrite Hxy. reflexivity.
  - intros. ring.
Qed.

Lemma sumValues_delete (m : gmap string Q) k x :
  m !! k = Some x -> sumValues m == sumValues (delete k m) + x.
Proof.
  intros Hk. unfold sumValues.
  apply (map_fold_delete Qeq (fun _ v sum => sum + v) 0 k x m); [| |exact Hk].
  - intros _ z a b Hab. rewrite Hab. reflexivity.
  - intros. ring.
Qed.

Lemma sumValues_insert (m : gmap string Q) k v :
  sumValues (<[k := v]> m) == sumValues m - getOr0 m k + v.
Proof.
  unfold getOr0. destruct (m !! k) as [x|] eqn:Hk; simpl.
  - rewrite <- (insert_delete_eq m k v).
    rewrite sumValues_insert_fresh by apply lookup_delete_eq.
    rewrite (sumValues_delete m k x Hk). ring.
  - rewrite sumValues_insert_fresh by exact Hk. ring.
Qed.

Lemma sumValues_addTo (m : gmap string Q) k w :
  sumValues (addTo m k w) == sumValues m + w.
Proof. unfold addTo. rewrite sumValues_insert. ring. Qed.

Lemma getOr0_insert (m : gmap string Q) k v key :
  getOr0 (<[k := v]> m) key = if String.eqb k key then v else getOr0 m key.
Proof.
  unfold getOr0. destruct (String.eqb_spec k key) as [->|Hne].
  - rewrite lookup_insert_eq. reflexivity.
  - rewrite lookup_insert_ne by exact Hne. reflexivity.
Qed.

Lemma getOr0_addTo (m : gmap string Q) k w key :
  getOr0 (addTo m k w) key == getOr0 m key + (if String.eqb k key then w else 0).
Proof.
  unfold addTo. rewrite getOr0_insert.
  destruct (String.eqb_spec k key) as [->|Hne]; ring.
Qed.

Lemma zeroByAccount_from (accs : list AccountState) : forall m : gmap string Q,
  (forall key, getOr0 m key == 0) -> sumValues m == 0 ->
  let m' := fold_left (fun m acc => <[id acc := 0]> m) accs m in
  (forall key, getOr0 m' key == 0) /\ sumValues m' == 0.
Proof.
  induction accs as [|acc rest IH]; intros m Hz Hs; simpl; [split; assumption|].
  apply IH.
  - intros key. rewrite getOr0_insert. destruct (String.eqb (id acc) key); [reflexivity | apply Hz].
  - rewrite sumValues_insert, Hs, Hz. ring.
Qed.

Lemma zeroByAccount_zero accs :
  (forall key, getOr0 (zeroByAccount accs) key == 0) /\ sumValues (zeroByAccount accs) == 0.
Proof.
  apply (zeroByAccount_from accs ∅); [intros key|]; reflexivity.
Qed.

(** ** Reasoning about the loops over the accounts *)

Section ForAccounts.
Context {S : Type}.
Variable sel : AccountState -> bool.
Variable stop : S -> bool.
Variable body : AccountState -> S -> AccountState * S.

(** A preorder on the loop state that every executed body respects holds
    between the state before and after the loop. *)
Lemma forAccounts_state (R : S -> S -> Prop) `{!PreOrder R} :
  (forall acc s, sel acc = true -> stop s = false -> R s (snd (body acc s))) ->
  forall accs s, R s (snd (forAccounts sel stop body accs s)).
Proof.
  intros Hbody accs. induction accs as [|acc rest IH]; intros s; simpl.
  - reflexivity.
  - destruct (sel acc) eqn:Hsel.
    + destruct (stop s) eqn:Hstop; [reflexivity|].
      specialize (Hbody acc s Hsel Hstop).
      destruct (body acc s) as [acc' s']. simpl in Hbody.
      specialize (IH s').
      destruct (forAccounts sel stop body rest s') as [rest' s'']. simpl in *.
      etransitivity; eassumption.
    + specialize (IH s).
      destruct (forAccounts sel stop body rest s) as [rest' s']. exact IH.
Qed.

(** A reflexive relation that every executed body establishes between the
    account before and after holds position by position after the loop. *)
Lemma forAccounts_accounts (R : AccountState -> AccountState -> Prop) `{!Reflexive R} :
  (forall acc s, sel acc = true -> stop s = false -> R acc (fst (body acc s))) ->
  forall accs s, Forall2 R accs (fst (forAccounts sel stop body accs s)).
Proof.
  intros Hbody accs. induction accs as [|acc rest IH]; intros s; simpl.
  - constructor.
  - destruct (sel acc) eqn:Hsel.
    + destruct (stop s) eqn:Hstop.
      { simpl. apply Forall2_same_length_lookup_2; [reflexivity|].
        intros i x y Hx Hy. rewrite Hx in Hy. inversion Hy. reflexivity. }
      specialize (Hbody acc s Hsel Hstop).
      destruct (body acc s) as [acc' s']. simpl in Hbody.
      specialize (IH s').
      destruct (forAccounts sel stop body rest s') as [rest' s'']. simpl in *.
      constructor; assumption.
    + specialize (IH s).
      destruct (forAccounts sel stop body rest s) as [rest' s']. simpl in *.
      constructor; [reflexivity | assumption].
Qed.

(** If every executed body moves money from the account to the map entry
    of its id, what is held under a key plus what the map has under it is
    the same before and after the loop. *)
Lemma forAccounts_conserves (proj : S -> gmap string Q) (key : string) :
  (forall acc s, sel acc = true -> stop s = false ->
     getOr0 (proj (snd (body acc s))) key + balanceHeld key [fst (body acc s)]
     == getOr0 (proj s) key + balanceHeld key [acc]) ->
  forall accs s,
    getOr0 (proj (snd (forAccounts sel stop body accs s))) key
      + balanceHeld key (fst (forAccounts sel stop body accs s))
    == getOr0 (proj s) key + balanceHeld key accs.
Proof.
  intros Hbody accs. induction accs as [|acc rest IH]; intros s; simpl.
  - reflexivity.
  - destruct (sel acc) eqn:Hsel.
    + destruct (stop s) eqn:Hstop; [reflexivity|].
      specialize (Hbody acc s Hsel Hstop).
      destruct (body acc s) as [acc' s']. simpl in Hbody.
      specialize (IH s').
      destruct (forAccounts sel stop body rest s') as [rest' s'']. simpl in *.
      lra.
    + specialize (IH s).
      destruct (forAccounts sel stop body rest s) as [rest' s']. simpl in *.
      lra.
Qed.
End ForAccounts.

(** ** The five withdrawal steps *)

#[local] Instance keepsAges_preorder : PreOrder keepsAges.
Proof.
  split.
  - intros m key a H. exact H.
  - intros m1 m2 m3 H12 H23 key a H. apply H23, H12, H.
Qed.

#[local] Instance ledgerStep_preorder : PreOrder ledgerStep.
Proof.
  split.
  - intros l. split; [tauto | reflexivity].
  - intros l1 l2 l3 [Ht12 Hk12] [Ht23 Hk23]. split; [tauto|].
    etransitivity; eassumption.
Qed.

#[local] Instance shrinks_preorder : PreOrder shrinks.
Proof.
  split.
  - intros acc. unfold shrinks. split; [|split; [|split]]; try reflexivity.
    intros H0. split; lra.
  - intros a1 a2 a3 (Hi & Ht & Ho & Hb) (Hi' & Ht' & Ho' & Hb').
    unfold shrinks. split; [|split; [|split]]; try congruence.
    intros H0. destruct (Hb H0) as [H1 H2]. destruct (Hb' H1) as [H3 H4].
    split; lra.
Qed.

Lemma preorder_on {A B} (f : A -> B) (R : relation B) `{!PreOrder R} :
  PreOrder (fun x y => R (f x) (f y)).
Proof.
  split.
  - intros x. reflexivity.
  - intros x y z Hxy Hyz. etransitivity; eassumption.
Qed.

Lemma keepsAges_markDepleted acc age ages : keepsAges ages (markDepleted acc age ages).
Proof.
  unfold markDepleted. intros key a Hkey.
  destruct (Qleb (balance acc) 0); simpl; [|exact Hkey].
  destruct (ages !! id acc) as [[old|]|] eqn:Hold; simpl; try exact Hkey.
  destruct (decide (id acc = key)) as [<-|Hne]; [congruence|].
  rewrite lookup_insert_ne by exact Hne. exact Hkey.
Qed.

Lemma totalsAgree_creditRRSP r k w : totalsAgree r -> totalsAgree (creditRRSP r k w).
Proof. unfold totalsAgree. simpl. intros H. rewrite sumValues_addTo, H. reflexivity. Qed.

Lemma totalsAgree_creditTaxFree r k w : totalsAgree r -> totalsAgree (creditTaxFree r k w).
Proof. unfold totalsAgree. simpl. intros H. rewrite sumValues_addTo, H. reflexivity. Qed.

Lemma totalsAgree_creditTaxable r k w g : totalsAgree r -> totalsAgree (creditTaxable r k w g).
Proof. unfold totalsAgree. simpl. intros H. rewrite sumValues_addTo, H. reflexivity. Qed.

Create HintDb ledger.

#[local] Hint Resolve keepsAges_markDepleted totalsAgree_creditRRSP
  totalsAgree_creditTaxFree totalsAgree_creditTaxable : ledger.

Lemma rrifBody_ledger age acc s : ledgerStep (snd s) (snd (snd (rrifBody age acc s))).
Proof. destruct s as [rrifRemaining l]. split; simpl; auto with ledger. Qed.

Lemma bracketFillBody_ledger age otherIncome sp acc l :
  ledgerStep l (snd (bracketFillBody age otherIncome sp acc l)).
Proof.
  unfold bracketFillBody.
  destruct (Qltb 0 _); [split; simpl; auto with ledger | reflexivity].
Qed.

Lemma taxFreeBody_ledger age acc l : ledgerStep l (snd (taxFreeBody age acc l)).
Proof. split; simpl; auto with ledger. Qed.

Lemma taxableBody_ledger age acc l : ledgerStep l (snd (taxableBody age acc l)).
Proof. split; simpl; auto with ledger. Qed.

Lemma extraRRSPBody_ledger age acc l : ledgerStep l (snd (extraRRSPBody age acc l)).
Proof. split; simpl; auto with ledger. Qed.

Lemma step1_ledger age rrifMinimum accs l : ledgerStep l (snd (step1 age rrifMinimum accs l)).
Proof.
  unfold step1.
  pose proof (forAccounts_state (fun acc => isPreTax (type acc)) rrifDone (rrifBody age)
                (fun s s' => ledgerStep (snd s) (snd s'))
                (PreOrder0 := preorder_on snd ledgerStep)
                (fun acc s _ _ => rrifBody_ledger age acc s) accs (rrifMinimum, l)) as H.
  destruct (forAccounts _ _ _ _ _) as [accs' [r l']]. exact H.
Qed.

Lemma step2_ledger age otherIncome sp accs l :
  ledgerStep l (snd (step2 age otherIncome sp accs l)).
Proof.
  unfold step2. apply forAccounts_state; [apply _|]. intros. apply bracketFillBody_ledger.
Qed.

Lemma step3_ledger age accs l : ledgerStep l (snd (step3 age accs l)).
Proof. unfold step3. apply forAccounts_state; [apply _|]. intros. apply taxFreeBody_ledger. Qed.

Lemma step4_ledger age accs l : ledgerStep l (snd (step4 age accs l)).
Proof. unfold step4. apply forAccounts_state; [apply _|]. intros. apply taxableBody_ledger. Qed.

Lemma step5_ledger age accs l : ledgerStep l (snd (step5 age accs l)).
Proof.
  unfold step5. destruct (Qltb 0 (remainingNeed l)); [|reflexivity].
  apply forAccounts_state; [apply _|]. intros. apply extraRRSPBody_ledger.
Qed.

(** The decomposition of [performTaxOptimizedWithdrawal] into its steps, as
    a fact about its three results. *)
Lemma performTaxOptimizedWithdrawal_steps accs targetSpending rrifMinimum otherIncome profile ages age :
  let l0 := mkLedger (mkResult 0 0 0 0 0 (zeroByAccount accs))
              (Qmax 0 (targetSpending - otherIncome)) ages in
  let s1 := step1 age rrifMinimum accs l0 in
  let s2 := step2 age otherIncome (hasSpouse profile) (fst s1) (snd s1) in
  let s3 := step3 age (fst s2) (snd s2) in
  let s4 := step4 age (fst s3) (snd s3) in
  let s5 := step5 age (fst s4) (snd s4) in
  performTaxOptimizedWithdrawal accs targetSpending rrifMinimum otherIncome profile ages age
  = (fst s5, result (snd s5), depletionAges (snd s5)).
Proof.
  intros l0 s1 s2 s3 s4 s5. unfold performTaxOptimizedWithdrawal.
  fold l0. fold s1. destruct s1 as [accs1 l1] eqn:E1. simpl in s2.
  fold s2. destruct s2 as [accs2 l2] eqn:E2. simpl in s3.
  fold s3. destruct s3 as [accs3 l3] eqn:E3. simpl in s4.
  fold s4. destruct s4 as [accs4 l4] eqn:E4. simpl in s5.
  fold s5. destruct s5 as [accs5 l5] eqn:E5. reflexivity.
Qed.

(** *** What the steps do to the accounts *)

Lemma needMet_false l : needMet l = false -> 0 < remainingNeed l.
Proof. unfold needMet. apply Qleb_false. Qed.

Lemma rrifDone_false s : rrifDone s = false -> 0 < fst s.
Proof. unfold rrifDone. apply Qleb_false. Qed.

(** Unfolds [shrinks] for an account whose balance alone may have changed. *)
Ltac shrinks_by_balance :=
  unfold shrinks; cbn -[Qmin Qmax];
  split; [reflexivity | split; [reflexivity | split; [reflexivity|]]];
  intros ?; minmax_cases; split; lra.

Lemma rrifBody_shrinks age acc s :
  rrifDone s = false -> shrinks acc (fst (rrifBody age acc s)).
Proof.
  intros Hs. apply rrifDone_false in Hs. destruct s as [rrifRemaining l].
  simpl in Hs. shrinks_by_balance.
Qed.

Lemma bracketFillBody_shrinks age otherIncome sp acc l :
  shrinks acc (fst (bracketFillBody age otherIncome sp acc l)).
Proof.
  unfold bracketFillBody.
  set (withdrawal := Qmin _ (balance acc)).
  assert (Hw : withdrawal <= balance acc).
  { subst withdrawal. minmax_cases; lra. }
  clearbody withdrawal.
  cmp_case 0 withdrawal; [|reflexivity].
  unfold shrinks; cbn.
  split; [reflexivity | split; [reflexivity | split; [reflexivity|]]].
  intros _. split; lra.
Qed.

Lemma taxFreeBody_shrinks age acc l :
  needMet l = false -> shrinks acc (fst (taxFreeBody age acc l)).
Proof. intros Hl. apply needMet_false in Hl. shrinks_by_balance. Qed.

Lemma taxableBody_shrinks age acc l :
  needMet l = false -> shrinks acc (fst (taxableBody age acc l)).
Proof. intros Hl. apply needMet_false in Hl. shrinks_by_balance. Qed.

Lemma extraRRSPBody_shrinks age acc l :
  needMet l = false -> shrinks acc (fst (extraRRSPBody age acc l)).
Proof. intros Hl. apply needMet_false in Hl. shrinks_by_balance. Qed.

Lemma step1_shrinks age rrifMinimum accs l :
  Forall2 shrinks accs (fst (step1 age rrifMinimum accs l)).
Proof.
  unfold step1.
  pose proof (forAccounts_accounts (fun acc => isPreTax (type acc)) rrifDone (rrifBody age)
                shrinks (fun acc s _ Hs => rrifBody_shrinks age acc s Hs)
                accs (rrifMinimum, l)) as H.
  destruct (forAccounts _ _ _ _ _) as [accs' [r l']]. exact H.
Qed.

Lemma step2_shrinks age otherIncome sp accs l :
  Forall2 shrinks accs (fst (step2 age otherIncome sp accs l)).
Proof.
  unfold step2. apply forAccounts_accounts; [apply _|].
  intros. apply bracketFillBody_shrinks.
Qed.

Lemma step3_shrinks age accs l : Forall2 shrinks accs (fst (step3 age accs l)).
Proof.
  unfold step3. apply forAccounts_accounts; [apply _|].
  intros. apply taxFreeBody_shrinks. assumption.
Qed.

Lemma step4_shrinks age accs l : Forall2 shrinks accs (fst (step4 age accs l)).
Proof.
  unfold step4. apply forAccounts_accounts; [apply _|].
  intros. apply taxableBody_shrinks. assumption.
Qed.

Lemma step5_shrinks age accs l : Forall2 shrinks accs (fst (step5 age accs l)).
Proof.
  unfold step5. destruct (Qltb 0 (remainingNeed l)).
  - apply forAccounts_accounts; [apply _|].
    intros. apply extraRRSPBody_shrinks. assumption.
  - simpl. apply Forall2_same_length_lookup_2; [reflexivity|].
    intros i x y Hx Hy. rewrite Hx in Hy. inversion Hy. reflexivity.
Qed.

(** *** Where the money withdrawn is recorded *)

(** Closes the conservation goal of a body that withdrew [w] from [acc]. *)
Ltac conserve_by_addTo :=
  unfold ledgerMap; cbn -[Qmin Qmax getOr0 addTo];
  rewrite getOr0_addTo;
  match goal with |- context [String.eqb ?a ?b] => destruct (String.eqb a b) end;
  ring.

Lemma rrifBody_conserves age acc s key :
  getOr0 (ledgerMap (snd (snd (rrifBody age acc s)))) key
    + balanceHeld key [fst (rrifBody age acc s)]
  == getOr0 (ledgerMap (snd s)) key + balanceHeld key [acc].
Proof. destruct s as [rrifRemaining l]. conserve_by_addTo. Qed.

Lemma bracketFillBody_conserves age otherIncome sp acc l key :
  getOr0 (ledgerMap (snd (bracketFillBody age otherIncome sp acc l))) key
    + balanceHeld key [fst (bracketFillBody age otherIncome sp acc l)]
  == getOr0 (ledgerMap l) key + balanceHeld key [acc].
Proof.
  unfold bracketFillBody. destruct (Qltb 0 _); [conserve_by_addTo | reflexivity].
Qed.

Lemma taxFreeBody_conserves age acc l key :
  getOr0 (ledgerMap (snd (taxFreeBody age acc l))) key
    + balanceHeld key [fst (taxFreeBody age acc l)]
  == getOr0 (ledgerMap l) key + balanceHeld key [acc].
Proof. conserve_by_addTo. Qed.

Lemma taxableBody_conserves age acc l key :
  getOr0 (ledgerMap (snd (taxableBody age acc l))) key
    + balanceHeld key [fst (taxableBody age acc l)]
  == getOr0 (ledgerMap l) key + balanceHeld key [acc].
Proof. conserve_by_addTo. Qed.

Lemma extraRRSPBody_conserves age acc l key :
  getOr0 (ledgerMap (snd (extraRRSPBody age acc l))) key
    + balanceHeld key [fst (extraRRSPBody age acc l)]
  == getOr0 (ledgerMap l) key + balanceHeld key [acc].
Proof. conserve_by_addTo. Qed.

Lemma step1_conserves age rrifMinimum accs l key :
  getOr0 (ledgerMap (snd (step1 age rrifMinimum accs l))) key
    + balanceHeld key (fst (step1 age rrifMinimum accs l))
  == getOr0 (ledgerMap l) key + balanceHeld key accs.
Proof.
  unfold step1.
  pose proof (forAccounts_conserves (fun acc => isPreTax (type acc)) rrifDone (rrifBody age)
                (fun s => ledgerMap (snd s)) key
                (fun acc s _ _ => rrifBody_conserves age acc s key)
                accs (rrifMinimum, l)) as H.
  destruct (forAccounts _ _ _ _ _) as [accs' [r l']]. exact H.
Qed.

Lemma step2_conserves age otherIncome sp accs l key :
  getOr0 (ledgerMap (snd (step2 age otherIncome sp accs l))) key
    + balanceHeld key (fst (step2 age otherIncome sp accs l))
  == getOr0 (ledgerMap l) key + balanceHeld key accs.
Proof.
  unfold step2. apply (forAccounts_conserves _ _ _ ledgerMap).
  intros. apply bracketFillBody_conserves.
Qed.

Lemma step3_conserves age accs l key :
  getOr0 (ledgerMap (snd (step3 age accs l))) key + balanceHeld key (fst (step3 age accs l))
  == getOr0 (ledgerMap l) key + balanceHeld key accs.
Proof.
  unfold step3. apply (forAccounts_conserves _ _ _ ledgerMap).
  intros. apply taxFreeBody_conserves.
Qed.

Lemma step4_conserves age accs l key :
  getOr0 (ledgerMap (snd (step4 age accs l))) key + balanceHeld key (fst (step4 age accs l))
  == getOr0 (ledgerMap l) key + balanceHeld key accs.
Proof.
  unfold step4. apply (forAccounts_conserves _ _ _ ledgerMap).
  intros. apply taxableBody_conserves.
Qed.

Lemma step5_conserves age accs l key :
  getOr0 (ledgerMap (snd (step5 age accs l))) key + balanceHeld key (fst (step5 age accs l))
  == getOr0 (ledgerMap l) key + balanceHeld key accs.
Proof.
  unfold step5. destruct (Qltb 0 (remainingNeed l)); [|reflexivity].
  apply (forAccounts_conserves _ _ _ ledgerMap).
  intros. apply extraRRSPBody_conserves.
Qed.

(** *** The whole of [performTaxOptimizedWithdrawal] *)

Section Withdrawal.
Variable accs : list AccountState.
Variables targetSpending rrifMinimum otherIncome : Q.
Variable profile : Profile.
Variable ages : gmap string (option Z).
Variable age : Z.

Abbreviation outcome :=
  (performTaxOptimizedWithdrawal accs targetSpending rrifMinimum otherIncome profile ages age).

Lemma withdrawal_ledger :
  totalsAgree (snd (fst outcome)) /\ keepsAges ages (snd outcome).
Proof.
  rewrite performTaxOptimizedWithdrawal_steps. cbv zeta. cbn [fst snd].
  set (l0 := mkLedger _ _ ages).
  set (s1 := step1 age rrifMinimum accs l0).
  set (s2 := step2 age otherIncome (hasSpouse profile) (fst s1) (snd s1)).
  set (s3 := step3 age (fst s2) (snd s2)).
  set (s4 := step4 age (fst s3) (snd s3)).
  set (s5 := step5 age (fst s4) (snd s4)).
  assert (H : ledgerStep l0 (snd s5)).
  { transitivity (snd s1); [apply step1_ledger|].
    transitivity (snd s2); [apply step2_ledger|].
    transitivity (snd s3); [apply step3_ledger|].
    transitivity (snd s4); [apply step4_ledger|].
    apply step5_ledger. }
  destruct H as [Ht Hk]. split; [|exact Hk].
  apply Ht. unfold totalsAgree, l0. simpl. apply zeroByAccount_zero.
Qed.

Lemma withdrawal_shrinks : Forall2 shrinks accs (fst (fst outcome)).
Proof.
  rewrite performTaxOptimizedWithdrawal_steps. cbv zeta. cbn [fst snd].
  set (l0 := mkLedger _ _ ages).
  set (s1 := step1 age rrifMinimum accs l0).
  set (s2 := step2 age otherIncome (hasSpouse profile) (fst s1) (snd s1)).
  set (s3 := step3 age (fst s2) (snd s2)).
  set (s4 := step4 age (fst s3) (snd s3)).
  etransitivity; [apply (step1_shrinks age rrifMinimum accs l0)|]. fold s1.
  etransitivity; [apply (step2_shrinks age otherIncome (hasSpouse profile) (fst s1) (snd s1))|].
  fold s2.
  etransitivity; [apply (step3_shrinks age (fst s2) (snd s2))|]. fold s3.
  etransitivity; [apply (step4_shrinks age (fst s3) (snd s3))|]. fold s4.
  apply step5_shrinks.
Qed.

(** What the year withdrew under a key is what left the accounts held
    under that key. *)
Lemma withdrawal_conserves key :
  getOr0 (byAccount (snd (fst outcome))) key + balanceHeld key (fst (fst outcome))
  == balanceHeld key accs.
Proof.
  rewrite performTaxOptimizedWithdrawal_steps. cbv zeta. cbn [fst snd].
  set (l0 := mkLedger _ _ ages).
  set (s1 := step1 age rrifMinimum accs l0).
  set (s2 := step2 age otherIncome (hasSpouse profile) (fst s1) (snd s1)).
  set (s3 := step3 age (fst s2) (snd s2)).
  set (s4 := step4 age (fst s3) (snd s3)).
  set (s5 := step5 age (fst s4) (snd s4)).
  change (byAccount (result (snd s5))) with (ledgerMap (snd s5)).
  assert (H1 := step1_conserves age rrifMinimum accs l0 key). fold s1 in H1.
  assert (H2 := step2_conserves age otherIncome (hasSpouse profile) (fst s1) (snd s1) key).
  fold s2 in H2.
  assert (H3 := step3_conserves age (fst s2) (snd s2) key). fold s3 in H3.
  assert (H4 := step4_conserves age (fst s3) (snd s3) key). fold s4 in H4.
  assert (H5 := step5_conserves age (fst s4) (snd s4) key). fold s5 in H5.
  assert (H0 : getOr0 (ledgerMap l0) key == 0)
    by apply (proj1 (zeroByAccount_zero accs) key).
  lra.
Qed.
End Withdrawal.

(** ** One simulated year *)

(** What a year records and leaves, in terms of the one call of
    [performTaxOptimizedWithdrawal] it makes. *)
Lemma simulateYear_inv currentYear profile assumptions i st :
  exists rrifMinimum otherIncome,
    let out :=
      performTaxOptimizedWithdrawal (accountStates st) (simTargetSpending st)
        rrifMinimum otherIncome profile (simAccountDepletionAges st)
        (retirementAge profile + i)%Z in
    let rec := yearRecord currentYear profile assumptions i st in
    let st' := yearStep currentYear profile assumptions i st in
    withdrawals rec = byAccount (snd (fst out)) /\
    totalWithdrawal rec = total (snd (fst out)) /\
    cppOasIncome rec = otherIncome /\
    grossIncome rec = total (snd (fst out)) + otherIncome /\
    remainingBalances rec = recordBalances (accountStates st') /\
    accountStates st' = map (applyReturn assumptions) (fst (fst out)) /\
    simAccountDepletionAges st' = snd out /\
    simPortfolioDepletionAge st' =
      match simPortfolioDepletionAge st with
      | None => if Qleb (sumBalances (accountStates st)) 0
                then Some (retirementAge profile + i)%Z else None
      | Some a => Some a
      end.
Proof.
  unfold yearRecord, yearStep, simulateYear. cbv zeta.
  match goal with
  | |- context [performTaxOptimizedWithdrawal _ _ ?r ?o _ _ _] => exists r, o
  end.
  destruct (performTaxOptimizedWithdrawal _ _ _ _ _ _ _) as [[accs w] d].
  cbn [fst snd withdrawals totalWithdrawal cppOasIncome grossIncome remainingBalances
       accountStates simAccountDepletionAges simPortfolioDepletionAge].
  repeat split; reflexivity.
Qed.

(** ** Conservation of the withdrawal totals *)

(** C4.  In every record of the result the per-account withdrawals add up
    to the record's total withdrawal, and the total withdrawal plus the
    CPP/OAS income is the record's gross income. *)
Theorem withdrawal_totals_conserved currentYear accounts profile assumptions accumulationResult :
  forall rec,
    rec ∈ yearlyWithdrawals
            (calculateWithdrawals currentYear accounts profile assumptions accumulationResult) ->
    sumValues (withdrawals rec) == totalWithdrawal rec /\
    totalWithdrawal rec + cppOasIncome rec == grossIncome rec.
Proof.
  intros rec Hin. apply list_elem_of_lookup in Hin as [k Hk].
  apply calculateWithdrawals_record_of in Hk as [_ ->].
  destruct (simulateYear_inv currentYear profile assumptions (Z.of_nat k)
              (stateAt currentYear accounts profile assumptions accumulationResult k))
    as (rrifMinimum & otherIncome & Hw & Ht & Hc & Hg & _).
  rewrite Hw, Ht, Hc, Hg. split; [|reflexivity].
  apply withdrawal_ledger.
Qed.

Lemma withdrawal_totals_conserved_witness :
  let rec :=
    yearRecord 2026 scenarioA_profile scenarioA_assumptions 0
      (initSim scenarioA_accounts scenarioA_assumptions scenarioA_accumulation) in
  sumValues (withdrawals rec) == totalWithdrawal rec /\
  totalWithdrawal rec + cppOasIncome rec == grossIncome rec.
Proof.
  apply (withdrawal_totals_conserved 2026 scenarioA_accounts scenarioA_profile
           scenarioA_assumptions scenarioA_accumulation).
  apply list_elem_of_lookup. exists 0%nat.
  rewrite calculateWithdrawals_records.
  apply (stateAt_records_lookup 2026 scenarioA_accounts scenarioA_profile
           scenarioA_assumptions scenarioA_accumulation (tripCount scenarioA_profile) 0).
  vm_compute. lia.
Defined.

(** ** Depletion ages *)

Section Depletion.
Variable currentYear : Z.
Variable accounts : list Account.
Variable profile : Profile.
Variable assumptions : Assumptions.
Variable accumulationResult : AccumulationResult.

Abbreviation stateAtYear := (stateAt currentYear accounts profile assumptions accumulationResult).
Abbreviation step := (yearStep currentYear profile assumptions).

#[local] Instance keepsDepletion_preorder : PreOrder keepsDepletion.
Proof.
  split.
  - intros st. split; [reflexivity | auto].
  - intros s1 s2 s3 [Ha Hp] [Ha' Hp']. split; [etransitivity; eassumption | auto].
Qed.

Lemma yearStep_keeps i st : keepsDepletion st (step i st).
Proof.
  destruct (simulateYear_inv currentYear profile assumptions i st)
    as (rrifMinimum & otherIncome & _ & _ & _ & _ & _ & _ & Hages & Hport).
  split.
  - rewrite Hages. apply withdrawal_ledger.
  - intros a Ha. rewrite Hport, Ha. reflexivity.
Qed.

Lemma stateAt_keeps k m : (k <= m)%nat -> keepsDepletion (stateAtYear k) (stateAtYear m).
Proof.
  induction 1 as [|m Hle IH]; [reflexivity|].
  etransitivity; [exact IH|]. rewrite stateAt_succ. apply yearStep_keeps.
Qed.

Lemma empty_portfolio_depleted_at_start :
  (0 < tripCount profile)%nat ->
  sumBalances (accountStates (stateAtYear 0)) <= 0 ->
  simPortfolioDepletionAge (stateAtYear (tripCount profile)) = Some (retirementAge profile).
Proof.
  intros Htrips Hzero.
  apply (stateAt_keeps 1 (tripCount profile)); [lia|].
  rewrite stateAt_succ.
  destruct (simulateYear_inv currentYear profile assumptions (Z.of_nat 0) (stateAtYear 0))
    as (rrifMinimum & otherIncome & _ & _ & _ & _ & _ & _ & _ & Hport).
  rewrite Hport. change (simPortfolioDepletionAge (stateAtYear 0)) with (@None Z).
  apply Qleb_true in Hzero. rewrite Hzero. f_equal. simpl. lia.
Qed.
End Depletion.

(** C9, as the code has it.  A depletion age, of an account or of the
    portfolio, that is set when some simulated year starts is still set to
    the same age when any later year starts and in the result; and if the
    initial balances add up to zero and the life expectancy is not below the
    retirement age (so that at least one year is simulated), the portfolio
    depletion age of the result is the retirement age. *)
Theorem depletion_ages_are_final currentYear accounts profile assumptions accumulationResult :
  let stateAtYear := stateAt currentYear accounts profile assumptions accumulationResult in
  let res := calculateWithdrawals currentYear accounts profile assumptions accumulationResult in
  (forall k m key a, (k <= m)%nat ->
     simAccountDepletionAges (stateAtYear k) !! key = Some (Some a) ->
     simAccountDepletionAges (stateAtYear m) !! key = Some (Some a)) /\
  (forall k m a, (k <= m)%nat ->
     simPortfolioDepletionAge (stateAtYear k) = Some a ->
     simPortfolioDepletionAge (stateAtYear m) = Some a) /\
  accountDepletionAges res = simAccountDepletionAges (stateAtYear (tripCount profile)) /\
  portfolioDepletionAge res = simPortfolioDepletionAge (stateAtYear (tripCount profile)) /\
  ((retirementAge profile <= lifeExpectancy profile)%Z ->
   sumBalances (map (initAccountState accumulationResult) accounts) == 0 ->
   portfolioDepletionAge res = Some (retirementAge profile)).
Proof.
  intros stateAtYear res.
  split; [|split; [|split; [|split]]].
  - intros k m key a Hle. apply (stateAt_keeps _ _ _ _ _ k m Hle).
  - intros k m a Hle. apply (stateAt_keeps _ _ _ _ _ k m Hle).
  - reflexivity.
  - reflexivity.
  - intros Hlife Hzero.
    apply (empty_portfolio_depleted_at_start currentYear accounts profile assumptions
             accumulationResult).
    + unfold tripCount. lia.
    + change (sumBalances (map (initAccountState accumulationResult) accounts) <= 0).
      rewrite Hzero. lra.
Qed.

Lemma depletion_ages_are_final_witness :
  simAccountDepletionAges
    (stateAt 2026 spendItAll_accounts spendItAll_profile spendItAll_assumptions
       spendItAll_accumulation 2) !! "rrsp" = Some (Some 65%Z) /\
  portfolioDepletionAge
    (calculateWithdrawals 2026 scenarioA_accounts scenarioA_profile scenarioA_assumptions
       noAccumulation) = Some 65%Z.
Proof.
  split.
  - apply (proj1 (depletion_ages_are_final 2026 spendItAll_accounts spendItAll_profile
                    spendItAll_assumptions spendItAll_accumulation) 1%nat 2%nat);
      [lia | vm_compute; reflexivity].
  - apply (proj2 (proj2 (proj2 (proj2
             (depletion_ages_are_final 2026 scenarioA_accounts scenarioA_profile
                scenarioA_assumptions noAccumulation)))));
      [simpl; lia | reflexivity].
Defined.

(** C9 as stated fails when no year is simulated: with a life expectancy
    below the retirement age and balances that add up to zero, the portfolio
    depletion age of the result is not set. *)
Lemma empty_portfolio_not_depleted_without_years :
  let profile := mkProfile 60 65 64 (1 # 10) None None None in
  sumBalances (map (initAccountState noAccumulation) scenarioA_accounts) == 0 /\
  portfolioDepletionAge
    (calculateWithdrawals 2026 scenarioA_accounts profile scenarioA_assumptions
       noAccumulation) = None /\
  portfolioDepletionAge
    (calculateWithdrawals 2026 scenarioA_accounts profile scenarioA_assumptions
       noAccumulation) <> Some (retirementAge profile).
Proof.
  split; [reflexivity|]. split; [reflexivity | discriminate].
Qed.

(** ** Balances stay non-negative *)

Lemma shrinks_nonNegative accs accs' :
  Forall2 shrinks accs accs' -> Forall nonNegative accs -> Forall nonNegative accs'.
Proof.
  induction 1 as [|a a' l l' Ha _ IH]; intros Hall; [constructor|].
  inversion Hall as [|? ? H0 Hrest]; subst.
  constructor; [|apply IH, Hrest].
  destruct Ha as (_ & _ & _ & Hb). apply Hb, H0.
Qed.

Lemma shrinks_ids accs accs' :
  Forall2 shrinks accs accs' -> map id accs' = map id accs.
Proof.
  induction 1 as [|a a' l l' Ha _ IH]; [reflexivity|].
  simpl. rewrite IH. f_equal. apply Ha.
Qed.

Lemma balanceHeld_nonneg key accs : Forall nonNegative accs -> 0 <= balanceHeld key accs.
Proof.
  induction 1 as [|a l Ha _ IH]; simpl; [lra|].
  unfold nonNegative in Ha. destruct (String.eqb (id a) key); lra.
Qed.

Lemma balanceHeld_shrinks key accs accs' :
  Forall2 shrinks accs accs' -> Forall nonNegative accs ->
  balanceHeld key accs' <= balanceHeld key accs.
Proof.
  induction 1 as [|a a' l l' Ha _ IH]; intros Hall; simpl; [lra|].
  inversion Hall as [|? ? H0 Hrest]; subst.
  specialize (IH Hrest). destruct Ha as (Hid & _ & _ & Hb).
  destruct (Hb H0) as [_ Hle]. rewrite Hid.
  destruct (String.eqb (id a) key); lra.
Qed.

Lemma balanceHeld_unique accs : NoDup (map id accs) ->
  forall acc, acc ∈ accs -> balanceHeld (id acc) accs == balance acc.
Proof.
  induction accs as [|a l IH]; intros Hnd acc Hin; [inversion Hin|].
  simpl in Hnd. apply NoDup_cons in Hnd as [Hfresh Hnd].
  assert (Hother : forall b, b ∈ l -> id b <> id a).
  { intros b Hb Heq. apply Hfresh. rewrite <- Heq. apply list_elem_of_fmap_2, Hb. }
  apply elem_of_cons in Hin as [->|Hin]; simpl.
  - rewrite String.eqb_refl.
    assert (Hz : balanceHeld (id a) l == 0).
    { clear IH Hnd Hfresh. induction l as [|b l IHl]; simpl; [reflexivity|].
      destruct (String.eqb_spec (id b) (id a)) as [Heq|_].
      - exfalso. apply (Hother b); [left | exact Heq].
      - rewrite IHl; [ring|]. intros c Hc. apply Hother. right. exact Hc. }
    rewrite Hz. ring.
  - destruct (String.eqb_spec (id a) (id acc)) as [Heq|_].
    + exfalso. apply (Hother acc Hin). symmetry. exact Heq.
    + rewrite (IH Hnd acc Hin). ring.
Qed.

Lemma applyReturn_nonNegative assumptions accs :
  -1 <= retirementReturnRate assumptions ->
  Forall nonNegative accs -> Forall nonNegative (map (applyReturn assumptions) accs).
Proof.
  intros Hr Hall. apply List.Forall_map.
  eapply List.Forall_impl; [|exact Hall].
  intros a Ha. unfold nonNegative in *. simpl. nra.
Qed.

Lemma applyReturn_ids assumptions accs :
  map id (map (applyReturn assumptions) accs) = map id accs.
Proof. rewrite <- list_fmap_compose. reflexivity. Qed.

(** Every recorded balance is the balance of one of the accounts. *)
Lemma recordBalances_values accs : forall (m : gmap string Q) key v,
  fold_left (fun m acc => <[id acc := balance acc]> m) accs m !! key = Some v ->
  m !! key = Some v \/ exists acc, acc ∈ accs /\ balance acc = v.
Proof.
  induction accs as [|a l IH]; intros m key v H; simpl in H; [left; exact H|].
  apply IH in H as [H|(acc & Hin & Hv)].
  - destruct (decide (id a = key)) as [<-|Hne].
    + rewrite lookup_insert_eq in H. inversion H. right. exists a. split; [left | reflexivity].
    + rewrite lookup_insert_ne in H by exact Hne. left. exact H.
  - right. exists acc. split; [right; exact Hin | exact Hv].
Qed.

Lemma initial_nonNegative accumulationResult accounts :
  (forall account, account ∈ accounts ->
     0 <= getOr0 (finalBalances accumulationResult) (account_id account)) ->
  Forall nonNegative (map (initAccountState accumulationResult) accounts).
Proof.
  intros Hinit. apply List.Forall_map, List.Forall_forall. intros a Ha.
  apply list_elem_of_In in Ha. exact (Hinit a Ha).
Qed.

Lemma initial_ids accumulationResult accounts :
  map id (map (initAccountState accumulationResult) accounts) = map account_id accounts.
Proof. rewrite <- list_fmap_compose. reflexivity. Qed.

Section NonNegative.
Variable currentYear : Z.
Variable accounts : list Account.
Variable profile : Profile.
Variable assumptions : Assumptions.
Variable accumulationResult : AccumulationResult.

Hypothesis initial_balances :
  forall account, account ∈ accounts ->
    0 <= getOr0 (finalBalances accumulationResult) (account_id account).
Hypothesis return_rate : -1 <= retirementReturnRate assumptions.

Abbreviation stateAtYear := (stateAt currentYear accounts profile assumptions accumulationResult).
Abbreviation step := (yearStep currentYear profile assumptions).

Lemma yearStep_accounts i st :
  Forall nonNegative (accountStates st) ->
  Forall nonNegative (accountStates (step i st)) /\
  map id (accountStates (step i st)) = map id (accountStates st).
Proof.
  intros Hst.
  destruct (simulateYear_inv currentYear profile assumptions i st)
    as (rrifMinimum & otherIncome & _ & _ & _ & _ & _ & Haccs & _).
  rewrite Haccs.
  pose proof (withdrawal_shrinks (accountStates st) (simTargetSpending st) rrifMinimum
                otherIncome profile (simAccountDepletionAges st)
                (retirementAge profile + i)%Z) as Hshr.
  split.
  - apply applyReturn_nonNegative; [exact return_rate|].
    eapply shrinks_nonNegative; eassumption.
  - rewrite applyReturn_ids. apply shrinks_ids, Hshr.
Qed.

Lemma stateAt_accounts k :
  Forall nonNegative (accountStates (stateAtYear k)) /\
  map id (accountStates (stateAtYear k)) = map account_id accounts.
Proof.
  induction k as [|k [IHn IHi]].
  - split; [apply initial_nonNegative, initial_balances | apply initial_ids].
  - rewrite stateAt_succ.
    destruct (yearStep_accounts (Z.of_nat k) (stateAtYear k) IHn) as [Hn Hi].
    split; [exact Hn | congruence].
Qed.

(** What year [k] records, against the accounts it started from. *)
Lemma year_record_bounds k :
  let start := accountStates (stateAtYear k) in
  let rec := yearRecord currentYear profile assumptions (Z.of_nat k) (stateAtYear k) in
  (forall key v, remainingBalances rec !! key = Some v -> 0 <= v) /\
  (forall key, 0 <= getOr0 (withdrawals rec) key /\
               getOr0 (withdrawals rec) key <= balanceHeld key start).
Proof.
  intros start rec.
  destruct (stateAt_accounts k) as [Hstart _].
  destruct (stateAt_accounts (S k)) as [Hend _]. rewrite stateAt_succ in Hend.
  destruct (simulateYear_inv currentYear profile assumptions (Z.of_nat k) (stateAtYear k))
    as (rrifMinimum & otherIncome & Hw & _ & _ & _ & Hrem & _).
  split.
  - intros key v Hv. fold rec in Hrem. rewrite Hrem in Hv.
    apply recordBalances_values in Hv as [Hv|(acc & Hin & <-)].
    + rewrite lookup_empty in Hv. discriminate.
    + rewrite List.Forall_forall in Hend. apply Hend, list_elem_of_In, Hin.
  - intros key. fold rec in Hw. rewrite Hw.
    set (out := performTaxOptimizedWithdrawal _ _ _ _ _ _ _).
    pose proof (withdrawal_conserves (accountStates (stateAtYear k))
                  (simTargetSpending (stateAtYear k)) rrifMinimum otherIncome profile
                  (simAccountDepletionAges (stateAtYear k))
                  (retirementAge profile + Z.of_nat k)%Z key) as Hcons.
    pose proof (withdrawal_shrinks (accountStates (stateAtYear k))
                  (simTargetSpending (stateAtYear k)) rrifMinimum otherIncome profile
                  (simAccountDepletionAges (stateAtYear k))
                  (retirementAge profile + Z.of_nat k)%Z) as Hshr.
    fold out in Hcons, Hshr.
    assert (Hleft : 0 <= balanceHeld key (fst (fst out))).
    { apply balanceHeld_nonneg. eapply shrinks_nonNegative; eassumption. }
    assert (Hless : balanceHeld key (fst (fst out)) <= balanceHeld key start).
    { apply balanceHeld_shrinks; assumption. }
    fold start in Hcons. split; lra.
Qed.
End NonNegative.

(** C3.  If no account's initial balance is negative and the retirement
    return rate is at least -1, then in every simulated year: no balance the
    year records is negative; no account starts the year with a negative
    balance; what the year records as withdrawn under an account id is not
    negative and is at most the balance held under that id when the year
    started; and, with ids that are unique, what is withdrawn from an
    account is at most that account's balance when the year started. *)
Theorem balances_never_negative currentYear accounts profile assumptions accumulationResult
    (initial_balances :
       forall account, account ∈ accounts ->
         0 <= getOr0 (finalBalances accumulationResult) (account_id account))
    (return_rate : -1 <= retirementReturnRate assumptions) :
  forall k rec,
    yearlyWithdrawals
      (calculateWithdrawals currentYear accounts profile assumptions accumulationResult)
      !! k = Some rec ->
    let start :=
      accountStates (stateAt currentYear accounts profile assumptions accumulationResult k) in
    (forall key v, remainingBalances rec !! key = Some v -> 0 <= v) /\
    (forall acc, acc ∈ start -> 0 <= balance acc) /\
    (forall key w, withdrawals rec !! key = Some w ->
       0 <= w /\ w <= balanceHeld key start) /\
    (NoDup (map account_id accounts) ->
     forall acc w, acc ∈ start -> withdrawals rec !! id acc = Some w -> w <= balance acc).
Proof.
  intros k rec Hrec start.
  apply calculateWithdrawals_record_of in Hrec as [_ ->].
  destruct (year_record_bounds currentYear accounts profile assumptions accumulationResult
              initial_balances return_rate k) as [Hrem Hwd].
  destruct (stateAt_accounts currentYear accounts profile assumptions accumulationResult
              initial_balances return_rate k) as [Hnn Hids].
  fold start in Hwd, Hnn, Hids.
  assert (Hkey : forall key w,
             withdrawals (yearRecord currentYear profile assumptions (Z.of_nat k)
                            (stateAt currentYear accounts profile assumptions
                               accumulationResult k)) !! key = Some w ->
             0 <= w /\ w <= balanceHeld key start).
  { intros key w Hw. specialize (Hwd key). unfold getOr0 in Hwd.
    rewrite Hw in Hwd. exact Hwd. }
  split; [exact Hrem|]. split; [|split; [exact Hkey|]].
  - intros acc Hin. rewrite List.Forall_forall in Hnn. apply Hnn, list_elem_of_In, Hin.
  - intros Hnd acc w Hin Hw.
    destruct (Hkey _ _ Hw) as [_ Hle].
    rewrite balanceHeld_unique in Hle; [exact Hle | | exact Hin].
    rewrite Hids. exact Hnd.
Qed.

Lemma balances_never_negative_witness :
  let rec :=
    yearRecord 2026 scenarioA_profile scenarioA_assumptions 0
      (initSim scenarioA_accounts scenarioA_assumptions scenarioA_accumulation) in
  exists left withdrawn,
    remainingBalances rec !! "rrsp" = Some left /\
    withdrawals rec !! "rrsp" = Some withdrawn /\
    0 <= left /\ 0 <= withdrawn /\ withdrawn <= 500000.
Proof.
  intros rec.
  assert (Hinit : forall account, account ∈ scenarioA_accounts ->
             0 <= getOr0 (finalBalances scenarioA_accumulation) (account_id account)).
  { intros account Hin. unfold scenarioA_accounts in Hin.
    apply elem_of_cons in Hin as [->|Hin]; [vm_compute; discriminate|].
    apply elem_of_cons in Hin as [->|Hin]; [vm_compute; discriminate|].
    inversion Hin. }
  assert (Hrate : -1 <= retirementReturnRate scenarioA_assumptions)
    by (vm_compute; discriminate).
  assert (Hrec : yearlyWithdrawals
                   (calculateWithdrawals 2026 scenarioA_accounts scenarioA_profile
                      scenarioA_assumptions scenarioA_accumulation) !! 0%nat = Some rec).
  { rewrite calculateWithdrawals_records.
    apply (stateAt_records_lookup 2026 scenarioA_accounts scenarioA_profile
             scenarioA_assumptions scenarioA_accumulation (tripCount scenarioA_profile) 0).
    vm_compute. lia. }
  destruct (balances_never_negative 2026 scenarioA_accounts scenarioA_profile
              scenarioA_assumptions scenarioA_accumulation Hinit Hrate 0%nat rec Hrec)
    as (Hrem & _ & Hw & Huniq).
  eexists _, _.
  split; [vm_compute; reflexivity|]. split; [vm_compute; reflexivity|].
  split; [apply (Hrem "rrsp"); vm_compute; reflexivity|].
  split; [apply (Hw "rrsp"); vm_compute; reflexivity|].
  assert (Hnd : NoDup (map account_id scenarioA_accounts))
    by (apply (bool_decide_unpack _); vm_compute; exact I).
  apply (Huniq Hnd (mkState "rrsp" rrsp owner_primary 500000 0)).
  - vm_compute. left.
  - vm_compute. reflexivity.
Defined.


(** * Further properties of the tax engine *)

(** Like [minmax_cases], but drops at once the cases that contradict the
    context. *)
Ltac minmax_prune :=
  repeat match goal with
  | |- context [Qmin ?a ?b] =>
      let m := fresh "m" in
      let Hm := fresh "Hm" in
      pose proof (Qmin_cases a b) as Hm;
      set (m := Qmin a b) in *; clearbody m;
      destruct Hm as [[? ?]|[? ?]]; try lra
  | |- context [Qmax ?a ?b] =>
      let m := fresh "m" in
      let Hm := fresh "Hm" in
      pose proof (Qmax_cases a b) as Hm;
      set (m := Qmax a b) in *; clearbody m;
      destruct Hm as [[? ?]|[? ?]]; try lra
  end.

Lemma portion_nonneg y b : 0 <= portion y b.
Proof. unfold portion. minmax_cases; lra. Qed.

Lemma portion_mono y1 y2 b : y1 <= y2 -> portion y1 b <= portion y2 b.
Proof. intros Hy. unfold portion. destruct (bmax b); minmax_cases; lra. Qed.

(** Below a contiguous table no bracket holds any of the income. *)
Lemma taxByPortions_below brackets : forall from y,
  contiguous from brackets -> y <= from -> taxByPortions y brackets == 0.
Proof.
  induction brackets as [|b rest IH]; intros from y Hc Hy; simpl; [reflexivity|].
  destruct Hc as [Hmin Hrest].
  assert (Hp : portion y b == 0).
  { unfold portion. destruct (bmax b); minmax_cases; lra. }
  rewrite Hp. destruct (bmax b) as [m|].
  - destruct Hrest as [Hlt Hrest]. rewrite (IH m y Hrest) by lra. ring.
  - subst rest. simpl. ring.
Qed.

(** The walk of [calculateBracketTax], started anywhere in a contiguous
    table with what is left of the income, adds every remaining bracket's
    rate on its part of the income. *)
Lemma bracketWalk_portions brackets : forall tax rem from y,
  contiguous from brackets -> rem == Qmax 0 (y - from) ->
  bracketWalk brackets tax rem from == tax + taxByPortions y brackets.
Proof.
  induction brackets as [|b rest IH]; intros tax rem from y Hc Hrem;
    [simpl; ring|].
  destruct Hc as [Hmin Hrest].
  cbn [bracketWalk taxByPortions]. unfold portion.
  destruct (bmax b) as [m|] eqn:Hm.
  - destruct Hrest as [Hlt Hrest].
    cmp_case (Qmin rem (m - from)) 0.
    + assert (Hy : y <= from) by (revert E Hrem; minmax_cases; lra).
      rewrite (taxByPortions_below rest m y Hrest) by lra.
      assert (Hp : Qmax 0 (Qmin y m - bmin b) == 0) by (minmax_cases; lra).
      rewrite Hp. ring.
    + assert (Hp : Qmax 0 (Qmin y m - bmin b) == Qmin rem (m - from))
        by (revert E Hrem; minmax_cases; lra).
      rewrite (IH _ (rem - Qmin rem (m - from)) m y Hrest).
      * rewrite Hp. ring.
      * revert E Hrem. minmax_cases; lra.
  - subst rest. cbn [taxByPortions].
    assert (Hp : Qmax 0 (y - bmin b) == rem) by (rewrite Hrem; minmax_cases; lra).
    rewrite Hp. cmp_case rem 0.
    + assert (H0 : rem == 0) by (revert Hrem; minmax_cases; lra).
      rewrite H0. ring.
    + ring.
Qed.

Lemma calculateBracketTax_portions y brackets :
  contiguous 0 brackets -> calculateBracketTax y brackets == taxByPortions y brackets.
Proof.
  intros Hc. unfold calculateBracketTax. cmp_case y 0.
  - symmetry. apply (taxByPortions_below brackets 0 y Hc E).
  - rewrite (bracketWalk_portions brackets 0 y 0 y Hc).
    + ring.
    + minmax_cases; lra.
Qed.

Lemma federal_contiguous : contiguous 0 TAX_BRACKETS_FEDERAL.
Proof. simpl. repeat split; reflexivity. Qed.

Lemma provincial_contiguous : contiguous 0 TAX_BRACKETS_PROVINCIAL.
Proof. simpl. repeat split; reflexivity. Qed.

(** The basic tax of the code is the basic regional tax of the
    specification: the bracket walk is the bracket sum. *)
Lemma basicProvincialTax_spec income :
  basicProvincialTax income == basicRegionalTax income.
Proof.
  unfold basicProvincialTax, basicRegionalTax. cbv zeta.
  pose proof (calculateBracketTax_portions income _ provincial_contiguous) as Ewalk.
  assert (Ecredit : provincialBPA * firstRate TAX_BRACKETS_PROVINCIAL == regionalCredit)
    by reflexivity.
  set (walk := calculateBracketTax income TAX_BRACKETS_PROVINCIAL) in *.
  set (sum := taxByPortions income TAX_BRACKETS_PROVINCIAL) in *.
  set (credit := provincialBPA * firstRate TAX_BRACKETS_PROVINCIAL) in *.
  clearbody walk sum credit. minmax_cases; lra.
Qed.

(** C7.  When the combined taxable income is positive, the regional tax is
    the basic tax [B], which is the bracket sum of the regional table less
    the regional exemption credit, floored at 0, plus the first surtax rate
    times [max(0, B - first threshold)], plus the second surtax rate times
    [max(0, B - second threshold)], both on the same [B], plus a premium
    from five bands of increasing income and increasing amount that never
    exceeds the last band's amount. *)
Theorem regional_tax_layers :
  (forall ordinaryIncome capitalGains flatRate,
     0 < ordinaryIncome + capitalGains * CAPITAL_GAINS_INCLUSION_RATE_BASE ->
     calculateProvincialTax ordinaryIncome capitalGains flatRate
       == regionalTaxSpec ordinaryIncome capitalGains) /\
  (forall income,
     basicProvincialTax income == basicRegionalTax income /\
     0 <= basicRegionalTax income) /\
  ONTARIO_SURTAX_1_THRESHOLD < ONTARIO_SURTAX_2_THRESHOLD /\
  length premiumBands = 5%nat /\
  (forall i b1 b2, premiumBands !! i = Some b1 -> premiumBands !! S i = Some b2 ->
     fst b1 < fst b2 /\ snd b1 < snd b2) /\
  (forall income, bandPremium income <= 900).
Proof.
  split; [|split; [|split; [|split; [|split]]]].
  - intros y g r Hpos. unfold calculateProvincialTax, regionalTaxSpec. cbv zeta.
    cmp_case (y + g * CAPITAL_GAINS_INCLUSION_RATE_BASE) 0; [lra|].
    rewrite ontarioSurtax_spec, healthPremium_bands.
    pose proof (basicProvincialTax_spec (y + g * CAPITAL_GAINS_INCLUSION_RATE_BASE)) as EB.
    unfold ONTARIO_SURTAX_1_RATE, ONTARIO_SURTAX_2_RATE, ONTARIO_SURTAX_1_THRESHOLD,
      ONTARIO_SURTAX_2_THRESHOLD.
    set (B := basicProvincialTax _) in *. set (B' := basicRegionalTax _) in *.
    set (premium := bandPremium _). clearbody B B' premium.
    minmax_cases; lra.
  - intros income. split; [apply basicProvincialTax_spec|].
    unfold basicRegionalTax. minmax_cases; lra.
  - reflexivity.
  - reflexivity.
  - intros i b1 b2 H1 H2.
    do 5 (destruct i as [|i]; [simpl in H1, H2; inversion H1; inversion H2;
                               subst; split; reflexivity|]).
    discriminate H1.
  - intros income. rewrite <- healthPremium_bands. unfold healthPremium.
    repeat match goal with |- context [Qltb ?a ?b] => destruct (Qltb a b) end;
      discriminate.
Qed.

Lemma regional_tax_layers_witness :
  calculateProvincialTax 90000 20000 (1 # 10) == regionalTaxSpec 90000 20000.
Proof.
  apply (proj1 regional_tax_layers). reflexivity.
Defined.

(** In a contiguous table that ends unbounded the parts of an income add up
    to what of the income lies above the start of the table. *)
Lemma portions_partition brackets : forall from y,
  contiguous from brackets -> unbounded brackets ->
  fold_right (fun b s => portion y b + s) 0 brackets == Qmax 0 (y - from).
Proof.
  induction brackets as [|b rest IH]; intros from y Hc Hu; [destruct Hu|].
  destruct Hc as [Hmin Hrest]. cbn [fold_right]. unfold portion at 1.
  destruct (bmax b) as [m|] eqn:Hm.
  - destruct Hrest as [Hlt Hrest].
    assert (Hu' : unbounded rest).
    { destruct rest as [|b' rest']; [simpl in Hu; congruence | exact Hu]. }
    rewrite (IH m y Hrest Hu'). minmax_cases; lra.
  - subst rest. simpl. minmax_cases; lra.
Qed.

(** Between two incomes the tax by portions moves by at least the lowest
    and at most the highest rate on what the parts of the income move by. *)
Lemma taxByPortions_between lo hi brackets y1 y2 :
  ratesWithin lo hi brackets -> y1 <= y2 ->
  let parts y := fold_right (fun b s => portion y b + s) 0 brackets in
  lo * (parts y2 - parts y1) <= taxByPortions y2 brackets - taxByPortions y1 brackets /\
  taxByPortions y2 brackets - taxByPortions y1 brackets <= hi * (parts y2 - parts y1).
Proof.
  intros Hr Hy. induction Hr as [|b rest [Hlo Hhi] _ IH]; simpl; [lra|].
  simpl in IH. destruct IH as [IH1 IH2].
  pose proof (portion_mono y1 y2 b Hy) as Hp.
  set (p1 := portion y1 b) in *. set (p2 := portion y2 b) in *.
  set (t1 := taxByPortions y1 rest) in *. set (t2 := taxByPortions y2 rest) in *.
  set (s1 := fold_right _ 0 rest) in *. set (s2 := fold_right _ 0 rest) in *.
  clearbody p1 p2 t1 t2 s1 s2.
  assert (Hd : 0 <= p2 - p1) by lra.
  assert (H1 : lo * (p2 - p1) <= rate b * (p2 - p1))
    by (apply Qmult_le_compat_r; assumption).
  assert (H2 : rate b * (p2 - p1) <= hi * (p2 - p1))
    by (apply Qmult_le_compat_r; assumption).
  split; lra.
Qed.

Lemma federal_rates : ratesWithin (15 # 100) (33 # 100) TAX_BRACKETS_FEDERAL.
Proof. unfold ratesWithin, TAX_BRACKETS_FEDERAL. repeat constructor; discriminate. Qed.

Lemma provincial_rates : ratesWithin (505 # 10000) (1316 # 10000) TAX_BRACKETS_PROVINCIAL.
Proof. unfold ratesWithin, TAX_BRACKETS_PROVINCIAL. repeat constructor; discriminate. Qed.

(** For a table that starts at 0 and ends unbounded, between two incomes
    the bracket tax moves by at least the lowest and at most the highest
    rate on the difference of the incomes' positive parts. *)
Lemma calculateBracketTax_between lo hi brackets y1 y2 :
  contiguous 0 brackets -> unbounded brackets -> ratesWithin lo hi brackets ->
  y1 <= y2 ->
  lo * (Qmax 0 y2 - Qmax 0 y1)
    <= calculateBracketTax y2 brackets - calculateBracketTax y1 brackets /\
  calculateBracketTax y2 brackets - calculateBracketTax y1 brackets
    <= hi * (Qmax 0 y2 - Qmax 0 y1).
Proof.
  intros Hc Hu Hr Hy.
  rewrite !(calculateBracketTax_portions _ brackets Hc).
  destruct (taxByPortions_between lo hi brackets y1 y2 Hr Hy) as [H1 H2].
  cbv zeta in H1, H2.
  rewrite !(portions_partition brackets 0 _ Hc Hu) in H1, H2.
  assert (E1 : Qmax 0 (y1 - 0) == Qmax 0 y1) by (minmax_cases; lra).
  assert (E2 : Qmax 0 (y2 - 0) == Qmax 0 y2) by (minmax_cases; lra).
  rewrite E1, E2 in H1, H2. split; assumption.
Qed.

Lemma federal_unbounded : unbounded TAX_BRACKETS_FEDERAL.
Proof. reflexivity. Qed.

Lemma provincial_unbounded : unbounded TAX_BRACKETS_PROVINCIAL.
Proof. reflexivity. Qed.

Lemma rawFederal_between y1 y2 :
  y1 <= y2 ->
  (15 # 100) * (Qmax 0 y2 - Qmax 0 y1)
    <= calculateRawFederalTax y2 - calculateRawFederalTax y1 /\
  calculateRawFederalTax y2 - calculateRawFederalTax y1
    <= (33 # 100) * (Qmax 0 y2 - Qmax 0 y1).
Proof.
  apply calculateBracketTax_between;
    [apply federal_contiguous | apply federal_unbounded | apply federal_rates].
Qed.

Lemma rawFederal_zero y : y <= 0 -> calculateRawFederalTax y = 0.
Proof.
  intros Hy. unfold calculateRawFederalTax, calculateBracketTax.
  apply Qleb_true in Hy. rewrite Hy. reflexivity.
Qed.

(** The federal tax, without the case distinction on the sign of the
    taxable income. *)
Lemma federal_as_floor y g s :
  calculateTotalFederalTax y g s
  == Qmax 0 (calculateRawFederalTax (y + g * CAPITAL_GAINS_INCLUSION_RATE_BASE)
             - BASIC_PERSONAL_AMOUNT * (15 # 100)).
Proof.
  unfold calculateTotalFederalTax. simpl firstRate.
  cmp_case (y + g * CAPITAL_GAINS_INCLUSION_RATE_BASE) 0; [|reflexivity].
  rewrite (rawFederal_zero _ E). unfold BASIC_PERSONAL_AMOUNT. minmax_cases; lra.
Qed.

(** X1.  For every bracket table that starts at 0, in which each bracket
    starts where the one before it ends and is not empty, the tax walked
    bracket by bracket is the sum over the brackets of the rate times the
    part of the income between the bracket's bounds, for every income, the
    non-positive ones included; both tables of the code are such tables. *)
Theorem bracket_walk_is_sum_of_portions :
  (forall brackets y, contiguous 0 brackets ->
     calculateBracketTax y brackets == taxByPortions y brackets) /\
  contiguous 0 TAX_BRACKETS_FEDERAL /\
  contiguous 0 TAX_BRACKETS_PROVINCIAL.
Proof.
  split; [|split].
  - intros brackets y Hc. apply calculateBracketTax_portions, Hc.
  - apply federal_contiguous.
  - apply provincial_contiguous.
Qed.

Lemma bracket_walk_is_sum_of_portions_witness :
  calculateBracketTax 60000 TAX_BRACKETS_FEDERAL
  == taxByPortions 60000 TAX_BRACKETS_FEDERAL.
Proof.
  apply (proj1 bracket_walk_is_sum_of_portions). simpl. repeat split; reflexivity.
Defined.

(** X2.  More ordinary income never lowers the federal tax, and raises it
    by at most 33 cents on the dollar, whatever the capital gain. *)
Theorem federal_tax_monotone_and_bounded y1 y2 g s :
  y1 <= y2 ->
  calculateTotalFederalTax y1 g s <= calculateTotalFederalTax y2 g s /\
  calculateTotalFederalTax y2 g s - calculateTotalFederalTax y1 g s
    <= (33 # 100) * (y2 - y1).
Proof.
  intros Hy. rewrite !federal_as_floor.
  set (t1 := y1 + g * CAPITAL_GAINS_INCLUSION_RATE_BASE).
  set (t2 := y2 + g * CAPITAL_GAINS_INCLUSION_RATE_BASE).
  assert (Ht : t1 <= t2) by (unfold t1, t2; lra).
  assert (Hd : t2 - t1 == y2 - y1) by (unfold t1, t2; ring).
  destruct (rawFederal_between t1 t2 Ht) as [Hlo Hhi].
  unfold BASIC_PERSONAL_AMOUNT.
  revert Hlo Hhi. minmax_cases; intros; split; lra.
Qed.

Lemma federal_tax_monotone_and_bounded_witness :
  calculateTotalFederalTax 50000 0 single <= calculateTotalFederalTax 90000 0 single /\
  calculateTotalFederalTax 90000 0 single - calculateTotalFederalTax 50000 0 single
    <= (33 # 100) * (90000 - 50000).
Proof.
  apply (federal_tax_monotone_and_bounded 50000 90000 0 single). discriminate.
Defined.

(** X3.  The federal tax is zero exactly when the taxable income, ordinary
    income plus half of the capital gain, does not exceed the basic personal
    amount. *)
Theorem federal_tax_zero_iff_within_exemption y g s :
  calculateTotalFederalTax y g s == 0
  <-> y + g * CAPITAL_GAINS_INCLUSION_RATE_BASE <= BASIC_PERSONAL_AMOUNT.
Proof.
  rewrite federal_as_floor.
  set (t := y + g * CAPITAL_GAINS_INCLUSION_RATE_BASE).
  unfold BASIC_PERSONAL_AMOUNT. split.
  - intros Hz. destruct (Qlt_le_dec 16129 t) as [Hbig|Hsmall]; [|exact Hsmall].
    exfalso.
    destruct (rawFederal_between 0 t ltac:(lra)) as [Hlo _].
    rewrite (rawFederal_zero 0) in Hlo by lra.
    revert Hz Hlo. minmax_cases; lra.
  - intros Hsmall. destruct (Qlt_le_dec 0 t) as [Hpos|Hneg].
    + rewrite (firstBracket_tax t Hpos) by (unfold bracket1Max; simpl; lra).
      minmax_cases; lra.
    + rewrite (rawFederal_zero t Hneg). minmax_cases; lra.
Qed.

Lemma federal_tax_zero_iff_within_exemption_witness :
  calculateTotalFederalTax 10000 4000 single == 0.
Proof.
  apply (proj2 (federal_tax_zero_iff_within_exemption 10000 4000 single)).
  vm_compute. discriminate.
Defined.

Lemma healthPremium_mono t1 t2 : t1 <= t2 -> healthPremium t1 <= healthPremium t2.
Proof.
  intros Ht. unfold healthPremium.
  repeat match goal with |- context [Qltb ?a ?b] => cmp_case a b end;
    first [lra | discriminate].
Qed.

Lemma healthPremium_nonneg t : 0 <= healthPremium t.
Proof.
  unfold healthPremium.
  repeat match goal with |- context [Qltb ?a ?b] => destruct (Qltb a b) end;
    discriminate.
Qed.

Lemma ontarioSurtax_mono B1 B2 :
  B1 <= B2 -> 0 <= ontarioSurtax B1 /\ ontarioSurtax B1 <= ontarioSurtax B2.
Proof.
  intros HB. rewrite !ontarioSurtax_spec.
  unfold ONTARIO_SURTAX_1_RATE, ONTARIO_SURTAX_2_RATE,
    ONTARIO_SURTAX_1_THRESHOLD, ONTARIO_SURTAX_2_THRESHOLD.
  minmax_cases; split; lra.
Qed.

Lemma basicProvincialTax_mono t1 t2 :
  t1 <= t2 -> 0 <= basicProvincialTax t1 /\ basicProvincialTax t1 <= basicProvincialTax t2.
Proof.
  intros Ht. unfold basicProvincialTax. simpl firstRate. unfold provincialBPA.
  destruct (calculateBracketTax_between _ _ _ t1 t2 provincial_contiguous
              provincial_unbounded provincial_rates Ht) as [Hlo _].
  revert Hlo. minmax_cases; intros; split; lra.
Qed.

(** The regional tax on a taxable income, as [calculateProvincialTax]
    computes it from the sum of its first two arguments. *)
Lemma provincial_mono_in_income y1 g1 r1 y2 g2 r2 :
  y1 + g1 * CAPITAL_GAINS_INCLUSION_RATE_BASE <= y2 + g2 * CAPITAL_GAINS_INCLUSION_RATE_BASE ->
  0 <= calculateProvincialTax y1 g1 r1 /\
  calculateProvincialTax y1 g1 r1 <= calculateProvincialTax y2 g2 r2.
Proof.
  set (t1 := y1 + g1 * CAPITAL_GAINS_INCLUSION_RATE_BASE).
  set (t2 := y2 + g2 * CAPITAL_GAINS_INCLUSION_RATE_BASE).
  intros Ht. unfold calculateProvincialTax. fold t1. fold t2.
  destruct (basicProvincialTax_mono t1 t2 Ht) as [HB0 HB].
  destruct (basicProvincialTax_mono t2 t2 ltac:(lra)) as [HB2 _].
  destruct (ontarioSurtax_mono _ _ HB) as [HS0 HS].
  destruct (ontarioSurtax_mono (basicProvincialTax t2) (basicProvincialTax t2)
              ltac:(lra)) as [HS2 _].
  pose proof (healthPremium_mono t1 t2 Ht) as HH.
  pose proof (healthPremium_nonneg t1) as HH1.
  pose proof (healthPremium_nonneg t2) as HH2.
  cmp_case t1 0; cmp_case t2 0; split; lra.
Qed.

Lemma federal_mono_in_income y1 g1 y2 g2 s :
  y1 + g1 * CAPITAL_GAINS_INCLUSION_RATE_BASE <= y2 + g2 * CAPITAL_GAINS_INCLUSION_RATE_BASE ->
  calculateTotalFederalTax y1 g1 s <= calculateTotalFederalTax y2 g2 s.
Proof.
  intros Ht. rewrite !federal_as_floor.
  destruct (rawFederal_between _ _ Ht) as [Hlo _].
  unfold BASIC_PERSONAL_AMOUNT. revert Hlo. minmax_cases; lra.
Qed.

(** X4.  Both taxes depend on the ordinary income and the capital gain only
    through the taxable income, the ordinary income plus half of the gain:
    two pairs with the same taxable income are taxed the same, so a gain is
    taxed like half as much ordinary income. *)
Theorem taxes_depend_on_taxable_income y1 g1 y2 g2 s r1 r2 :
  y1 + g1 * (1 # 2) == y2 + g2 * (1 # 2) ->
  calculateTotalFederalTax y1 g1 s == calculateTotalFederalTax y2 g2 s /\
  calculateProvincialTax y1 g1 r1 == calculateProvincialTax y2 g2 r2.
Proof.
  intros Heq.
  assert (H12 : y1 + g1 * CAPITAL_GAINS_INCLUSION_RATE_BASE
                <= y2 + g2 * CAPITAL_GAINS_INCLUSION_RATE_BASE)
    by (unfold CAPITAL_GAINS_INCLUSION_RATE_BASE; lra).
  assert (H21 : y2 + g2 * CAPITAL_GAINS_INCLUSION_RATE_BASE
                <= y1 + g1 * CAPITAL_GAINS_INCLUSION_RATE_BASE)
    by (unfold CAPITAL_GAINS_INCLUSION_RATE_BASE; lra).
  pose proof (federal_mono_in_income y1 g1 y2 g2 s H12).
  pose proof (federal_mono_in_income y2 g2 y1 g1 s H21).
  destruct (provincial_mono_in_income y1 g1 r1 y2 g2 r2 H12) as [_ ?].
  destruct (provincial_mono_in_income y2 g2 r2 y1 g1 r1 H21) as [_ ?].
  split; lra.
Qed.

Lemma taxes_depend_on_taxable_income_witness :
  calculateTotalFederalTax 0 100000 single == calculateTotalFederalTax 50000 0 single /\
  calculateProvincialTax 0 100000 (1 # 10) == calculateProvincialTax 50000 0 (2 # 10).
Proof.
  apply (taxes_depend_on_taxable_income 0 100000 50000 0 single (1 # 10) (2 # 10)).
  reflexivity.
Defined.

(** X5.  The regional tax is never negative and never falls when the
    ordinary income rises, whatever the capital gain and the flat rates
    passed. *)
Theorem regional_tax_nonnegative_and_monotone y1 y2 g r1 r2 :
  y1 <= y2 ->
  0 <= calculateProvincialTax y1 g r1 /\
  calculateProvincialTax y1 g r1 <= calculateProvincialTax y2 g r2.
Proof.
  intros Hy. apply provincial_mono_in_income. lra.
Qed.

Lemma regional_tax_nonnegative_and_monotone_witness :
  0 <= calculateProvincialTax 40000 10000 (1 # 10) /\
  calculateProvincialTax 40000 10000 (1 # 10) <= calculateProvincialTax 95000 10000 (1 # 10).
Proof.
  apply (regional_tax_nonnegative_and_monotone 40000 95000 10000). discriminate.
Defined.

(** ** Marginal and effective rates *)

(** Decides every comparison of the goal. *)
Ltac cmp_all :=
  repeat match goal with
  | |- context [Qleb ?a ?b] => cmp_case a b
  | |- context [Qltb ?a ?b] => cmp_case a b
  end.

(** The raw federal tax on a non-negative income is at most the marginal
    rate at that income on the whole income: the brackets below carry lower
    rates. *)
Lemma rawFederal_below_marginal y s :
  0 <= y -> calculateRawFederalTax y <= getMarginalTaxRate y s * y.
Proof.
  intros Hy. unfold calculateRawFederalTax.
  rewrite (calculateBracketTax_portions y _ federal_contiguous).
  unfold getMarginalTaxRate, TAX_BRACKETS_FEDERAL, atMost.
  cbn [List.find bmax rate taxByPortions]. unfold portion. cbn [bmax bmin rate].
  cmp_all; cbn [rate]; minmax_prune.
Qed.

Lemma rawFederal_nonneg y : 0 <= calculateRawFederalTax y.
Proof.
  destruct (Qlt_le_dec 0 y) as [Hpos|Hneg].
  - destruct (rawFederal_between 0 y ltac:(lra)) as [Hlo _].
    rewrite (rawFederal_zero 0) in Hlo by lra.
    revert Hlo. minmax_cases; lra.
  - rewrite (rawFederal_zero y Hneg). lra.
Qed.

(** X6.  Between two non-negative incomes at which the marginal rate is the
    same, the raw federal tax rises by that rate on every dollar. *)
Theorem marginal_rate_is_slope_of_federal_tax y1 y2 s :
  0 <= y1 -> y1 <= y2 ->
  getMarginalTaxRate y1 s = getMarginalTaxRate y2 s ->
  calculateRawFederalTax y2 - calculateRawFederalTax y1
  == getMarginalTaxRate y2 s * (y2 - y1).
Proof.
  intros H0 Hle Hsame. unfold calculateRawFederalTax.
  rewrite !(calculateBracketTax_portions _ _ federal_contiguous).
  revert Hsame.
  unfold getMarginalTaxRate, TAX_BRACKETS_FEDERAL, atMost.
  cbn [List.find bmax rate taxByPortions]. unfold portion. cbn [bmax bmin rate].
  cmp_all; cbn [rate]; intros Hsame; try discriminate Hsame; minmax_prune.
Qed.

Lemma marginal_rate_is_slope_of_federal_tax_witness :
  calculateRawFederalTax 100000 - calculateRawFederalTax 60000
  == getMarginalTaxRate 100000 single * (100000 - 60000).
Proof.
  apply (marginal_rate_is_slope_of_federal_tax 60000 100000 single);
    [discriminate | discriminate | reflexivity].
Defined.

(** X7.  The effective rate of the federal tax on an ordinary income is
    never negative and never above the marginal rate at that income; on a
    non-positive income it is 0. *)
Theorem effective_rate_at_most_marginal y s :
  0 <= getEffectiveTaxRate (calculateTotalFederalTax y 0 s) y /\
  getEffectiveTaxRate (calculateTotalFederalTax y 0 s) y <= getMarginalTaxRate y s /\
  (y <= 0 -> getEffectiveTaxRate (calculateTotalFederalTax y 0 s) y = 0).
Proof.
  unfold getEffectiveTaxRate. cmp_case y 0.
  - split; [lra|]. split; [|reflexivity].
    unfold getMarginalTaxRate, TAX_BRACKETS_FEDERAL, atMost. cbn [List.find bmax].
    cmp_all; cbn [rate]; first [discriminate | lra].
  - assert (Htax : 0 <= calculateTotalFederalTax y 0 s
                   /\ calculateTotalFederalTax y 0 s <= getMarginalTaxRate y s * y).
    { rewrite federal_as_floor.
      set (t := y + 0 * CAPITAL_GAINS_INCLUSION_RATE_BASE).
      assert (Ht : t <= y) by (unfold t; lra).
      destruct (rawFederal_between t y Ht) as [Hlo _].
      pose proof (rawFederal_below_marginal y s ltac:(lra)) as Hm.
      pose proof (rawFederal_nonneg y) as Hy.
      unfold BASIC_PERSONAL_AMOUNT. revert Hlo. minmax_cases; intros; split; lra. }
    destruct Htax as [Hpos Hm].
    split; [|split; [|lra]].
    + apply Qle_shift_div_l; [exact E | lra].
    + apply Qle_shift_div_r; [exact E | exact Hm].
Qed.

Lemma effective_rate_at_most_marginal_witness :
  getEffectiveTaxRate (calculateTotalFederalTax (-5) 0 single) (-5) = 0.
Proof.
  apply (proj2 (proj2 (effective_rate_at_most_marginal (-5) single))). discriminate.
Defined.

(** Evaluates the comparisons of two rates that are both constants. *)
Ltac eval_rate_tests :=
  repeat match goal with
  | |- context [Qeq_bool ?a ?b] =>
      let v := eval vm_compute in (Qeq_bool a b) in
      change (Qeq_bool a b) with v
  end;
  cbv iota.

(** X8.  [getWithdrawalToFillBracket] never returns a negative amount and
    returns 0 for a rate that no bracket carries; for a bounded bracket of
    the table and an income below its upper bound it returns a positive
    amount that takes the income exactly to that bound, where the marginal
    rate is the bracket's rate; for the rate of the unbounded bracket the
    room is unbounded at every income. *)
Theorem fill_bracket_reaches_its_top s :
  (forall income targetRate room,
     getWithdrawalToFillBracket income targetRate s = Some room -> 0 <= room) /\
  (forall income targetRate,
     (forall b, List.In b TAX_BRACKETS_FEDERAL -> ~ rate b == targetRate) ->
     getWithdrawalToFillBracket income targetRate s = Some 0) /\
  (forall b m income,
     List.In b TAX_BRACKETS_FEDERAL -> bmax b = Some m -> income < m ->
     exists room,
       getWithdrawalToFillBracket income (rate b) s = Some room /\
       0 < room /\ income + room == m /\
       getMarginalTaxRate (income + room) s = rate b) /\
  (forall b income,
     List.In b TAX_BRACKETS_FEDERAL -> bmax b = None ->
     getWithdrawalToFillBracket income (rate b) s = None).
Proof.
  split; [|split; [|split]].
  - intros income targetRate room. unfold getWithdrawalToFillBracket. cbv zeta.
    destruct (List.find _ _) as [b|]; [|intros H; inversion H; lra].
    destruct (bmax b) as [m|]; [|discriminate].
    cmp_case m income; intros H; inversion H; subst; [lra|].
    minmax_cases; lra.
  - intros income targetRate Hnone. unfold getWithdrawalToFillBracket. cbv zeta.
    destruct (List.find _ _) as [b|] eqn:Hf; [|reflexivity].
    apply List.find_some in Hf as [Hin Heq]. apply Qeq_bool_iff in Heq.
    destruct (Hnone b Hin Heq).
  - intros b m income Hin Hm Hlt.
    assert (Hroom : Qmax 0 (m - income) == m - income) by (minmax_cases; lra).
    exists (Qmax 0 (m - income)).
    unfold TAX_BRACKETS_FEDERAL in Hin. simpl in Hin.
    destruct Hin as [<-|[<-|[<-|[<-|[<-|[]]]]]]; simpl in Hm; inversion Hm; subst m;
      (split; [|split; [lra|split; [lra|]]]).
    all: try (unfold getWithdrawalToFillBracket, TAX_BRACKETS_FEDERAL;
              cbn [List.find rate]; eval_rate_tests; cbn [bmax];
              cmp_all; [lra | reflexivity]).
    all: unfold getMarginalTaxRate, TAX_BRACKETS_FEDERAL, atMost;
      cbn [List.find bmax rate]; cmp_all; cbn [rate]; first [reflexivity | lra].
  - intros b income Hin Hm.
    unfold TAX_BRACKETS_FEDERAL in Hin. simpl in Hin.
    destruct Hin as [<-|[<-|[<-|[<-|[<-|[]]]]]]; simpl in Hm; try discriminate Hm.
    unfold getWithdrawalToFillBracket, TAX_BRACKETS_FEDERAL.
    cbn [List.find rate]. eval_rate_tests. reflexivity.
Qed.

Lemma fill_bracket_reaches_its_top_witness :
  (getWithdrawalToFillBracket 70000 (1 # 2) single = Some 0) /\
  (exists room,
     getWithdrawalToFillBracket 70000 (205 # 1000) single = Some room /\
     0 < room /\ 70000 + room == 114750 /\
     getMarginalTaxRate (70000 + room) single = (205 # 1000)).
Proof.
  destruct (fill_bracket_reaches_its_top single) as (_ & Hnone & Hfill & _).
  split.
  - apply Hnone. intros b Hin.
    unfold TAX_BRACKETS_FEDERAL in Hin. simpl in Hin.
    destruct Hin as [<-|[<-|[<-|[<-|[<-|[]]]]]]; discriminate.
  - apply (Hfill (mkBracket 57375 (Some 114750) (205 # 1000)) 114750 70000);
      [right; left; reflexivity | reflexivity | reflexivity].
Defined.

(** * Further properties of the minimum distributions *)

Lemma getRRIFFactor_bounds a :
  getRRIFFactor a <= 1 # 5 /\ ((RRIF_START_AGE <= a)%Z -> 54 # 1000 <= getRRIFFactor a).
Proof.
  destruct (Z.lt_ge_cases a RRIF_START_AGE) as [Hyoung|Hold].
  - split; [|lia]. unfold getRRIFFactor.
    destruct (Z.ltb_spec a RRIF_START_AGE); [discriminate | lia].
  - pose proof (getRRIFFactor_mono RRIF_START_AGE a ltac:(lia)) as Hlow.
    assert (H72 : getRRIFFactor RRIF_START_AGE == 54 # 1000) by reflexivity.
    rewrite H72 in Hlow.
    split; [|intros _; exact Hlow].
    destruct (Z.le_gt_cases 95%Z a) as [Hbig|Hsmall].
    + rewrite (getRRIFFactor_beyond a Hbig). discriminate.
    + pose proof (getRRIFFactor_mono a 95%Z ltac:(lia)) as Hup.
      assert (H95 : getRRIFFactor 95 == 1 # 5) by reflexivity.
      rewrite H95 in Hup. exact Hup.
Qed.

(** X9.  For a non-negative balance the mandatory minimum is never negative
    and never more than a fifth of the balance, whatever the age; from the
    start age on it is at least 5.4% of the balance. *)
Theorem rrif_minimum_bounds a b :
  0 <= b ->
  0 <= calculateRRIFMinimum a b /\
  calculateRRIFMinimum a b <= b * (1 # 5) /\
  ((RRIF_START_AGE <= a)%Z -> b * (54 # 1000) <= calculateRRIFMinimum a b).
Proof.
  intros Hb. destruct (getRRIFFactor_bounds a) as [Hup Hlow].
  pose proof (getRRIFFactor_nonneg a) as H0.
  unfold calculateRRIFMinimum.
  destruct (Z.ltb_spec a RRIF_START_AGE) as [Hyoung|Hold].
  - split; [lra|]. split; [lra | lia].
  - specialize (Hlow Hold). split; [|split; [|intros _]]; nra.
Qed.

Lemma rrif_minimum_bounds_witness :
  0 <= calculateRRIFMinimum 80 250000 /\
  calculateRRIFMinimum 80 250000 <= 250000 * (1 # 5) /\
  250000 * (54 # 1000) <= calculateRRIFMinimum 80 250000.
Proof.
  destruct (rrif_minimum_bounds 80 250000 ltac:(discriminate)) as (H1 & H2 & H3).
  split; [exact H1|]. split; [exact H2|]. apply H3. unfold RRIF_START_AGE. lia.
Defined.

(** * Further properties of the withdrawal steps *)

(** [minmax_cases], also for the minima and maxima that occur only in the
    context. *)
Ltac minmax_deep :=
  repeat first
  [ match goal with
    | |- context [Qmin ?a ?b] =>
        let m := fresh "m" in
        let Hm := fresh "Hm" in
        pose proof (Qmin_cases a b) as Hm;
        set (m := Qmin a b) in *; clearbody m;
        destruct Hm as [[? ?]|[? ?]]
    | |- context [Qmax ?a ?b] =>
        let m := fresh "m" in
        let Hm := fresh "Hm" in
        pose proof (Qmax_cases a b) as Hm;
        set (m := Qmax a b) in *; clearbody m;
        destruct Hm as [[? ?]|[? ?]]
    end
  | match goal with
    | H : context [Qmin ?a ?b] |- _ =>
        let m := fresh "m" in
        let Hm := fresh "Hm" in
        pose proof (Qmin_cases a b) as Hm;
        set (m := Qmin a b) in *; clearbody m;
        destruct Hm as [[? ?]|[? ?]]
    | H : context [Qmax ?a ?b] |- _ =>
        let m := fresh "m" in
        let Hm := fresh "Hm" in
        pose proof (Qmax_cases a b) as Hm;
        set (m := Qmax a b) in *; clearbody m;
        destruct Hm as [[? ?]|[? ?]]
    end ].

Section ForAccountsMore.
Context {S : Type}.
Variable sel : AccountState -> bool.
Variable stop : S -> bool.
Variable body : AccountState -> S -> AccountState * S.

(** A loop that starts with its [break] condition met does nothing. *)
Lemma forAccounts_stopped accs s :
  stop s = true -> forAccounts sel stop body accs s = (accs, s).
Proof.
  intros Hs. induction accs as [|acc rest IH]; simpl; [reflexivity|].
  destruct (sel acc); [rewrite Hs; reflexivity|].
  rewrite IH. reflexivity.
Qed.

(** [forAccounts_state] for bodies that respect the preorder only on
    accounts with a property that all accounts of the list have. *)
Lemma forAccounts_state_on (P : AccountState -> Prop) (R : S -> S -> Prop) `{!PreOrder R} :
  (forall acc s, P acc -> sel acc = true -> stop s = false -> R s (snd (body acc s))) ->
  forall accs s, Forall P accs -> R s (snd (forAccounts sel stop body accs s)).
Proof.
  intros Hbody accs. induction accs as [|acc rest IH]; intros s HP; simpl.
  - reflexivity.
  - apply Forall_cons in HP as [Hacc Hrest].
    destruct (sel acc) eqn:Hsel.
    + destruct (stop s) eqn:Hstop; [reflexivity|].
      specialize (Hbody acc s Hacc Hsel Hstop).
      destruct (body acc s) as [acc' s']. simpl in Hbody.
      specialize (IH s' Hrest).
      destruct (forAccounts sel stop body rest s') as [rest' s'']. simpl in *.
      etransitivity; eassumption.
    + specialize (IH s Hrest).
      destruct (forAccounts sel stop body rest s) as [rest' s']. exact IH.
Qed.

(** The accounts the loop does not select are the same after it. *)
Lemma forAccounts_unselected accs s :
  Forall2 (fun a a' => sel a = false -> a' = a) accs
    (fst (forAccounts sel stop body accs s)).
Proof.
  assert (Hr : Reflexive (fun a a' : AccountState => sel a = false -> a' = a))
    by (intros a _; reflexivity).
  apply (@forAccounts_accounts S sel stop body _ Hr).
  intros acc s0 Hsel _ Hno. congruence.
Qed.

(** A loop that stops only when nothing is needed, and whose bodies never
    raise the need and leave it positive only with the account emptied or
    with a flag raised that stays raised: after it either nothing is
    needed, or the flag is raised, or every selected account is empty. *)
Lemma forAccounts_drains (P : AccountState -> Prop) (need : S -> Q) (flag : S -> Prop) :
  (forall acc s, P acc -> sel acc = true -> stop s = false ->
     need (snd (body acc s)) <= need s /\
     (flag s -> flag (snd (body acc s))) /\
     (0 < need (snd (body acc s)) ->
      flag (snd (body acc s)) \/ balance (fst (body acc s)) <= 0)) ->
  (forall s, stop s = true -> need s <= 0) ->
  forall accs s, Forall P accs ->
    need (snd (forAccounts sel stop body accs s)) <= need s /\
    (flag s -> flag (snd (forAccounts sel stop body accs s))) /\
    (0 < need (snd (forAccounts sel stop body accs s)) ->
     flag (snd (forAccounts sel stop body accs s)) \/
     Forall2 (fun a a' => sel a = true -> balance a' <= 0) accs
       (fst (forAccounts sel stop body accs s))).
Proof.
  intros Hbody Hstopped accs.
  induction accs as [|acc rest IH]; intros s HP; simpl.
  - split; [lra|]. split; [tauto|]. intros _. right. constructor.
  - apply Forall_cons in HP as [Hacc Hrest].
    destruct (sel acc) eqn:Hsel.
    + destruct (stop s) eqn:Hstop.
      { simpl. split; [lra|]. split; [tauto|].
        intros Hpos. apply Hstopped in Hstop. lra. }
      destruct (Hbody acc s Hacc Hsel Hstop) as (Hle & Hflag & Hdrain).
      destruct (body acc s) as [acc' s']. simpl in Hle, Hflag, Hdrain.
      destruct (IH s' Hrest) as (Hle' & Hflag' & Hdrain').
      destruct (forAccounts sel stop body rest s') as [rest' s'']. simpl in *.
      split; [lra|]. split; [tauto|].
      intros Hpos. destruct (Hdrain' Hpos) as [Hf|Hall]; [left; exact Hf|].
      destruct (Hdrain ltac:(lra)) as [Hf|Hempty]; [left; tauto|].
      right. constructor; [intros _; exact Hempty | exact Hall].
    + destruct (IH s Hrest) as (Hle' & Hflag' & Hdrain').
      destruct (forAccounts sel stop body rest s) as [rest' s']. simpl in *.
      split; [lra|]. split; [tauto|].
      intros Hpos. destruct (Hdrain' Hpos) as [Hf|Hall]; [left; exact Hf|].
      right. constructor; [intros Hno; congruence | exact Hall].
Qed.
End ForAccountsMore.

Lemma sumBalances_from accs : forall init,
  fold_left (fun sum acc => sum + balance acc) accs init
  == init + fold_left (fun sum acc => sum + balance acc) accs 0.
Proof.
  induction accs as [|a rest IH]; intros init; simpl; [ring|].
  rewrite (IH (init + balance a)), (IH (0 + balance a)). ring.
Qed.

Lemma sumBalances_cons a rest : sumBalances (a :: rest) == balance a + sumBalances rest.
Proof. unfold sumBalances. simpl. rewrite sumBalances_from. ring. Qed.

Lemma sumBalances_nonneg accs : Forall nonNegative accs -> 0 <= sumBalances accs.
Proof.
  induction 1 as [|a rest Ha _ IH]; [unfold sumBalances; simpl; lra|].
  rewrite sumBalances_cons. unfold nonNegative in Ha. lra.
Qed.

Section ForAccountsSum.
Context {S : Type}.
Variable sel : AccountState -> bool.
Variable stop : S -> bool.
Variable body : AccountState -> S -> AccountState * S.

(** If every executed body moves from the account's balance to a quantity
    of the state, that quantity plus the sum of the balances is the same
    before and after the loop. *)
Lemma forAccounts_sum (val : S -> Q) :
  (forall acc s, sel acc = true -> stop s = false ->
     val (snd (body acc s)) + balance (fst (body acc s)) == val s + balance acc) ->
  forall accs s,
    val (snd (forAccounts sel stop body accs s))
      + sumBalances (fst (forAccounts sel stop body accs s))
    == val s + sumBalances accs.
Proof.
  intros Hbody accs. induction accs as [|acc rest IH]; intros s; simpl.
  - reflexivity.
  - destruct (sel acc) eqn:Hsel.
    + destruct (stop s) eqn:Hstop; [reflexivity|].
      specialize (Hbody acc s Hsel Hstop).
      destruct (body acc s) as [acc' s']. simpl in Hbody.
      specialize (IH s').
      destruct (forAccounts sel stop body rest s') as [rest' s'']. simpl in *.
      rewrite !sumBalances_cons. lra.
    + specialize (IH s).
      destruct (forAccounts sel stop body rest s) as [rest' s']. simpl in *.
      rewrite !sumBalances_cons. lra.
Qed.
End ForAccountsSum.

#[local] Instance accountsFor_preorder : PreOrder accountsFor.
Proof.
  split.
  - intros l. split; [reflexivity | tauto].
  - intros l1 l2 l3 [Ha Hn] [Ha' Hn']. split; [lra | tauto].
Qed.

#[local] Instance advances_preorder : PreOrder advances.
Proof.
  split.
  - intros l. unfold advances. repeat split; lra.
  - intros l1 l2 l3 (H1 & H2 & H3 & H4 & H5) (H1' & H2' & H3' & H4' & H5').
    unfold advances. split; [|split; [|split; [|split]]]; lra.
Qed.

#[local] Instance onlyTaxDeferred_preorder : PreOrder onlyTaxDeferred.
Proof.
  split.
  - intros l. repeat split.
  - intros l1 l2 l3 (H1 & H2 & H3) (H1' & H2' & H3').
    unfold onlyTaxDeferred. split; [|split]; congruence.
Qed.

#[local] Instance takesMinimum_preorder : PreOrder takesMinimum.
Proof.
  split.
  - intros s. unfold takesMinimum.
    split; [reflexivity|]. split; [lra|]. split; [tauto|]. split; [lra|]. split; [lra|].
    intros Hn. minmax_cases; lra.
  - intros s1 s2 s3 (Ha & Hr & Hp & Ht & Hw & Hn) (Ha' & Hr' & Hp' & Ht' & Hw' & Hn').
    unfold takesMinimum.
    split; [lra|]. split; [lra|]. split; [tauto|]. split; [lra|]. split; [lra|].
    intros H0. specialize (Hn H0).
    assert (H2 : 0 <= remainingNeed (snd s2)) by (rewrite Hn; minmax_cases; lra).
    specialize (Hn' H2). rewrite Hn'. revert Hn. minmax_cases; lra.
Qed.

(** *** The bodies of the five loops *)

Lemma rrifBody_takesMinimum age acc s :
  nonNegative acc -> rrifDone s = false -> takesMinimum s (snd (rrifBody age acc s)).
Proof.
  unfold nonNegative. intros Hacc Hs. apply rrifDone_false in Hs.
  destruct s as [r l]. simpl in Hs. unfold takesMinimum. cbn -[Qmin Qmax].
  minmax_cases; repeat split; intros; lra.
Qed.

Lemma rrifBody_onlyTaxDeferred age acc s :
  onlyTaxDeferred (snd s) (snd (snd (rrifBody age acc s))).
Proof. destruct s as [r l]. repeat split. Qed.

Lemma rrifBody_drains age acc s :
  nonNegative acc -> rrifDone s = false ->
  fst (snd (rrifBody age acc s)) <= fst s /\
  (False -> False) /\
  (0 < fst (snd (rrifBody age acc s)) -> False \/ balance (fst (rrifBody age acc s)) <= 0).
Proof.
  unfold nonNegative. intros Hacc Hs. apply rrifDone_false in Hs.
  destruct s as [r l]. simpl in Hs. cbn -[Qmin Qmax].
  split; [minmax_cases; lra|]. split; [tauto|].
  intros Hpos. right. revert Hpos. minmax_cases; lra.
Qed.

Lemma bracketFillBody_accountsFor age otherIncome sp acc l :
  accountsFor l (snd (bracketFillBody age otherIncome sp acc l)).
Proof.
  unfold bracketFillBody. cbv zeta.
  set (w := Qmin _ (balance acc)).
  assert (Hw : w <= remainingNeed l) by (subst w; minmax_deep; lra).
  clearbody w. cmp_case 0 w; [|reflexivity].
  unfold accountsFor. cbn. split; [ring | lra].
Qed.

Lemma bracketFillBody_advances age otherIncome sp acc l :
  advances l (snd (bracketFillBody age otherIncome sp acc l)).
Proof.
  unfold bracketFillBody. cbv zeta.
  set (w := Qmin _ (balance acc)). clearbody w.
  cmp_case 0 w; [|reflexivity].
  unfold advances. cbn. repeat split; lra.
Qed.

Lemma bracketFillBody_onlyTaxDeferred age otherIncome sp acc l :
  onlyTaxDeferred l (snd (bracketFillBody age otherIncome sp acc l)).
Proof.
  unfold bracketFillBody. cbv zeta. destruct (Qltb 0 _); repeat split.
Qed.

(** The bracket-fill step leaves a need only with the account empty or
    with the household's ordinary income at the ceiling. *)
Lemma bracketFillBody_drains age otherIncome sp acc l :
  let reached l := householdBracketCap sp <= rrspWithdrawal (result l) + otherIncome in
  needMet l = false ->
  remainingNeed (snd (bracketFillBody age otherIncome sp acc l)) <= remainingNeed l /\
  (reached l -> reached (snd (bracketFillBody age otherIncome sp acc l))) /\
  (0 < remainingNeed (snd (bracketFillBody age otherIncome sp acc l)) ->
   reached (snd (bracketFillBody age otherIncome sp acc l))
   \/ balance (fst (bracketFillBody age otherIncome sp acc l)) <= 0).
Proof.
  intros reached Hl. apply needMet_false in Hl. subst reached.
  unfold bracketFillBody, householdBracketCap. cbv zeta.
  set (cap := bracket1Max * (if sp then 2 else 1)).
  set (income := rrspWithdrawal (result l) + otherIncome).
  set (room := Qmax 0 (cap - income)).
  assert (Hroom : 0 <= room /\ (0 < room -> room == cap - income) /\ cap - income <= room)
    by (subst room; minmax_cases; repeat split; intros; lra).
  clearbody room.
  set (w := Qmin (Qmin room (remainingNeed l)) (balance acc)).
  assert (Hw : w <= room /\ w <= remainingNeed l /\ w <= balance acc /\
               (w == room \/ w == remainingNeed l \/ w == balance acc))
    by (subst w; minmax_deep; repeat split; try lra; auto).
  clearbody w. destruct Hroom as (Hr0 & Hr1 & Hr2). destruct Hw as (Hw1 & Hw2 & Hw3 & Hw4).
  clearbody cap. subst income. cmp_case 0 w; cbn.
  - split; [lra|]. split; [intros; lra|].
    intros Hpos. destruct Hw4 as [Hw4|[Hw4|Hw4]]; [left | lra | right; lra].
    specialize (Hr1 ltac:(lra)). lra.
  - split; [lra|]. split; [tauto|]. intros _.
    destruct Hw4 as [Hw4|[Hw4|Hw4]]; [left; lra | lra | right; lra].
Qed.

(** The three loops that take [min(remainingNeed, balance)]. *)
Lemma drawBody_facts need bal :
  0 < need ->
  let w := Qmin need bal in
  w <= need /\ (0 <= bal -> 0 <= w) /\ (0 < need - w -> bal - w <= 0).
Proof. intros Hn w. subst w. minmax_cases; repeat split; intros; lra. Qed.

Lemma taxFreeBody_accountsFor age acc l :
  needMet l = false -> accountsFor l (snd (taxFreeBody age acc l)).
Proof.
  intros Hl. apply needMet_false in Hl.
  destruct (drawBody_facts _ (balance acc) Hl) as (H1 & H2 & H3).
  unfold accountsFor, taxFreeBody. cbn -[Qmin]. split; [ring | lra].
Qed.

Lemma taxableBody_accountsFor age acc l :
  needMet l = false -> accountsFor l (snd (taxableBody age acc l)).
Proof.
  intros Hl. apply needMet_false in Hl.
  destruct (drawBody_facts _ (balance acc) Hl) as (H1 & H2 & H3).
  unfold accountsFor, taxableBody. cbn -[Qmin realizedGain]. split; [ring | lra].
Qed.

Lemma extraRRSPBody_accountsFor age acc l :
  needMet l = false -> accountsFor l (snd (extraRRSPBody age acc l)).
Proof.
  intros Hl. apply needMet_false in Hl.
  destruct (drawBody_facts _ (balance acc) Hl) as (H1 & H2 & H3).
  unfold accountsFor, extraRRSPBody. cbn -[Qmin]. split; [ring | lra].
Qed.

Lemma taxFreeBody_advances age acc l :
  nonNegative acc -> needMet l = false -> advances l (snd (taxFreeBody age acc l)).
Proof.
  unfold nonNegative. intros Hacc Hl. apply needMet_false in Hl.
  destruct (drawBody_facts _ (balance acc) Hl) as (H1 & H2 & H3). specialize (H2 Hacc).
  unfold advances, taxFreeBody. cbn -[Qmin]. repeat split; lra.
Qed.

Lemma taxableBody_advances age acc l :
  nonNegative acc -> needMet l = false -> advances l (snd (taxableBody age acc l)).
Proof.
  unfold nonNegative. intros Hacc Hl. apply needMet_false in Hl.
  destruct (drawBody_facts _ (balance acc) Hl) as (H1 & H2 & H3). specialize (H2 Hacc).
  unfold advances, taxableBody. cbn -[Qmin realizedGain]. repeat split; lra.
Qed.

Lemma extraRRSPBody_advances age acc l :
  nonNegative acc -> needMet l = false -> advances l (snd (extraRRSPBody age acc l)).
Proof.
  unfold nonNegative. intros Hacc Hl. apply needMet_false in Hl.
  destruct (drawBody_facts _ (balance acc) Hl) as (H1 & H2 & H3). specialize (H2 Hacc).
  unfold advances, extraRRSPBody. cbn -[Qmin]. repeat split; lra.
Qed.

Lemma taxFreeBody_drains age acc l :
  nonNegative acc -> needMet l = false ->
  remainingNeed (snd (taxFreeBody age acc l)) <= remainingNeed l /\
  (False -> False) /\
  (0 < remainingNeed (snd (taxFreeBody age acc l)) ->
   False \/ balance (fst (taxFreeBody age acc l)) <= 0).
Proof.
  unfold nonNegative. intros Hacc Hl. apply needMet_false in Hl.
  destruct (drawBody_facts _ (balance acc) Hl) as (H1 & H2 & H3). specialize (H2 Hacc).
  cbn -[Qmin]. split; [lra|]. split; [tauto|]. intros Hpos. right. auto.
Qed.

Lemma taxableBody_drains age acc l :
  nonNegative acc -> needMet l = false ->
  remainingNeed (snd (taxableBody age acc l)) <= remainingNeed l /\
  (False -> False) /\
  (0 < remainingNeed (snd (taxableBody age acc l)) ->
   False \/ balance (fst (taxableBody age acc l)) <= 0).
Proof.
  unfold nonNegative. intros Hacc Hl. apply needMet_false in Hl.
  destruct (drawBody_facts _ (balance acc) Hl) as (H1 & H2 & H3). specialize (H2 Hacc).
  cbn -[Qmin realizedGain]. split; [lra|]. split; [tauto|]. intros Hpos. right. auto.
Qed.

Lemma extraRRSPBody_drains age acc l :
  nonNegative acc -> needMet l = false ->
  remainingNeed (snd (extraRRSPBody age acc l)) <= remainingNeed l /\
  (False -> False) /\
  (0 < remainingNeed (snd (extraRRSPBody age acc l)) ->
   False \/ balance (fst (extraRRSPBody age acc l)) <= 0).
Proof.
  unfold nonNegative. intros Hacc Hl. apply needMet_false in Hl.
  destruct (drawBody_facts _ (balance acc) Hl) as (H1 & H2 & H3). specialize (H2 Hacc).
  cbn -[Qmin]. split; [lra|]. split; [tauto|]. intros Hpos. right. auto.
Qed.

Lemma extraRRSPBody_onlyTaxDeferred age acc l :
  onlyTaxDeferred l (snd (extraRRSPBody age acc l)).
Proof. repeat split. Qed.

Lemma needMet_true l : needMet l = true -> remainingNeed l <= 0.
Proof. unfold needMet. apply Qleb_true. Qed.

Lemma rrifDone_true s : rrifDone s = true -> fst s <= 0.
Proof. unfold rrifDone. apply Qleb_true. Qed.

(** *** The five loops *)

Lemma step1_facts age rrifMinimum accs l :
  Forall nonNegative accs ->
  exists rrifRemaining,
    takesMinimum (rrifMinimum, l) (rrifRemaining, snd (step1 age rrifMinimum accs l)) /\
    onlyTaxDeferred l (snd (step1 age rrifMinimum accs l)) /\
    (0 < rrifRemaining ->
     Forall2 (fun a a' => isPreTax (type a) = true -> balance a' <= 0) accs
       (fst (step1 age rrifMinimum accs l))).
Proof.
  intros Hnn. unfold step1.
  pose proof (forAccounts_state_on (fun acc => isPreTax (type acc)) rrifDone (rrifBody age)
                nonNegative takesMinimum
                (fun acc s Hacc _ Hs => rrifBody_takesMinimum age acc s Hacc Hs)
                accs (rrifMinimum, l) Hnn) as Htakes.
  pose proof (forAccounts_state (fun acc => isPreTax (type acc)) rrifDone (rrifBody age)
                (fun s s' => onlyTaxDeferred (snd s) (snd s'))
                (PreOrder0 := preorder_on snd onlyTaxDeferred)
                (fun acc s _ _ => rrifBody_onlyTaxDeferred age acc s)
                accs (rrifMinimum, l)) as Honly.
  pose proof (forAccounts_drains (fun acc => isPreTax (type acc)) rrifDone (rrifBody age)
                nonNegative fst (fun _ => False)
                (fun acc s Hacc _ Hs => rrifBody_drains age acc s Hacc Hs)
                rrifDone_true accs (rrifMinimum, l) Hnn) as (_ & _ & Hdrain).
  destruct (forAccounts _ _ _ _ _) as [accs' [r l']]. simpl in *.
  exists r. split; [exact Htakes|]. split; [exact Honly|].
  intros Hpos. destruct (Hdrain Hpos) as [[]|Hall]. exact Hall.
Qed.

Lemma step2_facts age otherIncome sp accs l :
  let out := step2 age otherIncome sp accs l in
  accountsFor l (snd out) /\ advances l (snd out) /\ onlyTaxDeferred l (snd out) /\
  (0 < remainingNeed (snd out) ->
   householdBracketCap sp <= rrspWithdrawal (result (snd out)) + otherIncome
   \/ Forall2 (fun a a' => isPreTax (type a) = true -> balance a' <= 0) accs (fst out)).
Proof.
  unfold step2. cbv zeta. split; [|split; [|split]].
  - apply forAccounts_state; [apply _|]. intros. apply bracketFillBody_accountsFor.
  - apply forAccounts_state; [apply _|]. intros. apply bracketFillBody_advances.
  - apply forAccounts_state; [apply _|]. intros. apply bracketFillBody_onlyTaxDeferred.
  - apply (forAccounts_drains (fun acc => isPreTax (type acc)) needMet
             (bracketFillBody age otherIncome sp) (fun _ => True) remainingNeed
             (fun l => householdBracketCap sp <= rrspWithdrawal (result l) + otherIncome)).
    + intros acc s _ _ Hs. apply (bracketFillBody_drains age otherIncome sp acc s Hs).
    + apply needMet_true.
    + apply Forall_forall. intros; exact I.
Qed.

Lemma step3_facts age accs l :
  Forall nonNegative accs ->
  let out := step3 age accs l in
  accountsFor l (snd out) /\ advances l (snd out) /\
  (0 < remainingNeed (snd out) ->
   Forall2 (fun a a' => isTaxFree (type a) = true -> balance a' <= 0) accs (fst out)).
Proof.
  intros Hnn. unfold step3. cbv zeta. split; [|split].
  - apply forAccounts_state; [apply _|]. intros. apply taxFreeBody_accountsFor. assumption.
  - apply (forAccounts_state_on _ _ _ nonNegative); [apply _| |exact Hnn].
    intros. apply taxFreeBody_advances; assumption.
  - intros Hpos.
    destruct (forAccounts_drains (fun acc => isTaxFree (type acc)) needMet (taxFreeBody age)
                nonNegative remainingNeed (fun _ => False)
                (fun acc s Hacc _ Hs => taxFreeBody_drains age acc s Hacc Hs)
                needMet_true accs l Hnn) as (_ & _ & Hdrain).
    destruct (Hdrain Hpos) as [[]|Hall]. exact Hall.
Qed.

Lemma step4_facts age accs l :
  Forall nonNegative accs ->
  let out := step4 age accs l in
  accountsFor l (snd out) /\ advances l (snd out) /\
  (0 < remainingNeed (snd out) ->
   Forall2 (fun a a' => isTaxable (type a) = true -> balance a' <= 0) accs (fst out)).
Proof.
  intros Hnn. unfold step4. cbv zeta. split; [|split].
  - apply forAccounts_state; [apply _|]. intros. apply taxableBody_accountsFor. assumption.
  - apply (forAccounts_state_on _ _ _ nonNegative); [apply _| |exact Hnn].
    intros. apply taxableBody_advances; assumption.
  - intros Hpos.
    destruct (forAccounts_drains (fun acc => isTaxable (type acc)) needMet (taxableBody age)
                nonNegative remainingNeed (fun _ => False)
                (fun acc s Hacc _ Hs => taxableBody_drains age acc s Hacc Hs)
                needMet_true accs l Hnn) as (_ & _ & Hdrain).
    destruct (Hdrain Hpos) as [[]|Hall]. exact Hall.
Qed.

Lemma Forall2_same {A} (R : A -> A -> Prop) (l : list A) :
  (forall x, R x x) -> Forall2 R l l.
Proof. intros HR. induction l; constructor; auto. Qed.

Lemma step5_facts age accs l :
  Forall nonNegative accs ->
  let out := step5 age accs l in
  accountsFor l (snd out) /\ advances l (snd out) /\ onlyTaxDeferred l (snd out) /\
  (0 < remainingNeed (snd out) ->
   Forall2 (fun a a' => isPreTax (type a) = true -> balance a' <= 0) accs (fst out)).
Proof.
  intros Hnn. unfold step5. cbv zeta. cmp_case 0 (remainingNeed l).
  - split; [|split; [|split]].
    + apply forAccounts_state; [apply _|]. intros. apply extraRRSPBody_accountsFor. assumption.
    + apply (forAccounts_state_on _ _ _ nonNegative); [apply _| |exact Hnn].
      intros. apply extraRRSPBody_advances; assumption.
    + apply forAccounts_state; [apply _|]. intros. apply extraRRSPBody_onlyTaxDeferred.
    + intros Hpos.
      destruct (forAccounts_drains (fun acc => isPreTax (type acc)) needMet (extraRRSPBody age)
                  nonNegative remainingNeed (fun _ => False)
                  (fun acc s Hacc _ Hs => extraRRSPBody_drains age acc s Hacc Hs)
                  needMet_true accs l Hnn) as (_ & _ & Hdrain).
      destruct (Hdrain Hpos) as [[]|Hall]. exact Hall.
  - simpl. split; [reflexivity|]. split; [reflexivity|]. split; [reflexivity|].
    intros Hpos. lra.
Qed.

(** With nothing needed, the loops over the tax-free and the taxable
    accounts and the last loop over the RRSPs leave everything as it is. *)
Lemma steps_after_need_met age accs l :
  remainingNeed l <= 0 ->
  step3 age accs l = (accs, l) /\ step4 age accs l = (accs, l) /\ step5 age accs l = (accs, l).
Proof.
  intros Hl. assert (Hmet : needMet l = true) by (apply Qleb_true; exact Hl).
  unfold step3, step4, step5. rewrite !forAccounts_stopped by exact Hmet.
  cmp_case 0 (remainingNeed l); [lra|]. repeat split.
Qed.

(** *** Where the balances go *)

Lemma step1_sum age rrifMinimum accs l :
  total (result (snd (step1 age rrifMinimum accs l)))
    + sumBalances (fst (step1 age rrifMinimum accs l))
  == total (result l) + sumBalances accs.
Proof.
  unfold step1.
  pose proof (forAccounts_sum (fun acc => isPreTax (type acc)) rrifDone (rrifBody age)
                (fun s => total (result (snd s)))) as H.
  specialize (H (fun acc s _ _ => ltac:(destruct s; cbn -[Qmin]; ring)) accs (rrifMinimum, l)).
  destruct (forAccounts _ _ _ _ _) as [accs' [r l']]. exact H.
Qed.

Lemma step2_sum age otherIncome sp accs l :
  total (result (snd (step2 age otherIncome sp accs l)))
    + sumBalances (fst (step2 age otherIncome sp accs l))
  == total (result l) + sumBalances accs.
Proof.
  unfold step2. apply (forAccounts_sum _ _ _ (fun l => total (result l))).
  intros acc s _ _. unfold bracketFillBody. cbv zeta.
  destruct (Qltb 0 _); cbn -[Qmin Qmax]; ring.
Qed.

Lemma step3_sum age accs l :
  total (result (snd (step3 age accs l))) + sumBalances (fst (step3 age accs l))
  == total (result l) + sumBalances accs.
Proof.
  unfold step3. apply (forAccounts_sum _ _ _ (fun l => total (result l))).
  intros acc s _ _. cbn -[Qmin]. ring.
Qed.

Lemma step4_sum age accs l :
  total (result (snd (step4 age accs l))) + sumBalances (fst (step4 age accs l))
  == total (result l) + sumBalances accs.
Proof.
  unfold step4. apply (forAccounts_sum _ _ _ (fun l => total (result l))).
  intros acc s _ _. cbn -[Qmin realizedGain]. ring.
Qed.

Lemma step5_sum age accs l :
  total (result (snd (step5 age accs l))) + sumBalances (fst (step5 age accs l))
  == total (result l) + sumBalances accs.
Proof.
  unfold step5. destruct (Qltb 0 (remainingNeed l)); [|reflexivity].
  apply (forAccounts_sum _ _ _ (fun l => total (result l))).
  intros acc s _ _. cbn -[Qmin]. ring.
Qed.

(** One call takes from the balances exactly what it reports as its
    total. *)
Lemma withdrawal_sum accs targetSpending rrifMinimum otherIncome profile ages age :
  let out :=
    performTaxOptimizedWithdrawal accs targetSpending rrifMinimum otherIncome profile ages
      age in
  total (snd (fst out)) + sumBalances (fst (fst out)) == sumBalances accs.
Proof.
  cbv zeta. rewrite performTaxOptimizedWithdrawal_steps. cbv zeta. cbn [fst snd].
  set (l0 := mkLedger _ _ ages).
  set (s1 := step1 age rrifMinimum accs l0).
  set (s2 := step2 age otherIncome (hasSpouse profile) (fst s1) (snd s1)).
  set (s3 := step3 age (fst s2) (snd s2)).
  set (s4 := step4 age (fst s3) (snd s3)).
  set (s5 := step5 age (fst s4) (snd s4)).
  assert (H1 := step1_sum age rrifMinimum accs l0). fold s1 in H1.
  assert (H2 := step2_sum age otherIncome (hasSpouse profile) (fst s1) (snd s1)).
  fold s2 in H2.
  assert (H3 := step3_sum age (fst s2) (snd s2)). fold s3 in H3.
  assert (H4 := step4_sum age (fst s3) (snd s3)). fold s4 in H4.
  assert (H5 := step5_sum age (fst s4) (snd s4)). fold s5 in H5.
  unfold l0 in H1. cbn [total result] in H1. lra.
Qed.

(** With the selected accounts emptied and the others as they were, the
    balances that are left and the balances the selected accounts had add
    up to what all the balances were. *)
Lemma pool_emptied (sel : AccountState -> bool) accs : forall accs',
  Forall2 (fun a a' => sel a = true -> balance a' <= 0) accs accs' ->
  Forall2 (fun a a' => sel a = false -> a' = a) accs accs' ->
  Forall nonNegative accs' ->
  sumBalances accs' + sumBalances (List.filter sel accs) == sumBalances accs.
Proof.
  induction accs as [|a rest IH]; intros accs' He Hu Hnn.
  - inversion He. subst. reflexivity.
  - inversion He as [|? a' ? rest' He1 He2]; subst.
    inversion Hu as [|? ? ? ? Hu1 Hu2]; subst.
    apply Forall_cons in Hnn as [Hnn1 Hnn2]. unfold nonNegative in Hnn1.
    specialize (IH rest' He2 Hu2 Hnn2). cbn [List.filter].
    destruct (sel a) eqn:Hsel.
    + specialize (He1 eq_refl). rewrite !sumBalances_cons. lra.
    + rewrite (Hu1 eq_refl). rewrite !sumBalances_cons. lra.
Qed.

Lemma step1_unselected age rrifMinimum accs l :
  Forall2 (fun a a' => isPreTax (type a) = false -> a' = a) accs
    (fst (step1 age rrifMinimum accs l)).
Proof.
  unfold step1.
  pose proof (forAccounts_unselected (fun acc => isPreTax (type acc)) rrifDone
                (rrifBody age) accs (rrifMinimum, l)) as H.
  destruct (forAccounts _ _ _ _ _) as [accs' [r l']]. exact H.
Qed.

(** *** The whole withdrawal, step by step *)

Lemma emptied_stays kind accs accs' accs'' :
  Forall2 (fun a a' => kind (type a) = true -> balance a' <= 0) accs accs' ->
  Forall nonNegative accs' ->
  Forall2 shrinks accs' accs'' ->
  Forall2 (fun a a'' => kind (type a) = true -> balance a'' <= 0) accs accs''.
Proof.
  intros Hempty. revert accs''.
  induction Hempty as [|a a' l l' Ha _ IH]; intros accs'' Hnn Hshr.
  - inversion Hshr. constructor.
  - inversion Hshr as [|? a'' ? l'' Hs Hrest]; subst.
    apply Forall_cons in Hnn as [Hnn1 Hnn2].
    constructor; [|apply IH; assumption].
    intros Hk. specialize (Ha Hk). destruct Hs as (_ & _ & _ & Hb).
    destruct (Hb Hnn1). lra.
Qed.

Lemma emptied_from kind accs accs' accs'' :
  Forall2 shrinks accs accs' ->
  Forall2 (fun a a' => kind (type a) = true -> balance a' <= 0) accs' accs'' ->
  Forall2 (fun a a'' => kind (type a) = true -> balance a'' <= 0) accs accs''.
Proof.
  intros Hshr. revert accs''.
  induction Hshr as [|a a' l l' Ha _ IH]; intros accs'' Hempty.
  - inversion Hempty. constructor.
  - inversion Hempty as [|? a'' ? l'' He Hrest]; subst.
    constructor; [|apply IH; assumption].
    destruct Ha as (_ & Ht & _). rewrite <- Ht. exact He.
Qed.

Section WithdrawalMore.
Variable accs : list AccountState.
Variables targetSpending rrifMinimum otherIncome : Q.
Variable profile : Profile.
Variable ages : gmap string (option Z).
Variable age : Z.
Hypothesis accounts_nonNegative : Forall nonNegative accs.

Abbreviation need0 := (Qmax 0 (targetSpending - otherIncome)).
Abbreviation l0 :=
  (mkLedger (mkResult 0 0 0 0 0 (zeroByAccount accs)) need0 ages).
Abbreviation s1 := (step1 age rrifMinimum accs l0).
Abbreviation s2 := (step2 age otherIncome (hasSpouse profile) (fst s1) (snd s1)).
Abbreviation s3 := (step3 age (fst s2) (snd s2)).
Abbreviation s4 := (step4 age (fst s3) (snd s3)).
Abbreviation s5 := (step5 age (fst s4) (snd s4)).
Abbreviation outcome :=
  (performTaxOptimizedWithdrawal accs targetSpending rrifMinimum otherIncome profile ages age).

Lemma outcome_is_s5 : outcome = (fst s5, result (snd s5), depletionAges (snd s5)).
Proof. apply performTaxOptimizedWithdrawal_steps. Qed.

Lemma stages_shrink :
  Forall2 shrinks accs (fst s1) /\ Forall2 shrinks (fst s1) (fst s2) /\
  Forall2 shrinks (fst s2) (fst s3) /\ Forall2 shrinks (fst s3) (fst s4) /\
  Forall2 shrinks (fst s4) (fst s5).
Proof.
  split; [apply step1_shrinks|]. split; [apply step2_shrinks|].
  split; [apply step3_shrinks|]. split; [apply step4_shrinks | apply step5_shrinks].
Qed.

Lemma stages_nonNegative :
  Forall nonNegative (fst s1) /\ Forall nonNegative (fst s2) /\
  Forall nonNegative (fst s3) /\ Forall nonNegative (fst s4) /\
  Forall nonNegative (fst s5).
Proof.
  destruct stages_shrink as (H1 & H2 & H3 & H4 & H5).
  assert (N1 := shrinks_nonNegative _ _ H1 accounts_nonNegative).
  assert (N2 := shrinks_nonNegative _ _ H2 N1).
  assert (N3 := shrinks_nonNegative _ _ H3 N2).
  assert (N4 := shrinks_nonNegative _ _ H4 N3).
  assert (N5 := shrinks_nonNegative _ _ H5 N4).
  repeat split; assumption.
Qed.

(** What the RRIF step took, and how the later steps account for the
    need. *)
Lemma need_account :
  exists rrifRemaining,
    total (result (snd s1)) + rrifRemaining == rrifMinimum /\
    rrifRemaining <= rrifMinimum /\
    (0 <= rrifMinimum -> 0 <= rrifRemaining) /\
    0 <= total (result (snd s1)) /\
    remainingNeed (snd s1) == Qmax 0 (need0 - total (result (snd s1))) /\
    (0 < rrifRemaining ->
     Forall2 (fun a a' => isPreTax (type a) = true -> balance a' <= 0) accs (fst s1)) /\
    total (result (snd s5)) + remainingNeed (snd s5)
      == total (result (snd s1)) + remainingNeed (snd s1) /\
    0 <= remainingNeed (snd s5) /\
    advances (snd s1) (snd s2) /\ advances (snd s2) (snd s3) /\
    advances (snd s3) (snd s4) /\ advances (snd s4) (snd s5).
Proof.
  destruct stages_nonNegative as (N1 & N2 & N3 & N4 & N5).
  destruct (step1_facts age rrifMinimum accs l0 accounts_nonNegative)
    as (r & (Ha & Hr & Hp & Ht & _ & Hn) & _ & Hdrain).
  cbn [fst snd total result remainingNeed] in Ha, Hr, Hp, Ht, Hn.
  assert (H0 : 0 <= need0) by (minmax_cases; lra).
  specialize (Hn H0).
  destruct (step2_facts age otherIncome (hasSpouse profile) (fst s1) (snd s1))
    as (A2 & B2 & _).
  destruct (step3_facts age (fst s2) (snd s2) N2) as (A3 & B3 & _).
  destruct (step4_facts age (fst s3) (snd s3) N3) as (A4 & B4 & _).
  destruct (step5_facts age (fst s4) (snd s4) N4) as (A5 & B5 & _).
  assert (A : accountsFor (snd s1) (snd s5)).
  { transitivity (snd s2); [exact A2|]. transitivity (snd s3); [exact A3|].
    transitivity (snd s4); [exact A4 | exact A5]. }
  destruct A as [Asum Apos].
  exists r. split; [lra|]. split; [exact Hr|]. split; [exact Hp|]. split; [lra|].
  split.
  { rewrite Hn. minmax_cases; lra. }
  split; [exact Hdrain|]. split; [exact Asum|]. split.
  { apply Apos. rewrite Hn. minmax_cases; lra. }
  repeat split; first [apply B2 | apply B3 | apply B4 | apply B5].
Qed.

Lemma stages_shrink_to_end :
  Forall2 shrinks (fst s1) (fst s5) /\ Forall2 shrinks (fst s2) (fst s5) /\
  Forall2 shrinks (fst s3) (fst s5) /\ Forall2 shrinks (fst s4) (fst s5).
Proof.
  destruct stages_shrink as (_ & H2 & H3 & H4 & H5).
  assert (H35 : Forall2 shrinks (fst s3) (fst s5)) by (etransitivity; eassumption).
  assert (H25 : Forall2 shrinks (fst s2) (fst s5)) by (etransitivity; eassumption).
  assert (H15 : Forall2 shrinks (fst s1) (fst s5)) by (etransitivity; eassumption).
  repeat split; assumption.
Qed.

Lemma needs_descend :
  remainingNeed (snd s5) <= remainingNeed (snd s4) /\
  remainingNeed (snd s4) <= remainingNeed (snd s3) /\
  remainingNeed (snd s3) <= remainingNeed (snd s2) /\
  total (result (snd s1)) <= total (result (snd s5)) /\
  rrspWithdrawal (result (snd s2)) <= rrspWithdrawal (result (snd s5)).
Proof.
  destruct need_account as (r & _ & _ & _ & _ & _ & _ & _ & _ & B2 & B3 & B4 & B5).
  destruct B2 as (? & ? & ? & ? & ?). destruct B3 as (? & ? & ? & ? & ?).
  destruct B4 as (? & ? & ? & ? & ?). destruct B5 as (? & ? & ? & ? & ?).
  repeat split; lra.
Qed.

(** With a need left at the end, every account is empty. *)
Lemma drained_when_need_left :
  0 < remainingNeed (snd s5) -> Forall (fun a => balance a == 0) (fst s5).
Proof.
  intros Hpos.
  destruct stages_nonNegative as (N1 & N2 & N3 & N4 & N5).
  destruct stages_shrink as (_ & _ & H23 & H34 & H45).
  destruct stages_shrink_to_end as (_ & H25 & H35 & _).
  destruct needs_descend as (D5 & D4 & D3 & _).
  destruct (step3_facts age (fst s2) (snd s2) N2) as (_ & _ & E3).
  destruct (step4_facts age (fst s3) (snd s3) N3) as (_ & _ & E4).
  destruct (step5_facts age (fst s4) (snd s4) N4) as (_ & _ & _ & E5).
  specialize (E3 ltac:(lra)). specialize (E4 ltac:(lra)). specialize (E5 Hpos).
  assert (F3 : Forall2 (fun a a' => isTaxFree (type a) = true -> balance a' <= 0)
                 (fst s2) (fst s5)).
  { eapply emptied_stays; [|exact N4|exact H45].
    eapply emptied_stays; [exact E3|exact N3|exact H34]. }
  assert (F4 : Forall2 (fun a a' => isTaxable (type a) = true -> balance a' <= 0)
                 (fst s3) (fst s5)).
  { eapply emptied_stays; [exact E4|exact N4|exact H45]. }
  apply Forall_lookup. intros i a Ha.
  assert (Hnn : 0 <= balance a).
  { rewrite Forall_lookup in N5. apply (N5 i a Ha). }
  assert (exists a2, fst s2 !! i = Some a2 /\ type a = type a2) as (a2 & Ha2 & Ht2).
  { destruct (Forall2_lookup_r _ _ _ _ _ H25 Ha) as (a2 & Ha2 & Hs). exists a2.
    split; [exact Ha2 | apply Hs]. }
  assert (exists a3, fst s3 !! i = Some a3 /\ type a = type a3) as (a3 & Ha3 & Ht3).
  { destruct (Forall2_lookup_r _ _ _ _ _ H35 Ha) as (a3 & Ha3 & Hs). exists a3.
    split; [exact Ha3 | apply Hs]. }
  assert (exists a4, fst s4 !! i = Some a4 /\ type a = type a4) as (a4 & Ha4 & Ht4).
  { destruct (Forall2_lookup_r _ _ _ _ _ H45 Ha) as (a4 & Ha4 & Hs). exists a4.
    split; [exact Ha4 | apply Hs]. }
  pose proof (Forall2_lookup_lr _ _ _ _ _ _ F3 Ha2 Ha) as G3.
  pose proof (Forall2_lookup_lr _ _ _ _ _ _ F4 Ha3 Ha) as G4.
  pose proof (Forall2_lookup_lr _ _ _ _ _ _ E5 Ha4 Ha) as G5.
  cbv beta in G3, G4, G5. rewrite <- Ht2 in G3. rewrite <- Ht3 in G4. rewrite <- Ht4 in G5.
  assert (Hle : balance a <= 0).
  { destruct (type a); first [apply G5; reflexivity | apply G3; reflexivity
                             | apply G4; reflexivity]. }
  lra.
Qed.

(** X10.  On accounts without a negative balance and for a RRIF minimum
    that is not negative, one call withdraws in total no less than 0 and no
    more than the larger of the spending need after other income and the
    RRIF minimum. *)
Theorem withdrawal_never_exceeds_need_and_minimum :
  0 <= rrifMinimum ->
  0 <= total (snd (fst (performTaxOptimizedWithdrawal accs targetSpending rrifMinimum
                          otherIncome profile ages age))) /\
  total (snd (fst (performTaxOptimizedWithdrawal accs targetSpending rrifMinimum
                     otherIncome profile ages age)))
    <= Qmax need0 rrifMinimum.
Proof.
  intros Hmin. rewrite outcome_is_s5. cbn [fst snd].
  destruct need_account as (r & Ha & Hr & Hp & Ht & Hn & _ & Hsum & Hpos & _).
  destruct needs_descend as (_ & _ & _ & Hup & _).
  specialize (Hp Hmin). split; [lra|].
  revert Hn. minmax_deep; lra.
Qed.

Lemma shortfall_drains :
  total (snd (fst outcome)) < need0 ->
  Forall (fun a => balance a == 0) (fst (fst outcome)).
Proof.
  rewrite outcome_is_s5. cbn [fst snd]. intros Hshort.
  apply drained_when_need_left.
  destruct need_account as (r & _ & _ & _ & Ht & Hn & _ & Hsum & _).
  revert Hn Hshort. minmax_deep; lra.
Qed.

(** X11.  On accounts without a negative balance, if one call withdraws
    less in total than the spending need after other income, then it has
    left every account with a balance of zero. *)
Theorem shortfall_only_when_everything_is_withdrawn :
  total (snd (fst (performTaxOptimizedWithdrawal accs targetSpending rrifMinimum
                     otherIncome profile ages age))) < need0 ->
  Forall (fun a => balance a == 0)
    (fst (fst (performTaxOptimizedWithdrawal accs targetSpending rrifMinimum
                 otherIncome profile ages age))).
Proof. exact shortfall_drains. Qed.

(** X12.  On accounts without a negative balance, one call takes from a
    tax-free or a taxable account only if, at its end, the tax-deferred
    withdrawals and the other income together reach the household bracket
    ceiling, or every tax-deferred account is empty. *)
Theorem sheltered_accounts_wait_for_bracket_fill :
  0 < taxFreeWithdrawal
        (snd (fst (performTaxOptimizedWithdrawal accs targetSpending rrifMinimum
                     otherIncome profile ages age)))
  \/ 0 < taxableWithdrawal
           (snd (fst (performTaxOptimizedWithdrawal accs targetSpending rrifMinimum
                        otherIncome profile ages age))) ->
  householdBracketCap (hasSpouse profile)
    <= rrspWithdrawal
         (snd (fst (performTaxOptimizedWithdrawal accs targetSpending rrifMinimum
                      otherIncome profile ages age)))
       + otherIncome
  \/ Forall (fun a => isPreTax (type a) = true -> balance a <= 0)
       (fst (fst (performTaxOptimizedWithdrawal accs targetSpending rrifMinimum
                    otherIncome profile ages age))).
Proof.
  rewrite outcome_is_s5. cbn [fst snd]. intros Htouched.
  destruct stages_nonNegative as (N1 & N2 & N3 & N4 & N5).
  destruct (step1_facts age rrifMinimum accs l0 accounts_nonNegative)
    as (r & _ & (O1a & O1b & _) & _).
  destruct (step2_facts age otherIncome (hasSpouse profile) (fst s1) (snd s1))
    as (_ & _ & (O2a & O2b & _) & Hfill).
  cbn [taxFreeWithdrawal taxableWithdrawal result] in O1a, O1b.
  assert (Hneed : 0 < remainingNeed (snd s2)).
  { destruct (Qlt_le_dec 0 (remainingNeed (snd s2))) as [Hpos|Hmet]; [exact Hpos|].
    exfalso.
    destruct (steps_after_need_met age (fst s2) (snd s2) Hmet) as (E3 & E4 & E5).
    revert Htouched. rewrite E3. cbn [fst snd]. rewrite E4. cbn [fst snd].
    rewrite E5. cbn [fst snd]. rewrite O2a, O2b, O1a, O1b. intros [H|H]; lra. }
  destruct (Hfill Hneed) as [Hcap|Hempty].
  - left. destruct needs_descend as (_ & _ & _ & _ & Hup). lra.
  - right.
    destruct stages_shrink_to_end as (H15 & H25 & _).
    pose proof (emptied_stays _ _ _ _ Hempty N2 H25) as F.
    apply Forall_lookup. intros i a Ha Hk.
    destruct (Forall2_lookup_r _ _ _ _ _ H15 Ha) as (a1 & Ha1 & Hs).
    pose proof (Forall2_lookup_lr _ _ _ _ _ _ F Ha1 Ha) as G. cbv beta in G.
    apply G. destruct Hs as (_ & Ht & _). rewrite <- Ht. exact Hk.
Qed.

Lemma minimum_taken :
  rrifMinimum <= sumBalances (List.filter (fun a => isPreTax (type a)) accs) ->
  rrifMinimum <= total (snd (fst outcome)).
Proof.
  intros Hpool. rewrite outcome_is_s5. cbn [fst snd].
  destruct need_account as (r & Ha & _ & _ & _ & _ & Hdrain & _).
  destruct needs_descend as (_ & _ & _ & Hup & _).
  destruct (Qlt_le_dec 0 r) as [Hleft|Hdone]; [|lra].
  specialize (Hdrain Hleft).
  destruct stages_nonNegative as (N1 & _).
  pose proof (pool_emptied (fun a => isPreTax (type a)) accs (fst s1) Hdrain
                (step1_unselected age rrifMinimum accs l0) N1) as Hp.
  pose proof (step1_sum age rrifMinimum accs l0) as Hs.
  cbn [total result] in Hs. lra.
Qed.

(** X13.  On accounts without a negative balance, a RRIF minimum that the
    tax-deferred balances can pay is withdrawn in full, whatever the
    spending need: the total withdrawn is at least the minimum. *)
Theorem rrif_minimum_is_always_withdrawn :
  rrifMinimum <= sumBalances (List.filter (fun a => isPreTax (type a)) accs) ->
  rrifMinimum
    <= total (snd (fst (performTaxOptimizedWithdrawal accs targetSpending rrifMinimum
                          otherIncome profile ages age))).
Proof. exact minimum_taken. Qed.
End WithdrawalMore.

Lemma withdrawal_never_exceeds_need_and_minimum_witness :
  let out :=
    performTaxOptimizedWithdrawal twoShelters 120000 0 0 scenarioA_profile ∅ 65 in
  0 <= total (snd (fst out)) /\ total (snd (fst out)) <= 120000.
Proof.
  intros out.
  assert (Hnn : Forall nonNegative twoShelters).
  { apply List.Forall_cons; [vm_compute; discriminate|].
    apply List.Forall_cons; [vm_compute; discriminate | apply List.Forall_nil]. }
  assert (Hmin : 0 <= 0) by (vm_compute; discriminate).
  exact (withdrawal_never_exceeds_need_and_minimum twoShelters 120000 0 0 scenarioA_profile
           ∅ 65 Hnn Hmin).
Defined.

Lemma shortfall_only_when_everything_is_withdrawn_witness :
  let out := performTaxOptimizedWithdrawal smallPot 5000 0 0 spendItAll_profile ∅ 65 in
  total (snd (fst out)) < 5000 /\ Forall (fun a => balance a == 0) (fst (fst out)).
Proof.
  intros out.
  assert (Hnn : Forall nonNegative smallPot).
  { apply List.Forall_cons; [vm_compute; discriminate | apply List.Forall_nil]. }
  assert (Hshort : total (snd (fst out)) < Qmax 0 (5000 - 0)) by (vm_compute; reflexivity).
  split; [vm_compute; reflexivity|].
  exact (shortfall_only_when_everything_is_withdrawn smallPot 5000 0 0 spendItAll_profile
           ∅ 65 Hnn Hshort).
Defined.

Lemma sheltered_accounts_wait_for_bracket_fill_witness :
  let out :=
    performTaxOptimizedWithdrawal twoShelters 120000 0 0 scenarioA_profile ∅ 65 in
  0 < taxFreeWithdrawal (snd (fst out)) /\
  (householdBracketCap false <= rrspWithdrawal (snd (fst out)) + 0 \/
   Forall (fun a => isPreTax (type a) = true -> balance a <= 0) (fst (fst out))).
Proof.
  intros out.
  assert (Hnn : Forall nonNegative twoShelters).
  { apply List.Forall_cons; [vm_compute; discriminate|].
    apply List.Forall_cons; [vm_compute; discriminate | apply List.Forall_nil]. }
  assert (Htouched : 0 < taxFreeWithdrawal (snd (fst out))) by (vm_compute; reflexivity).
  split; [exact Htouched|].
  exact (sheltered_accounts_wait_for_bracket_fill twoShelters 120000 0 0 scenarioA_profile
           ∅ 65 Hnn (or_introl Htouched)).
Defined.

Lemma rrif_minimum_is_always_withdrawn_witness :
  27000 <= sumBalances (List.filter (fun a => isPreTax (type a)) twoShelters) /\
  27000 <= total (snd (fst (performTaxOptimizedWithdrawal twoShelters 0 27000 0
                              scenarioA_profile ∅ 72))).
Proof.
  assert (Hnn : Forall nonNegative twoShelters).
  { apply List.Forall_cons; [vm_compute; discriminate|].
    apply List.Forall_cons; [vm_compute; discriminate | apply List.Forall_nil]. }
  assert (Hpool : 27000 <= sumBalances (List.filter (fun a => isPreTax (type a)) twoShelters))
    by (vm_compute; discriminate).
  split; [exact Hpool|].
  exact (rrif_minimum_is_always_withdrawn twoShelters 0 27000 0 scenarioA_profile ∅ 72
           Hnn Hpool).
Defined.

(** * Further properties of the simulated years *)

(** What a year records and leaves, field by field. *)
Lemma simulateYear_fields currentYear profile assumptions i st :
  exists spouseAge primaryCppOas spouseCppOas,
    let now := (retirementAge profile + i)%Z in
    let rrifMinimum :=
      calculateRRIFMinimum now (sumBalances (preTaxOf owner_primary (accountStates st)))
      + calculateRRIFMinimum spouseAge
          (sumBalances (preTaxOf owner_spouse (accountStates st))) in
    let otherIncome := primaryCppOas + spouseCppOas in
    let out :=
      performTaxOptimizedWithdrawal (accountStates st) (simTargetSpending st)
        rrifMinimum otherIncome profile (simAccountDepletionAges st) now in
    let rec := yearRecord currentYear profile assumptions i st in
    let st' := yearStep currentYear profile assumptions i st in
    age rec = now /\
    year rec = (currentYear + (retirementAge profile - currentAge profile) + i)%Z /\
    withdrawals rec = byAccount (snd (fst out)) /\
    totalWithdrawal rec = total (snd (fst out)) /\
    cppOasIncome rec = otherIncome /\
    grossIncome rec = total (snd (fst out)) + otherIncome /\
    targetSpending rec = simTargetSpending st /\
    rmdAmount rec = rrifMinimum /\
    remainingBalances rec = recordBalances (accountStates st') /\
    totalRemainingBalance rec = sumBalances (accountStates st') /\
    afterTaxIncome rec = grossIncome rec - totalTax rec /\
    accountStates st' = map (applyReturn assumptions) (fst (fst out)) /\
    simTargetSpending st' = simTargetSpending st * (1 + inflationRate assumptions) /\
    simLifetimeTaxesPaid st' = simLifetimeTaxesPaid st + totalTax rec /\
    simAccountDepletionAges st' = snd out /\
    (exists y1 g1 r1 y2 g2 r2,
       federalTax rec
       = calculateTotalFederalTax y1 g1 single + calculateTotalFederalTax y2 g2 single /\
       provincialTax rec = calculateProvincialTax y1 g1 r1 + calculateProvincialTax y2 g2 r2 /\
       totalTax rec
       = calculateTotalFederalTax y1 g1 single + calculateProvincialTax y1 g1 r1
         + calculateTotalFederalTax y2 g2 single + calculateProvincialTax y2 g2 r2).
Proof.
  unfold yearRecord, yearStep, simulateYear. cbv zeta.
  match goal with
  | |- context [performTaxOptimizedWithdrawal _ _
                  (calculateRRIFMinimum _ _ + calculateRRIFMinimum ?sa _) (?p + ?s) _ _ _] =>
      exists sa, p, s
  end.
  destruct (performTaxOptimizedWithdrawal _ _ _ _ _ _ _) as [[accs w] d].
  cbn [fst snd age year withdrawals totalWithdrawal cppOasIncome grossIncome
       targetSpending rmdAmount remainingBalances totalRemainingBalance afterTaxIncome
       totalTax federalTax provincialTax accountStates simTargetSpending
       simLifetimeTaxesPaid simAccountDepletionAges].
  do 15 (split; [reflexivity|]).
  do 6 eexists. repeat split; reflexivity.
Qed.

Lemma applyReturn_sum assumptions accs :
  sumBalances (map (applyReturn assumptions) accs)
  == sumBalances accs * (1 + retirementReturnRate assumptions).
Proof.
  induction accs as [|a rest IH]; [reflexivity|].
  cbn [map]. rewrite !sumBalances_cons, IH. cbn. ring.
Qed.

Lemma preTax_pools accs :
  sumBalances (preTaxOf owner_primary accs) + sumBalances (preTaxOf owner_spouse accs)
  == sumBalances (List.filter (fun a => isPreTax (type a)) accs).
Proof.
  unfold preTaxOf. induction accs as [|a rest IH]; [reflexivity|].
  cbn [List.filter].
  destruct (owner a), (isPreTax (type a)); cbn [isOwner andb];
    rewrite ?sumBalances_cons; lra.
Qed.

Lemma filter_nonNegative (sel : AccountState -> bool) accs :
  Forall nonNegative accs -> Forall nonNegative (List.filter sel accs).
Proof.
  intros H. apply List.Forall_forall. intros a Ha.
  apply List.filter_In in Ha as [Ha _].
  rewrite List.Forall_forall in H. auto.
Qed.

(** The RRIF minimum of a year, whatever the ages, is not negative and can
    be paid from the tax-deferred balances. *)
Lemma yearly_minimum_payable accs a1 a2 :
  Forall nonNegative accs ->
  let m := calculateRRIFMinimum a1 (sumBalances (preTaxOf owner_primary accs))
           + calculateRRIFMinimum a2 (sumBalances (preTaxOf owner_spouse accs)) in
  0 <= m /\ m <= sumBalances (List.filter (fun a => isPreTax (type a)) accs).
Proof.
  intros Hnn m. subst m.
  assert (H1 : 0 <= sumBalances (preTaxOf owner_primary accs))
    by (apply sumBalances_nonneg, filter_nonNegative, Hnn).
  assert (H2 : 0 <= sumBalances (preTaxOf owner_spouse accs))
    by (apply sumBalances_nonneg, filter_nonNegative, Hnn).
  pose proof (calculateRRIFMinimum_nonneg a1 _ H1).
  pose proof (calculateRRIFMinimum_nonneg a2 _ H2).
  assert (B : forall a b, 0 <= b -> calculateRRIFMinimum a b <= b).
  { intros a b Hb. unfold calculateRRIFMinimum.
    destruct (a <? RRIF_START_AGE)%Z; [exact Hb|].
    destruct (getRRIFFactor_bounds a) as [Hup _].
    pose proof (getRRIFFactor_nonneg a). nra. }
  pose proof (B a1 _ H1). pose proof (B a2 _ H2).
  rewrite <- preTax_pools. split; lra.
Qed.

Section YearsMore.
Variable currentYear : Z.
Variable accounts : list Account.
Variable profile : Profile.
Variable assumptions : Assumptions.
Variable accumulationResult : AccumulationResult.

Abbreviation stateAtYear := (stateAt currentYear accounts profile assumptions accumulationResult).
Abbreviation outcomeOf :=
  (calculateWithdrawals currentYear accounts profile assumptions accumulationResult).

(** X14.  Every year's recorded total balance is what the accounts held
    when the year started, less the year's total withdrawal, grown by the
    retirement return. *)
Theorem yearly_balance_sheet k rec :
  yearlyWithdrawals
    (calculateWithdrawals currentYear accounts profile assumptions accumulationResult)
    !! k = Some rec ->
  totalRemainingBalance rec
  == (sumBalances (accountStates (stateAtYear k)) - totalWithdrawal rec)
     * (1 + retirementReturnRate assumptions).
Proof.
  intros Hrec. apply calculateWithdrawals_record_of in Hrec as [_ ->].
  destruct (simulateYear_fields currentYear profile assumptions (Z.of_nat k) (stateAtYear k))
    as (sa & p & s & _ & _ & _ & Ht & _ & _ & _ & _ & _ & Hb & _ & Ha & _).
  cbv zeta in Ht, Hb, Ha. rewrite Hb, Ha, Ht, applyReturn_sum.
  pose proof (withdrawal_sum (accountStates (stateAtYear k))
                (simTargetSpending (stateAtYear k))
                (calculateRRIFMinimum (retirementAge profile + Z.of_nat k)
                   (sumBalances (preTaxOf owner_primary (accountStates (stateAtYear k))))
                 + calculateRRIFMinimum sa
                     (sumBalances (preTaxOf owner_spouse (accountStates (stateAtYear k)))))
                (p + s) profile (simAccountDepletionAges (stateAtYear k))
                (retirementAge profile + Z.of_nat k)%Z) as Hsum.
  cbv zeta in Hsum.
  set (out := performTaxOptimizedWithdrawal _ _ _ _ _ _ _) in *.
  assert (E : sumBalances (fst (fst out))
              == sumBalances (accountStates (stateAtYear k)) - total (snd (fst out)))
    by lra.
  rewrite E. reflexivity.
Qed.
End YearsMore.

Lemma yearly_balance_sheet_witness :
  let rec :=
    yearRecord 2026 scenarioA_profile scenarioA_assumptions 0
      (initSim scenarioA_accounts scenarioA_assumptions scenarioA_accumulation) in
  totalRemainingBalance rec == (600000 - totalWithdrawal rec) * (1 + 0).
Proof.
  intros rec.
  assert (Hrec : yearlyWithdrawals
                   (calculateWithdrawals 2026 scenarioA_accounts scenarioA_profile
                      scenarioA_assumptions scenarioA_accumulation) !! 0%nat = Some rec)
    by (vm_compute; reflexivity).
  exact (yearly_balance_sheet 2026 scenarioA_accounts scenarioA_profile scenarioA_assumptions
           scenarioA_accumulation 0%nat rec Hrec).
Defined.

Lemma taxesOf_snoc records rec : taxesOf (records ++ [rec]) == taxesOf records + totalTax rec.
Proof.
  unfold taxesOf. induction records as [|r rest IH]; simpl; [ring|].
  rewrite IH. ring.
Qed.

Lemma federal_nonneg y g s : 0 <= calculateTotalFederalTax y g s.
Proof. rewrite federal_as_floor. minmax_cases; lra. Qed.

Lemma provincial_nonneg y g r : 0 <= calculateProvincialTax y g r.
Proof. apply (provincial_mono_in_income y g r y g r). lra. Qed.

Section YearsSchedule.
Variable currentYear : Z.
Variable accounts : list Account.
Variable profile : Profile.
Variable assumptions : Assumptions.
Variable accumulationResult : AccumulationResult.

Abbreviation stateAtYear := (stateAt currentYear accounts profile assumptions accumulationResult).
Abbreviation outcomeOf :=
  (calculateWithdrawals currentYear accounts profile assumptions accumulationResult).

Lemma target_at k :
  simTargetSpending (stateAtYear k)
  == totalAtRetirement accumulationResult * safeWithdrawalRate assumptions
     * (1 + inflationRate assumptions) ^ Z.of_nat k.
Proof.
  induction k as [|k IH]; [simpl; ring|].
  rewrite stateAt_succ.
  destruct (simulateYear_fields currentYear profile assumptions (Z.of_nat k) (stateAtYear k))
    as (sa & p & s & F). cbv zeta in F.
  destruct F as (_ & _ & _ & _ & _ & _ & _ & _ & _ & _ & _ & _ & Ht & _).
  rewrite Ht, IH.
  replace (Z.of_nat (S k)) with (Z.of_nat k + 1)%Z by lia.
  rewrite Qpower_plus' by lia. rewrite Qpower_1_r. ring.
Qed.

Lemma taxes_at k :
  simLifetimeTaxesPaid (stateAtYear k) == taxesOf (simYearlyWithdrawals (stateAtYear k)).
Proof.
  induction k as [|k IH]; [reflexivity|].
  rewrite stateAt_succ, yearStep_records, taxesOf_snoc.
  destruct (simulateYear_fields currentYear profile assumptions (Z.of_nat k) (stateAtYear k))
    as (sa & p & s & F). cbv zeta in F.
  destruct F as (_ & _ & _ & _ & _ & _ & _ & _ & _ & _ & _ & _ & _ & Hl & _).
  rewrite Hl, IH. reflexivity.
Qed.

(** X15.  The result holds one record for every age from the retirement
    age to the life expectancy; the record at position [k] carries the age
    and the calendar year [k] years after retirement, and as target
    spending the portfolio value at retirement times the safe withdrawal
    rate, grown by the inflation rate [k] times. *)
Theorem yearly_records_follow_the_schedule :
  length (yearlyWithdrawals
            (calculateWithdrawals currentYear accounts profile assumptions
               accumulationResult))
  = Z.to_nat (lifeExpectancy profile - retirementAge profile + 1) /\
  forall k rec,
    yearlyWithdrawals
      (calculateWithdrawals currentYear accounts profile assumptions accumulationResult)
      !! k = Some rec ->
    age rec = (retirementAge profile + Z.of_nat k)%Z /\
    (age rec <= lifeExpectancy profile)%Z /\
    year rec
    = (currentYear + (retirementAge profile - currentAge profile) + Z.of_nat k)%Z /\
    targetSpending rec
    == totalAtRetirement accumulationResult * safeWithdrawalRate assumptions
       * (1 + inflationRate assumptions) ^ Z.of_nat k.
Proof.
  split; [apply calculateWithdrawals_record_count|].
  intros k rec Hrec. apply calculateWithdrawals_record_of in Hrec as [Hk ->].
  destruct (simulateYear_fields currentYear profile assumptions (Z.of_nat k) (stateAtYear k))
    as (sa & p & s & F). cbv zeta in F.
  destruct F as (Hage & Hyear & _ & _ & _ & _ & Htarget & _).
  rewrite Hage, Hyear, Htarget.
  split; [reflexivity|]. split; [unfold tripCount in Hk; lia|].
  split; [reflexivity | apply target_at].
Qed.

(** X16.  The lifetime taxes of the result are the sum of the yearly total
    taxes; in every record neither tax is negative, the total tax is the
    federal plus the provincial tax, and the after-tax income is the gross
    income less the total tax, so never more than the gross income. *)
Theorem lifetime_taxes_add_up :
  lifetimeTaxesPaid
    (calculateWithdrawals currentYear accounts profile assumptions accumulationResult)
  == taxesOf (yearlyWithdrawals
                (calculateWithdrawals currentYear accounts profile assumptions
                   accumulationResult)) /\
  forall rec,
    rec ∈ yearlyWithdrawals
            (calculateWithdrawals currentYear accounts profile assumptions
               accumulationResult) ->
    0 <= federalTax rec /\ 0 <= provincialTax rec /\
    totalTax rec == federalTax rec + provincialTax rec /\
    afterTaxIncome rec == grossIncome rec - totalTax rec /\
    afterTaxIncome rec <= grossIncome rec.
Proof.
  split; [apply taxes_at|].
  intros rec Hin. apply list_elem_of_lookup in Hin as [k Hk].
  apply calculateWithdrawals_record_of in Hk as [_ ->].
  destruct (simulateYear_fields currentYear profile assumptions (Z.of_nat k) (stateAtYear k))
    as (sa & p & s & F). cbv zeta in F.
  destruct F as (_ & _ & _ & _ & _ & _ & _ & _ & _ & _ & Hafter & _ & _ & _ & _ & Htax).
  destruct Htax as (y1 & g1 & r1 & y2 & g2 & r2 & Hf & Hp & Ht).
  rewrite Hafter, Hf, Hp, Ht.
  pose proof (federal_nonneg y1 g1 single). pose proof (federal_nonneg y2 g2 single).
  pose proof (provincial_nonneg y1 g1 r1). pose proof (provincial_nonneg y2 g2 r2).
  repeat split; lra.
Qed.
End YearsSchedule.

Section YearsNonNegative.
Variable currentYear : Z.
Variable accounts : list Account.
Variable profile : Profile.
Variable assumptions : Assumptions.
Variable accumulationResult : AccumulationResult.

Hypothesis initial_balances :
  forall account, account ∈ accounts ->
    0 <= getOr0 (finalBalances accumulationResult) (account_id account).
Hypothesis return_rate : -1 <= retirementReturnRate assumptions.

Abbreviation stateAtYear := (stateAt currentYear accounts profile assumptions accumulationResult).
Abbreviation outcomeOf :=
  (calculateWithdrawals currentYear accounts profile assumptions accumulationResult).

(** X17.  If no account starts with a negative balance and the return rate
    is at least -1, every year's mandatory minimum is not negative and is
    withdrawn in full: the year's total withdrawal is at least the recorded
    minimum, whatever the spending need. *)
Theorem mandatory_minimum_withdrawn_every_year k rec :
  yearlyWithdrawals
    (calculateWithdrawals currentYear accounts profile assumptions accumulationResult)
    !! k = Some rec ->
  0 <= rmdAmount rec /\ rmdAmount rec <= totalWithdrawal rec.
Proof.
  intros Hrec. apply calculateWithdrawals_record_of in Hrec as [_ ->].
  destruct (stateAt_accounts currentYear accounts profile assumptions accumulationResult
              initial_balances return_rate k) as [Hnn _].
  destruct (simulateYear_fields currentYear profile assumptions (Z.of_nat k) (stateAtYear k))
    as (sa & p & s & F). cbv zeta in F.
  destruct F as (_ & _ & _ & Ht & _ & _ & _ & Hm & _).
  rewrite Hm, Ht.
  destruct (yearly_minimum_payable (accountStates (stateAtYear k))
              (retirementAge profile + Z.of_nat k)%Z sa Hnn) as [H0 Hpool].
  split; [exact H0|].
  apply minimum_taken; assumption.
Qed.

(** X18.  If no account starts with a negative balance and the return rate
    is at least -1, a year whose gross income falls short of its target
    spending leaves every account at a balance of zero. *)
Theorem income_covers_target_while_money_lasts k rec :
  yearlyWithdrawals
    (calculateWithdrawals currentYear accounts profile assumptions accumulationResult)
    !! k = Some rec ->
  grossIncome rec < targetSpending rec ->
  forall key v, remainingBalances rec !! key = Some v -> v == 0.
Proof.
  intros Hrec. apply calculateWithdrawals_record_of in Hrec as [_ ->].
  destruct (stateAt_accounts currentYear accounts profile assumptions accumulationResult
              initial_balances return_rate k) as [Hnn _].
  destruct (simulateYear_fields currentYear profile assumptions (Z.of_nat k) (stateAtYear k))
    as (sa & p & s & F). cbv zeta in F.
  destruct F as (_ & _ & _ & _ & _ & Hg & Htarget & _ & Hrem & _ & _ & Haccs & _).
  rewrite Hg, Htarget, Hrem, Haccs. intros Hshort key v Hv.
  apply recordBalances_values in Hv as [Hv|(acc & Hin & <-)].
  { rewrite lookup_empty in Hv. discriminate. }
  apply list_elem_of_fmap in Hin as (acc0 & -> & Hin0).
  set (out := performTaxOptimizedWithdrawal _ _ _ _ _ _ _) in *.
  assert (Hdrained : Forall (fun a => balance a == 0) (fst (fst out))).
  { apply shortfall_drains; [exact Hnn|]. fold out.
    revert Hshort. minmax_cases; lra. }
  rewrite Forall_forall in Hdrained. specialize (Hdrained acc0 Hin0).
  cbn. rewrite Hdrained. ring.
Qed.
End YearsNonNegative.

Lemma yearly_records_follow_the_schedule_witness :
  let rec :=
    yearRecord 2026 scenarioA_profile scenarioA_assumptions 1
      (stateAt 2026 scenarioA_accounts scenarioA_profile scenarioA_assumptions
         scenarioA_accumulation 1) in
  age rec = 66%Z /\ (age rec <= 66)%Z /\ year rec = 2027%Z /\
  targetSpending rec == 600000 * (4 # 100) * (1 + 0) ^ 1.
Proof.
  intros rec.
  assert (Hrec : yearlyWithdrawals
                   (calculateWithdrawals 2026 scenarioA_accounts scenarioA_profile
                      scenarioA_assumptions scenarioA_accumulation) !! 1%nat = Some rec)
    by (vm_compute; reflexivity).
  exact (proj2 (yearly_records_follow_the_schedule 2026 scenarioA_accounts scenarioA_profile
                  scenarioA_assumptions scenarioA_accumulation) 1%nat rec Hrec).
Defined.

Lemma lifetime_taxes_add_up_witness :
  let rec :=
    yearRecord 2026 scenarioA_profile scenarioA_assumptions 0
      (initSim scenarioA_accounts scenarioA_assumptions scenarioA_accumulation) in
  0 <= federalTax rec /\ 0 <= provincialTax rec /\
  totalTax rec == federalTax rec + provincialTax rec /\
  afterTaxIncome rec == grossIncome rec - totalTax rec /\
  afterTaxIncome rec <= grossIncome rec.
Proof.
  intros rec.
  assert (Hin : rec ∈ yearlyWithdrawals
                  (calculateWithdrawals 2026 scenarioA_accounts scenarioA_profile
                     scenarioA_assumptions scenarioA_accumulation)).
  { apply list_elem_of_lookup. exists 0%nat. vm_compute. reflexivity. }
  exact (proj2 (lifetime_taxes_add_up 2026 scenarioA_accounts scenarioA_profile
                  scenarioA_assumptions scenarioA_accumulation) rec Hin).
Defined.

Lemma mandatory_minimum_withdrawn_every_year_witness :
  let rec :=
    yearRecord 2026 lateRetiree_profile lateRetiree_assumptions 0
      (initSim lateRetiree_accounts lateRetiree_assumptions lateRetiree_accumulation) in
  rmdAmount rec == 5400 /\ 0 <= rmdAmount rec /\ rmdAmount rec <= totalWithdrawal rec.
Proof.
  intros rec.
  assert (Hinit : forall account, account ∈ lateRetiree_accounts ->
             0 <= getOr0 (finalBalances lateRetiree_accumulation) (account_id account)).
  { intros account Hin. unfold lateRetiree_accounts in Hin.
    apply elem_of_cons in Hin as [->|Hin]; [vm_compute; discriminate | inversion Hin]. }
  assert (Hrate : -1 <= retirementReturnRate lateRetiree_assumptions)
    by (vm_compute; discriminate).
  assert (Hrec : yearlyWithdrawals
                   (calculateWithdrawals 2026 lateRetiree_accounts lateRetiree_profile
                      lateRetiree_assumptions lateRetiree_accumulation) !! 0%nat = Some rec)
    by (vm_compute; reflexivity).
  split; [vm_compute; reflexivity|].
  exact (mandatory_minimum_withdrawn_every_year 2026 lateRetiree_accounts lateRetiree_profile
           lateRetiree_assumptions lateRetiree_accumulation Hinit Hrate 0%nat rec Hrec).
Defined.

Lemma income_covers_target_while_money_lasts_witness :
  let rec :=
    yearRecord 2026 spendItAll_profile spendItAll_assumptions 1
      (stateAt 2026 spendItAll_accounts spendItAll_profile spendItAll_assumptions
         spendItAll_accumulation 1) in
  grossIncome rec < targetSpending rec /\
  exists v, remainingBalances rec !! "rrsp" = Some v /\ v == 0.
Proof.
  intros rec.
  assert (Hinit : forall account, account ∈ spendItAll_accounts ->
             0 <= getOr0 (finalBalances spendItAll_accumulation) (account_id account)).
  { intros account Hin. unfold spendItAll_accounts in Hin.
    apply elem_of_cons in Hin as [->|Hin]; [vm_compute; discriminate | inversion Hin]. }
  assert (Hrate : -1 <= retirementReturnRate spendItAll_assumptions)
    by (vm_compute; discriminate).
  assert (Hrec : yearlyWithdrawals
                   (calculateWithdrawals 2026 spendItAll_accounts spendItAll_profile
                      spendItAll_assumptions spendItAll_accumulation) !! 1%nat = Some rec)
    by (vm_compute; reflexivity).
  assert (Hshort : grossIncome rec < targetSpending rec) by (vm_compute; reflexivity).
  split; [exact Hshort|].
  destruct (remainingBalances rec !! "rrsp") as [v|] eqn:Hv; [|vm_compute in Hv; discriminate].
  exists v. split; [reflexivity|].
  exact (income_covers_target_while_money_lasts 2026 spendItAll_accounts spendItAll_profile
           spendItAll_assumptions spendItAll_accumulation Hinit Hrate 1%nat rec Hrec Hshort
           "rrsp" v Hv).
Defined.

(** ** Where and when depletion ages are set *)

Lemma setsOnly_preorder age : PreOrder (setsOnly age).
Proof.
  split.
  - intros m key. left. reflexivity.
  - intros m1 m2 m3 H12 H23 key.
    destruct (H12 key) as [E12|[N12 S12]], (H23 key) as [E23|[N23 S23]].
    + left. congruence.
    + right. split; congruence.
    + right. split; congruence.
    + congruence.
Qed.

Lemma markDepleted_setsOnly acc age ages : setsOnly age ages (markDepleted acc age ages).
Proof.
  unfold markDepleted. intros key.
  destruct (Qleb (balance acc) 0); simpl; [|left; reflexivity].
  destruct (ages !! id acc) as [[old|]|] eqn:Hold; simpl; try (left; reflexivity).
  destruct (decide (id acc = key)) as [<-|Hne].
  - right. split; [exact Hold | apply lookup_insert_eq].
  - left. apply lookup_insert_ne, Hne.
Qed.

Lemma bodies_setOnly age :
  (forall acc s, setsOnly age (depletionAges (snd s))
                   (depletionAges (snd (snd (rrifBody age acc s))))) /\
  (forall otherIncome sp acc l,
     setsOnly age (depletionAges l)
       (depletionAges (snd (bracketFillBody age otherIncome sp acc l)))) /\
  (forall acc l, setsOnly age (depletionAges l) (depletionAges (snd (taxFreeBody age acc l)))) /\
  (forall acc l, setsOnly age (depletionAges l) (depletionAges (snd (taxableBody age acc l)))) /\
  (forall acc l, setsOnly age (depletionAges l) (depletionAges (snd (extraRRSPBody age acc l)))).
Proof.
  split; [|split; [|split; [|split]]].
  - intros acc [r l]. apply markDepleted_setsOnly.
  - intros otherIncome sp acc l. unfold bracketFillBody. cbv zeta.
    destruct (Qltb 0 _); [apply markDepleted_setsOnly | intros key; left; reflexivity].
  - intros acc l. apply markDepleted_setsOnly.
  - intros acc l. apply markDepleted_setsOnly.
  - intros acc l. apply markDepleted_setsOnly.
Qed.

Lemma withdrawal_setsOnly accs targetSpending rrifMinimum otherIncome profile ages age :
  setsOnly age ages
    (snd (performTaxOptimizedWithdrawal accs targetSpending rrifMinimum otherIncome profile
            ages age)).
Proof.
  destruct (bodies_setOnly age) as (B1 & B2 & B3 & B4 & B5).
  pose proof (setsOnly_preorder age) as Hpre.
  pose proof (preorder_on depletionAges (setsOnly age)) as HpreL.
  pose proof (preorder_on (fun s : Q * Ledger => depletionAges (snd s)) (setsOnly age))
    as HpreS.
  rewrite performTaxOptimizedWithdrawal_steps. cbv zeta. cbn [fst snd].
  set (l0 := mkLedger _ _ ages).
  set (s1 := step1 age rrifMinimum accs l0).
  set (s2 := step2 age otherIncome (hasSpouse profile) (fst s1) (snd s1)).
  set (s3 := step3 age (fst s2) (snd s2)).
  set (s4 := step4 age (fst s3) (snd s3)).
  change ages with (depletionAges l0) at 1.
  transitivity (depletionAges (snd s1)).
  { unfold s1, step1.
    pose proof (forAccounts_state (fun acc => isPreTax (type acc)) rrifDone (rrifBody age)
                  (fun s s' => setsOnly age (depletionAges (snd s)) (depletionAges (snd s')))
                  (fun acc s _ _ => B1 acc s) accs (rrifMinimum, l0)) as H.
    destruct (forAccounts _ _ _ _ _) as [accs' [r l']]. exact H. }
  transitivity (depletionAges (snd s2)).
  { unfold s2, step2.
    apply (forAccounts_state _ _ _ (fun l l' => setsOnly age (depletionAges l) (depletionAges l'))).
    intros. apply B2. }
  transitivity (depletionAges (snd s3)).
  { unfold s3, step3.
    apply (forAccounts_state _ _ _ (fun l l' => setsOnly age (depletionAges l) (depletionAges l'))).
    intros. apply B3. }
  transitivity (depletionAges (snd s4)).
  { unfold s4, step4.
    apply (forAccounts_state _ _ _ (fun l l' => setsOnly age (depletionAges l) (depletionAges l'))).
    intros. apply B4. }
  unfold step5. destruct (Qltb 0 (remainingNeed (snd s4))); [|reflexivity].
  apply (forAccounts_state _ _ _ (fun l l' => setsOnly age (depletionAges l) (depletionAges l'))).
  intros. apply B5.
Qed.

Lemma initDepletionAges_lookup accounts : forall (m : gmap string (option Z)) key,
  fold_left (fun m account => <[account_id account := None]> m) accounts m !! key
  = if decide (key ∈ map account_id accounts) then Some None else m !! key.
Proof.
  induction accounts as [|a rest IH]; intros m key; simpl.
  - destruct (decide (key ∈ [])) as [Hin|_]; [inversion Hin | reflexivity].
  - rewrite IH.
    destruct (decide (key ∈ map account_id rest)) as [Hin|Hnot].
    + rewrite decide_True by (right; exact Hin). reflexivity.
    + destruct (decide (account_id a = key)) as [<-|Hne].
      * rewrite decide_True by left. apply lookup_insert_eq.
      * rewrite lookup_insert_ne by exact Hne.
        rewrite decide_False; [reflexivity|].
        intros Hin. apply elem_of_cons in Hin as [Heq|Hin]; [congruence | tauto].
Qed.

Section YearsDepletion.
Variable currentYear : Z.
Variable accounts : list Account.
Variable profile : Profile.
Variable assumptions : Assumptions.
Variable accumulationResult : AccumulationResult.

Abbreviation stateAtYear := (stateAt currentYear accounts profile assumptions accumulationResult).
Abbreviation outcomeOf :=
  (calculateWithdrawals currentYear accounts profile assumptions accumulationResult).

(** After [k] years the table has an entry exactly for the ids of the
    accounts, and every age it holds is the age of one of those years. *)
Lemma ages_at k key :
  match simAccountDepletionAges (stateAtYear k) !! key with
  | None => key ∉ map account_id accounts
  | Some None => key ∈ map account_id accounts
  | Some (Some a) =>
      key ∈ map account_id accounts /\
      (retirementAge profile <= a < retirementAge profile + Z.of_nat k)%Z
  end.
Proof.
  induction k as [|k IH].
  - unfold stateAt. cbn [yearsLoop initSim simAccountDepletionAges].
    unfold initDepletionAges. rewrite initDepletionAges_lookup, lookup_empty.
    destruct (decide (key ∈ map account_id accounts)); assumption.
  - rewrite stateAt_succ.
    destruct (simulateYear_inv currentYear profile assumptions (Z.of_nat k) (stateAtYear k))
      as (rrifMinimum & otherIncome & _ & _ & _ & _ & _ & _ & Hages & _).
    rewrite Hages.
    destruct (withdrawal_setsOnly (accountStates (stateAtYear k))
                (simTargetSpending (stateAtYear k)) rrifMinimum otherIncome profile
                (simAccountDepletionAges (stateAtYear k))
                (retirementAge profile + Z.of_nat k)%Z key) as [Hsame|[Hnull Hset]].
    + rewrite Hsame.
      destruct (simAccountDepletionAges (stateAtYear k) !! key) as [[a|]|]; try exact IH.
      destruct IH as [Hin Ha]. split; [exact Hin | lia].
    + rewrite Hset. rewrite Hnull in IH. split; [exact IH | lia].
Qed.

Lemma portfolio_at k :
  match simPortfolioDepletionAge (stateAtYear k) with
  | Some a =>
      exists j, (j < k)%nat /\ a = (retirementAge profile + Z.of_nat j)%Z /\
                sumBalances (accountStates (stateAtYear j)) <= 0 /\
                forall i, (i < j)%nat -> 0 < sumBalances (accountStates (stateAtYear i))
  | None => forall i, (i < k)%nat -> 0 < sumBalances (accountStates (stateAtYear i))
  end.
Proof.
  induction k as [|k IH]; [intros i Hi; lia|].
  rewrite stateAt_succ.
  destruct (simulateYear_inv currentYear profile assumptions (Z.of_nat k) (stateAtYear k))
    as (rrifMinimum & otherIncome & _ & _ & _ & _ & _ & _ & _ & Hport).
  rewrite Hport.
  destruct (simPortfolioDepletionAge (stateAtYear k)) as [a|].
  - destruct IH as (j & Hj & Ha & Hz & Hbefore).
    exists j. split; [lia|]. repeat split; assumption.
  - cmp_case (sumBalances (accountStates (stateAtYear k))) 0.
    + exists k. split; [lia|]. split; [reflexivity|]. split; [exact E | exact IH].
    + intros i Hi. destruct (decide (i = k)) as [->|Hne]; [exact E | apply IH; lia].
Qed.

(** X19.  The table of depletion ages of the result has an entry exactly
    for the ids of the accounts passed in, and every depletion age in it,
    like the portfolio's, is one of the simulated ages, from the retirement
    age to the life expectancy. *)
Theorem depletion_ages_lie_within_the_horizon :
  (forall key,
     is_Some (accountDepletionAges
                (calculateWithdrawals currentYear accounts profile assumptions
                   accumulationResult) !! key)
     <-> key ∈ map account_id accounts) /\
  (forall key a,
     accountDepletionAges
       (calculateWithdrawals currentYear accounts profile assumptions accumulationResult)
       !! key = Some (Some a) ->
     (retirementAge profile <= a <= lifeExpectancy profile)%Z) /\
  (forall a,
     portfolioDepletionAge
       (calculateWithdrawals currentYear accounts profile assumptions accumulationResult)
     = Some a ->
     (retirementAge profile <= a <= lifeExpectancy profile)%Z).
Proof.
  change (accountDepletionAges outcomeOf)
    with (simAccountDepletionAges (stateAtYear (tripCount profile))).
  change (portfolioDepletionAge outcomeOf)
    with (simPortfolioDepletionAge (stateAtYear (tripCount profile))).
  split; [|split].
  - intros key. pose proof (ages_at (tripCount profile) key) as H.
    destruct (simAccountDepletionAges (stateAtYear (tripCount profile)) !! key)
      as [[a|]|].
    + split; [intros _; apply H | intros _; eexists; reflexivity].
    + split; [intros _; exact H | intros _; eexists; reflexivity].
    + split; [intros [x Hx]; discriminate | intros Hin; contradiction].
  - intros key a Hset. pose proof (ages_at (tripCount profile) key) as H.
    rewrite Hset in H. destruct H as [_ H]. unfold tripCount in H. lia.
  - intros a Hset. pose proof (portfolio_at (tripCount profile)) as H.
    rewrite Hset in H. destruct H as (j & Hj & -> & _). unfold tripCount in Hj. lia.
Qed.

(** X20.  The portfolio depletion age of the result is the age of the
    first simulated year that starts with balances adding up to zero or
    less; it is not set exactly when every simulated year starts with
    balances that add up to more than zero. *)
Theorem portfolio_depletion_is_the_first_empty_year :
  (forall a,
     portfolioDepletionAge
       (calculateWithdrawals currentYear accounts profile assumptions accumulationResult)
     = Some a ->
     exists k, (k < tripCount profile)%nat /\
               a = (retirementAge profile + Z.of_nat k)%Z /\
               sumBalances (accountStates (stateAtYear k)) <= 0 /\
               forall i, (i < k)%nat -> 0 < sumBalances (accountStates (stateAtYear i))) /\
  (portfolioDepletionAge
     (calculateWithdrawals currentYear accounts profile assumptions accumulationResult)
   = None <->
   forall k, (k < tripCount profile)%nat -> 0 < sumBalances (accountStates (stateAtYear k))).
Proof.
  change (portfolioDepletionAge outcomeOf)
    with (simPortfolioDepletionAge (stateAtYear (tripCount profile))).
  pose proof (portfolio_at (tripCount profile)) as H.
  destruct (simPortfolioDepletionAge (stateAtYear (tripCount profile))) as [a|].
  - split.
    + intros a' Ha'. inversion Ha'. subst a'. exact H.
    + split; [discriminate|]. intros Hall.
      destruct H as (j & Hj & _ & Hz & _). specialize (Hall j Hj). lra.
  - split; [discriminate|]. split; [intros _; exact H | reflexivity].
Qed.
End YearsDepletion.

Lemma depletion_ages_lie_within_the_horizon_witness :
  let res :=
    calculateWithdrawals 2026 spendItAll_accounts spendItAll_profile spendItAll_assumptions
      spendItAll_accumulation in
  accountDepletionAges res !! "rrsp" = Some (Some 65%Z) /\
  (retirementAge spendItAll_profile <= 65 <= lifeExpectancy spendItAll_profile)%Z.
Proof.
  intros res.
  assert (Hset : accountDepletionAges res !! "rrsp" = Some (Some 65%Z))
    by (vm_compute; reflexivity).
  split; [exact Hset|].
  exact (proj1 (proj2 (depletion_ages_lie_within_the_horizon 2026 spendItAll_accounts
                         spendItAll_profile spendItAll_assumptions spendItAll_accumulation))
           "rrsp" 65%Z Hset).
Defined.

Lemma portfolio_depletion_is_the_first_empty_year_witness :
  let res :=
    calculateWithdrawals 2026 spendItAll_accounts spendItAll_profile spendItAll_assumptions
      spendItAll_accumulation in
  portfolioDepletionAge res = Some 66%Z /\
  exists k, (k < tripCount spendItAll_profile)%nat /\
            66%Z = (retirementAge spendItAll_profile + Z.of_nat k)%Z /\
            sumBalances (accountStates
                           (stateAt 2026 spendItAll_accounts spendItAll_profile
                              spendItAll_assumptions spendItAll_accumulation k)) <= 0 /\
            forall i, (i < k)%nat ->
              0 < sumBalances (accountStates
                                 (stateAt 2026 spendItAll_accounts spendItAll_profile
                                    spendItAll_assumptions spendItAll_accumulation i)).
Proof.
  intros res.
  assert (Hset : portfolioDepletionAge res = Some 66%Z) by (vm_compute; reflexivity).
  split; [exact Hset|].
  exact (proj1 (portfolio_depletion_is_the_first_empty_year 2026 spendItAll_accounts
                  spendItAll_profile spendItAll_assumptions spendItAll_accumulation)
           66%Z Hset).
Defined.

(** * Payroll deductions and contribution room ([src/utils/limits.ts]) *)

Lemma deductions_without_caps income :
  calculateDeductions income
  == Qmax 0 (Qmin income CPP_MAX_PENSIONABLE_EARNINGS - CPP_EXEMPTION) * CPP_PREMIUM_RATE
     + Qmin income EI_MAX_INSURABLE_EARNINGS * EI_PREMIUM_RATE.
Proof.
  unfold calculateDeductions, CPP_MAX_PENSIONABLE_EARNINGS, CPP_EXEMPTION, CPP_PREMIUM_RATE,
    CPP_MAX_CONTRIBUTION, EI_MAX_INSURABLE_EARNINGS, EI_PREMIUM_RATE, EI_MAX_CONTRIBUTION.
  cbv zeta. minmax_deep; lra.
Qed.

Lemma deductions_mono i1 i2 :
  i1 <= i2 -> calculateDeductions i1 <= calculateDeductions i2.
Proof.
  intros Hi. rewrite !deductions_without_caps.
  unfold CPP_MAX_PENSIONABLE_EARNINGS, CPP_EXEMPTION, CPP_PREMIUM_RATE,
    EI_MAX_INSURABLE_EARNINGS, EI_PREMIUM_RATE.
  minmax_deep; lra.
Qed.

Lemma deductions_bounds income :
  0 <= income ->
  0 <= calculateDeductions income /\
  calculateDeductions income <= (759 # 10000) * income /\
  calculateDeductions income <= CPP_MAX_CONTRIBUTION + EI_MAX_CONTRIBUTION.
Proof.
  intros Hi. rewrite !deductions_without_caps.
  unfold CPP_MAX_PENSIONABLE_EARNINGS, CPP_EXEMPTION, CPP_PREMIUM_RATE,
    CPP_MAX_CONTRIBUTION, EI_MAX_INSURABLE_EARNINGS, EI_PREMIUM_RATE, EI_MAX_CONTRIBUTION.
  minmax_deep; repeat split; lra.
Qed.

(** X21.  The payroll deductions never fall when the income rises; the two
    dollar caps are what the premium rates give at the earnings ceilings, so
    that capping the premiums changes nothing; on an income that is not
    negative the deductions are not negative and at most 7.59% of it; from
    the CPP ceiling on they are the two caps together. *)
Theorem payroll_deductions_follow_the_ceilings :
  (forall i1 i2, i1 <= i2 -> calculateDeductions i1 <= calculateDeductions i2) /\
  (forall income,
     calculateDeductions income
     == Qmax 0 (Qmin income CPP_MAX_PENSIONABLE_EARNINGS - CPP_EXEMPTION) * CPP_PREMIUM_RATE
        + Qmin income EI_MAX_INSURABLE_EARNINGS * EI_PREMIUM_RATE) /\
  (forall income, 0 <= income ->
     0 <= calculateDeductions income /\
     calculateDeductions income <= (759 # 10000) * income) /\
  (forall income, CPP_MAX_PENSIONABLE_EARNINGS <= income ->
     calculateDeductions income == CPP_MAX_CONTRIBUTION + EI_MAX_CONTRIBUTION).
Proof.
  split; [exact deductions_mono|]. split; [exact deductions_without_caps|].
  split.
  - intros income Hi. destruct (deductions_bounds income Hi) as (H0 & H1 & _).
    split; assumption.
  - intros income. rewrite deductions_without_caps.
    unfold CPP_MAX_PENSIONABLE_EARNINGS, CPP_EXEMPTION, CPP_PREMIUM_RATE,
      CPP_MAX_CONTRIBUTION, EI_MAX_INSURABLE_EARNINGS, EI_PREMIUM_RATE, EI_MAX_CONTRIBUTION.
    intros Hi. minmax_deep; lra.
Qed.

Lemma payroll_deductions_follow_the_ceilings_witness :
  calculateDeductions 50000 <= calculateDeductions 80000 /\
  0 <= calculateDeductions 50000 /\
  calculateDeductions 80000 == 511158 # 100.
Proof.
  destruct payroll_deductions_follow_the_ceilings as (Hmono & _ & Hnn & Htop).
  split; [apply Hmono; vm_compute; discriminate|].
  split; [apply (Hnn 50000); vm_compute; discriminate|].
  rewrite (Htop 80000) by (vm_compute; discriminate). reflexivity.
Defined.

(** The basic provincial tax, the surtax and the health premium are each at
    most a fixed share of a non-negative taxable income. *)
Lemma healthPremium_share t : 0 <= t -> healthPremium t <= (45 # 1000) * t.
Proof.
  intros Ht. unfold healthPremium. cmp_all; lra.
Qed.

Lemma basicProvincialTax_share t :
  0 <= t -> 0 <= basicProvincialTax t /\ basicProvincialTax t <= (1316 # 10000) * t.
Proof.
  intros Ht. unfold basicProvincialTax. cbv zeta.
  destruct (calculateBracketTax_between _ _ _ 0 t provincial_contiguous provincial_unbounded
              provincial_rates Ht) as [_ Hup].
  assert (H0 : calculateBracketTax 0 TAX_BRACKETS_PROVINCIAL == 0) by reflexivity.
  rewrite H0 in Hup. simpl firstRate. unfold provincialBPA.
  revert Hup. minmax_deep; intros; split; lra.
Qed.

Lemma provincial_share y r :
  0 <= y -> calculateProvincialTax y 0 r <= (251 # 1000) * y.
Proof.
  intros Hy. unfold calculateProvincialTax. cbv zeta.
  set (t := y + 0 * CAPITAL_GAINS_INCLUSION_RATE_BASE).
  assert (E : t == y) by (unfold t; ring).
  cmp_case t 0; [lra|].
  rewrite ontarioSurtax_spec.
  unfold ONTARIO_SURTAX_1_RATE, ONTARIO_SURTAX_2_RATE, ONTARIO_SURTAX_1_THRESHOLD,
    ONTARIO_SURTAX_2_THRESHOLD.
  destruct (basicProvincialTax_share t ltac:(lra)) as [B0 B1].
  pose proof (healthPremium_share t ltac:(lra)) as Hp.
  set (B := basicProvincialTax t) in *. set (P := healthPremium t) in *.
  clearbody B P t. minmax_deep; lra.
Qed.

Lemma federal_share y s :
  0 <= y -> calculateTotalFederalTax y 0 s <= (33 # 100) * y.
Proof.
  intros Hy. rewrite federal_as_floor.
  set (t := y + 0 * CAPITAL_GAINS_INCLUSION_RATE_BASE).
  assert (E : t == y) by (unfold t; ring).
  destruct (rawFederal_between 0 t ltac:(lra)) as [_ Hup].
  rewrite (rawFederal_zero 0) in Hup by lra.
  unfold BASIC_PERSONAL_AMOUNT. clearbody t. revert Hup. minmax_deep; intros; lra.
Qed.

(** X22.  The savings are handed out in the order FHSA, TFSA, RRSP and
    then non-registered: the four contributions always add up to the
    available savings, and for an income that is not negative none of them
    is negative, each shelter gets at most its room, and a later one gets
    something only once the ones before it are full. *)
Theorem savings_fill_the_shelters_in_order annualIncome annualSpending age ftb rate :
  let l := calculateIndividualLimits annualIncome annualSpending age ftb rate in
  limits_total l == limits_availableSavings l /\
  (0 <= annualIncome ->
   (0 <= limits_fhsa l /\ limits_fhsa l <= maxFhsa age ftb) /\
   (0 <= limits_tfsa l /\ limits_tfsa l <= maxTfsa age) /\
   (0 <= limits_rrsp l /\ limits_rrsp l <= maxRrsp annualIncome) /\
   0 <= limits_nonRegistered l /\
   (0 < limits_tfsa l -> limits_fhsa l == maxFhsa age ftb) /\
   (0 < limits_rrsp l -> limits_tfsa l == maxTfsa age) /\
   (0 < limits_nonRegistered l -> limits_rrsp l == maxRrsp annualIncome)).
Proof.
  intros l. unfold l, calculateIndividualLimits. cbv zeta.
  cbn [limits_total limits_availableSavings limits_fhsa limits_tfsa limits_rrsp
       limits_nonRegistered].
  split; [ring|]. intros Hi.
  assert (Hr : 0 <= maxRrsp annualIncome).
  { unfold maxRrsp, RRSP_CONTRIBUTION_RATE, RRSP_MAX_LIMIT. minmax_cases; lra. }
  assert (Ht : 0 <= maxTfsa age).
  { unfold maxTfsa, TFSA_ANNUAL_LIMIT. destruct (18 <=? age)%Z; lra. }
  assert (Hf : 0 <= maxFhsa age ftb).
  { unfold maxFhsa, FHSA_ANNUAL_LIMIT. destruct ((18 <=? age)%Z && ftb); lra. }
  set (R := maxRrsp annualIncome) in *. set (T := maxTfsa age) in *.
  set (F := maxFhsa age ftb) in *. clearbody R T F.
  set (net := annualIncome - _ - _). clearbody net.
  minmax_deep; repeat split; intros; lra.
Qed.

Lemma savings_fill_the_shelters_in_order_witness :
  let l := calculateIndividualLimits 100000 40000 30 true (1 # 10) in
  0 < limits_rrsp l /\ limits_tfsa l == 7000 /\ limits_fhsa l == 8000.
Proof.
  intros l.
  destruct (savings_fill_the_shelters_in_order 100000 40000 30 true (1 # 10))
    as (_ & H). fold l in H.
  destruct (H ltac:(vm_compute; discriminate)) as (_ & _ & _ & _ & Hf & Ht & _).
  assert (Hr : 0 < limits_rrsp l) by (vm_compute; reflexivity).
  assert (Htf : 0 < limits_tfsa l) by (vm_compute; reflexivity).
  split; [exact Hr|]. split; [exact (Ht Hr) | exact (Hf Htf)].
Defined.

(** X23.  On an income that is not negative, taxes and payroll deductions
    are not negative and together take less than two thirds of it: the net
    income lies between a third of the income and the income.  The
    available savings are zero exactly when the net income does not exceed
    the spending, and never more than the income less a spending that is not
    negative. *)
Theorem net_income_is_between_a_third_and_all annualIncome annualSpending age ftb rate :
  0 <= annualIncome ->
  let l := calculateIndividualLimits annualIncome annualSpending age ftb rate in
  0 <= limits_totalTax l /\ 0 <= limits_cppEi l /\
  (1 # 3) * annualIncome <= limits_netIncome l /\
  limits_netIncome l <= annualIncome /\
  (limits_availableSavings l == 0 <-> limits_netIncome l <= annualSpending) /\
  (0 <= annualSpending -> limits_total l <= annualIncome).
Proof.
  intros Hi l. unfold l, calculateIndividualLimits. cbv zeta.
  cbn [limits_totalTax limits_cppEi limits_netIncome limits_availableSavings limits_total].
  pose proof (federal_nonneg annualIncome 0 single) as F0.
  pose proof (provincial_nonneg annualIncome 0 rate) as P0.
  pose proof (federal_share annualIncome single Hi) as F1.
  pose proof (provincial_share annualIncome rate Hi) as P1.
  destruct (deductions_bounds annualIncome Hi) as (D0 & D1 & _).
  set (F := calculateTotalFederalTax _ _ _) in *.
  set (P := calculateProvincialTax _ _ _) in *.
  set (D := calculateDeductions _) in *. clearbody F P D.
  split; [lra|]. split; [exact D0|]. split; [lra|]. split; [lra|].
  split.
  - split; intros H; revert H; minmax_deep; intros; lra.
  - intros Hs.
    match goal with |- ?lhs <= _ =>
      assert (Et : lhs == Qmax 0 (annualIncome - (F + P) - D - annualSpending)) by ring
    end.
    rewrite Et. minmax_cases; lra.
Qed.

Lemma net_income_is_between_a_third_and_all_witness :
  let l := calculateIndividualLimits 100000 40000 30 true (1 # 10) in
  (1 # 3) * 100000 <= limits_netIncome l /\ limits_netIncome l <= 100000.
Proof.
  intros l.
  destruct (net_income_is_between_a_third_and_all 100000 40000 30 true (1 # 10)
              ltac:(vm_compute; discriminate)) as (_ & _ & Hlo & Hhi & _).
  split; [exact Hlo | exact Hhi].
Defined.

(** * The accumulation phase ([src/utils/projections.ts]) *)

Section Accumulation.
Variable currentYear : Z.
Variable accounts : list PlannedAccount.
Variable profile : Profile.
Variable assumptions : Assumptions.

Abbreviation tablesAt k := (fst (projectionAt currentYear accounts profile k)).
Abbreviation snapshotsAt k := (snd (projectionAt currentYear accounts profile k)).
Abbreviation accumulated := (calculateAccumulation currentYear accounts profile assumptions).
Abbreviation years := (Z.to_nat (yearsToRetirement profile)).

Lemma projectionLoop_last n : forall i s,
  projectionLoop currentYear accounts profile (S n) i s
  = projectYear currentYear accounts profile (i + Z.of_nat n)%Z
      (projectionLoop currentYear accounts profile n i s).
Proof.
  induction n as [|n IH]; intros i s.
  - simpl. f_equal. lia.
  - change (projectionLoop currentYear accounts profile (S (S n)) i s)
      with (projectionLoop currentYear accounts profile (S n) (i + 1)%Z
              (projectYear currentYear accounts profile i s)).
    rewrite IH. simpl projectionLoop at 2. f_equal. lia.
Qed.

Lemma projectionAt_succ k :
  projectionAt currentYear accounts profile (S k)
  = projectYear currentYear accounts profile (1 + Z.of_nat k)%Z
      (projectionAt currentYear accounts profile k).
Proof. unfold projectionAt. apply projectionLoop_last. Qed.

Lemma tablesAt_succ k :
  tablesAt (S k) = fold_left projectAccount accounts (tablesAt k).
Proof. rewrite projectionAt_succ. reflexivity. Qed.

Lemma snapshotsAt_succ k :
  snapshotsAt (S k)
  = snapshotsAt k
    ++ [snapshot (currentAge profile + (1 + Z.of_nat k)) (currentYear + (1 + Z.of_nat k))
          (tablesAt (S k))].
Proof. rewrite tablesAt_succ, projectionAt_succ. reflexivity. Qed.

Lemma snapshotsAt_length k : length (snapshotsAt k) = S k.
Proof.
  induction k as [|k IH]; [reflexivity|].
  rewrite snapshotsAt_succ, length_app, IH. simpl. lia.
Qed.

(** The snapshot at position [j] is the one taken after [j] years,
    whatever the number of years projected after it. *)
Lemma snapshotsAt_lookup k j :
  (j <= k)%nat ->
  snapshotsAt k !! j
  = Some (snapshot (currentAge profile + Z.of_nat j) (currentYear + Z.of_nat j) (tablesAt j)).
Proof.
  induction k as [|k IH]; intros Hj.
  - assert (j = 0%nat) as -> by lia. cbn.
    rewrite !Z.add_0_r. reflexivity.
  - rewrite snapshotsAt_succ.
    destruct (decide (j = S k)) as [->|Hne].
    + rewrite lookup_app_r by (rewrite snapshotsAt_length; lia).
      rewrite snapshotsAt_length, Nat.sub_diag. cbn. do 3 f_equal; lia.
    + rewrite lookup_app_l by (rewrite snapshotsAt_length; lia).
      apply IH. lia.
Qed.

Lemma calculateAccumulation_fields :
  yearlyBalances accumulated = snapshotsAt years /\
  finalBalances (handedOver accumulated) = balances (tablesAt years) /\
  totalAtRetirement (handedOver accumulated) = sumValues (balances (tablesAt years)) /\
  totalAtRetirementReal (handedOver accumulated)
  = sumValues (balances (tablesAt years))
    / (1 + inflationRate assumptions) ^ yearsToRetirement profile /\
  breakdownByTaxTreatment accumulated
  = fold_left
      (fun b a =>
         addToTreatment b (getTaxTreatment (planned_type a))
           (getOr0 (balances (tablesAt years)) (planned_id a)))
      accounts (mkBreakdown 0 0 0).
Proof.
  unfold calculateAccumulation. cbv zeta.
  destruct (projectionAt currentYear accounts profile years) as [p snaps].
  repeat split; reflexivity.
Qed.

Lemma yearlyBalances_lookup j y :
  yearlyBalances accumulated !! j = Some y ->
  (j <= years)%nat /\
  y = snapshot (currentAge profile + Z.of_nat j) (currentYear + Z.of_nat j) (tablesAt j).
Proof.
  destruct calculateAccumulation_fields as (-> & _).
  intros Hy.
  assert (Hj : (j <= years)%nat).
  { apply lookup_lt_Some in Hy. rewrite snapshotsAt_length in Hy. lia. }
  split; [exact Hj|]. rewrite (snapshotsAt_lookup _ _ Hj) in Hy. congruence.
Qed.

(** X24.  The projection returns one snapshot for every age from the
    current age to the retirement age, a single one if the retirement age is
    not above the current age; the snapshot at position [j] carries the age
    and the calendar year [j] years from now and, as its total, the sum of
    its balances.  The last snapshot holds the final balances, and the
    total at retirement is its total; discounting is undone by compounding
    the inflation over the years to retirement. *)
Theorem accumulation_snapshots_follow_the_schedule :
  length (yearlyBalances (calculateAccumulation currentYear accounts profile assumptions))
  = S (Z.to_nat (yearsToRetirement profile)) /\
  (forall j y,
     yearlyBalances (calculateAccumulation currentYear accounts profile assumptions) !! j
     = Some y ->
     yb_age y = (currentAge profile + Z.of_nat j)%Z /\
     (yb_age y <= Z.max (currentAge profile) (retirementAge profile))%Z /\
     yb_year y = (currentYear + Z.of_nat j)%Z /\
     yb_totalBalance y = sumValues (yb_balances y)) /\
  (exists y,
     last (yearlyBalances (calculateAccumulation currentYear accounts profile assumptions))
     = Some y /\
     yb_balances y = finalBalances (handedOver accumulated) /\
     yb_totalBalance y = totalAtRetirement (handedOver accumulated)) /\
  (~ 1 + inflationRate assumptions == 0 ->
   totalAtRetirementReal (handedOver accumulated)
   * (1 + inflationRate assumptions) ^ yearsToRetirement profile
   == totalAtRetirement (handedOver accumulated)).
Proof.
  split; [|split; [|split]].
  - destruct calculateAccumulation_fields as (-> & _). apply snapshotsAt_length.
  - intros j y Hy. apply yearlyBalances_lookup in Hy as [Hj ->].
    cbn [snapshot yb_age yb_year yb_totalBalance yb_balances].
    unfold yearsToRetirement in Hj. repeat split; lia.
  - destruct calculateAccumulation_fields as (Hsnaps & Hfinal & Htotal & _).
    rewrite Hsnaps, Hfinal, Htotal.
    exists (snapshot (currentAge profile + Z.of_nat years) (currentYear + Z.of_nat years)
              (tablesAt years)).
    split; [|split; reflexivity].
    rewrite last_lookup, snapshotsAt_length. cbn [Nat.pred].
    apply snapshotsAt_lookup. lia.
  - intros Hbase.
    destruct calculateAccumulation_fields as (_ & _ & -> & -> & _).
    field. apply Qpower_not_0. exact Hbase.
Qed.
End Accumulation.

(** ** What every account's turn preserves *)

Lemma projectAccounts_invariant (P : Projection -> Prop) accs :
  (forall p a, a ∈ accs -> P p -> P (projectAccount p a)) ->
  forall p, P p -> P (fold_left projectAccount accs p).
Proof.
  induction accs as [|a rest IH]; intros Hstep p Hp; [exact Hp|].
  simpl. apply IH.
  - intros p' a' Hin. apply Hstep. right. exact Hin.
  - apply Hstep; [left | exact Hp].
Qed.

Lemma initProjection_invariant (P : Projection -> Prop) accs :
  (forall p a, a ∈ accs -> P p ->
     P (mkProjection (<[planned_id a := account_balance (account_of a)]> (balances p))
          (<[planned_id a := annualContribution a]> (contributions p))
          (<[planned_id a := 0]> (cumulativeContributions p)))) ->
  P (mkProjection ∅ ∅ ∅) -> P (initProjection accs).
Proof.
  unfold initProjection. generalize (mkProjection ∅ ∅ ∅).
  induction accs as [|a rest IH]; intros p Hstep Hp; [exact Hp|].
  simpl. apply IH.
  - intros p' a' Hin. apply Hstep. right. exact Hin.
  - apply Hstep; [left | exact Hp].
Qed.

Lemma employerMatch_nonneg a c :
  0 <= c ->
  (forall percent, employerMatchPercent a = Some percent -> 0 <= percent) ->
  (forall limit, employerMatchLimit a = Some limit -> 0 <= limit) ->
  0 <= calculateEmployerMatch (withContribution a c).
Proof.
  intros Hc Hp Hl. unfold calculateEmployerMatch, withContribution.
  cbn [employerMatchPercent employerMatchLimit annualContribution planned_type account_of].
  destruct (employerMatchPercent a) as [percent|]; [|lra].
  destruct (employerMatchLimit a) as [limit|]; [|lra].
  specialize (Hp percent eq_refl). specialize (Hl limit eq_refl).
  destruct (_ || _); [lra|]. cbv zeta. minmax_cases; nra.
Qed.

(** The contribution that an FHSA account is allowed in a year. *)
Lemma fhsa_room_cases cum c :
  let room := FHSA_LIFETIME_LIMIT - cum in
  let c' := if Qleb room 0 then 0 else if Qltb room c then room else c in
  (cum <= FHSA_LIFETIME_LIMIT -> cum + c' <= FHSA_LIFETIME_LIMIT) /\
  (0 <= c -> 0 <= c') /\ (0 <= c -> c' <= c).
Proof.
  intros room c'. unfold c', room. cmp_all; repeat split; intros; lra.
Qed.

Lemma projectAccount_capped p a :
  entriesUpTo FHSA_LIFETIME_LIMIT (cumulativeContributions p) ->
  entriesUpTo FHSA_LIFETIME_LIMIT (cumulativeContributions (projectAccount p a)).
Proof.
  intros Hcap. unfold projectAccount. cbv zeta.
  destruct (isFhsa (planned_type a)); cbn [cumulativeContributions]; [|exact Hcap].
  intros key. rewrite getOr0_addTo.
  destruct (String.eqb_spec (planned_id a) key) as [<-|Hne].
  - destruct (fhsa_room_cases (getOr0 (cumulativeContributions p) (planned_id a))
                (getOr0 (contributions p) (planned_id a))) as [H _].
    apply H, Hcap.
  - specialize (Hcap key). lra.
Qed.

Lemma projectAccount_nonneg p a :
  wellFunded a ->
  entriesFrom0 (balances p) /\ entriesFrom0 (contributions p) ->
  entriesFrom0 (balances (projectAccount p a)) /\
  entriesFrom0 (contributions (projectAccount p a)).
Proof.
  intros (Hb & Hc & Hg & Hr & Hp & Hl) [Hbal Hcon].
  unfold projectAccount. cbv zeta.
  set (k := planned_id a).
  assert (Hc0 : 0 <= getOr0 (contributions p) k) by apply Hcon.
  assert (Hb0 : 0 <= getOr0 (balances p) k) by apply Hbal.
  destruct (isFhsa (planned_type a)).
  - destruct (fhsa_room_cases (getOr0 (cumulativeContributions p) k)
                (getOr0 (contributions p) k)) as (_ & H0 & _).
    cbv zeta in H0. specialize (H0 Hc0).
    set (c' := if Qleb _ 0 then 0 else _) in *.
    pose proof (employerMatch_nonneg a c' H0 Hp Hl) as Hm.
    cbn [balances contributions]. split.
    + intros key. rewrite getOr0_insert.
      destruct (String.eqb k key); [nra | apply Hbal].
    + intros key. destruct (_ || _); rewrite getOr0_insert;
        destruct (String.eqb k key); first [nra | lra | apply Hcon].
  - pose proof (employerMatch_nonneg a _ Hc0 Hp Hl) as Hm.
    cbn [balances contributions negb orb]. split.
    + intros key. rewrite getOr0_insert.
      destruct (String.eqb k key); [nra | apply Hbal].
    + intros key. rewrite getOr0_insert.
      destruct (String.eqb k key); [nra | apply Hcon].
Qed.

Lemma sumValues_nonneg (m : gmap string Q) : entriesFrom0 m -> 0 <= sumValues m.
Proof.
  induction m as [|k v m Hk _ IH] using map_first_key_ind.
  - intros _. unfold sumValues. rewrite map_fold_empty. lra.
  - intros Hm. rewrite sumValues_insert_fresh by exact Hk.
    assert (Hv : 0 <= v).
    { specialize (Hm k). unfold getOr0 in Hm. rewrite lookup_insert_eq in Hm. exact Hm. }
    assert (0 <= sumValues m); [|lra].
    apply IH. intros key. specialize (Hm key). unfold getOr0 in *.
    destruct (decide (k = key)) as [<-|Hne].
    + rewrite Hk. simpl. lra.
    + rewrite lookup_insert_ne in Hm by exact Hne. exact Hm.
Qed.

Section AccumulationInvariants.
Variable currentYear : Z.
Variable accounts : list PlannedAccount.
Variable profile : Profile.
Variable assumptions : Assumptions.

Abbreviation tablesAt k := (fst (projectionAt currentYear accounts profile k)).
Abbreviation accumulated := (calculateAccumulation currentYear accounts profile assumptions).
Abbreviation years := (Z.to_nat (yearsToRetirement profile)).

Lemma cumulative_capped k :
  entriesUpTo FHSA_LIFETIME_LIMIT (cumulativeContributions (tablesAt k)).
Proof.
  induction k as [|k IH].
  - change (tablesAt 0) with (initProjection accounts).
    apply (initProjection_invariant
             (fun p => entriesUpTo FHSA_LIFETIME_LIMIT (cumulativeContributions p))).
    + intros p a _ Hp key. cbn [cumulativeContributions]. rewrite getOr0_insert.
      destruct (String.eqb _ key); [unfold FHSA_LIFETIME_LIMIT; lra | apply Hp].
    + intros key. unfold getOr0. cbn. rewrite lookup_empty.
      unfold FHSA_LIFETIME_LIMIT. simpl. lra.
  - rewrite tablesAt_succ.
    apply (projectAccounts_invariant
             (fun p => entriesUpTo FHSA_LIFETIME_LIMIT (cumulativeContributions p)));
      [|exact IH].
    intros p a _. apply projectAccount_capped.
Qed.

Lemma tables_nonneg k :
  Forall wellFunded accounts ->
  entriesFrom0 (balances (tablesAt k)) /\ entriesFrom0 (contributions (tablesAt k)).
Proof.
  intros Hall. rewrite Forall_forall in Hall.
  induction k as [|k IH].
  - change (tablesAt 0) with (initProjection accounts).
    apply (initProjection_invariant
             (fun p => entriesFrom0 (balances p) /\ entriesFrom0 (contributions p))).
    + intros p a Hin [Hb Hc]. destruct (Hall a Hin) as (Ha & Hca & _).
      cbn [balances contributions]. split; intros key; rewrite getOr0_insert;
        destruct (String.eqb _ key); first [assumption | apply Hb | apply Hc].
    + split; intros key; unfold getOr0; cbn; rewrite lookup_empty; simpl; lra.
  - rewrite tablesAt_succ.
    apply (projectAccounts_invariant
             (fun p => entriesFrom0 (balances p) /\ entriesFrom0 (contributions p)));
      [|exact IH].
    intros p a Hin. apply projectAccount_nonneg, Hall, Hin.
Qed.
End AccumulationInvariants.

(** ** Accounts with ids of their own do not touch each other *)

Lemma projectAccount_other p a key :
  planned_id a <> key -> entriesAt (projectAccount p a) key = entriesAt p key.
Proof.
  intros Hne. unfold entriesAt, projectAccount. cbv zeta.
  destruct (isFhsa (planned_type a)); cbn [balances contributions cumulativeContributions];
    [destruct (_ || _)|]; cbn [negb orb]; unfold addTo;
    rewrite ?lookup_insert_ne by exact Hne; reflexivity.
Qed.

Lemma projectAccount_own p p' a :
  entriesAt p (planned_id a) = entriesAt p' (planned_id a) ->
  entriesAt (projectAccount p a) (planned_id a)
  = entriesAt (projectAccount p' a) (planned_id a).
Proof.
  unfold entriesAt. intros H. inversion H as [[Hb Hc Hm]].
  unfold projectAccount, getOr0, addTo. cbv zeta.
  destruct (isFhsa (planned_type a)); cbn [balances contributions cumulativeContributions];
    cbn [negb orb]; unfold getOr0;
    repeat first [rewrite lookup_insert_eq | rewrite Hb | rewrite Hc | rewrite Hm];
    try match goal with
        | |- context [if ?c then <[_ := _]> _ else _] => destruct c
        end;
    rewrite ?lookup_insert_eq; reflexivity.
Qed.

Lemma projectAccounts_other accs key : forall p,
  key ∉ map planned_id accs ->
  entriesAt (fold_left projectAccount accs p) key = entriesAt p key.
Proof.
  induction accs as [|a rest IH]; intros p Hnot; [reflexivity|].
  simpl. rewrite IH.
  - apply projectAccount_other. intros Heq. apply Hnot. rewrite <- Heq. left.
  - intros Hin. apply Hnot. right. exact Hin.
Qed.

Lemma projectAccounts_own accs a : forall p p',
  NoDup (map planned_id accs) -> a ∈ accs ->
  entriesAt p (planned_id a) = entriesAt p' (planned_id a) ->
  entriesAt (fold_left projectAccount accs p) (planned_id a)
  = entriesAt (projectAccount p' a) (planned_id a).
Proof.
  induction accs as [|x rest IH]; intros p p' Hnd Hin Hsame; [inversion Hin|].
  simpl in Hnd. apply NoDup_cons in Hnd as [Hx Hnd]. simpl.
  apply elem_of_cons in Hin as [->|Hin].
  - rewrite projectAccounts_other by exact Hx. apply projectAccount_own, Hsame.
  - apply IH; [exact Hnd | exact Hin|].
    rewrite projectAccount_other; [exact Hsame|].
    intros Heq. apply Hx. rewrite Heq. apply list_elem_of_fmap. exists a. split; [reflexivity | exact Hin].
Qed.

Lemma initProjection_from accs key : forall p,
  key ∉ map planned_id accs ->
  entriesAt
    (fold_left
       (fun p a =>
          mkProjection (<[planned_id a := account_balance (account_of a)]> (balances p))
            (<[planned_id a := annualContribution a]> (contributions p))
            (<[planned_id a := 0]> (cumulativeContributions p)))
       accs p) key
  = entriesAt p key.
Proof.
  induction accs as [|a rest IH]; intros p Hnot; [reflexivity|].
  simpl. rewrite IH by (intros Hin; apply Hnot; right; exact Hin).
  unfold entriesAt. cbn [balances contributions cumulativeContributions].
  rewrite !lookup_insert_ne; [reflexivity| | |]; intros Heq; apply Hnot; rewrite <- Heq; left.
Qed.

Lemma initProjection_own accs a :
  NoDup (map planned_id accs) -> a ∈ accs ->
  entriesAt (initProjection accs) (planned_id a)
  = (Some (account_balance (account_of a)), Some (annualContribution a), Some 0).
Proof.
  unfold initProjection. generalize (mkProjection ∅ ∅ ∅).
  induction accs as [|x rest IH]; intros p Hnd Hin; [inversion Hin|].
  simpl in Hnd. apply NoDup_cons in Hnd as [Hx Hnd]. simpl.
  apply elem_of_cons in Hin as [->|Hin].
  - rewrite initProjection_from by exact Hx.
    unfold entriesAt. cbn [balances contributions cumulativeContributions].
    rewrite !lookup_insert_eq. reflexivity.
  - apply IH; assumption.
Qed.

Lemma aloneAt_succ a k : aloneAt a (S k) = projectAccount (aloneAt a k) a.
Proof. reflexivity. Qed.

(** With ids of their own, an account's entries are what they are when the
    account is projected alone. *)
Lemma entries_as_alone currentYear accounts profile a k :
  NoDup (map planned_id accounts) -> a ∈ accounts ->
  entriesAt (fst (projectionAt currentYear accounts profile k)) (planned_id a)
  = entriesAt (aloneAt a k) (planned_id a).
Proof.
  intros Hnd Hin. induction k as [|k IH].
  - change (fst (projectionAt currentYear accounts profile 0))
      with (initProjection accounts).
    rewrite (initProjection_own accounts a Hnd Hin).
    symmetry. apply (initProjection_own [a] a); [|left].
    simpl. apply NoDup_singleton.
  - rewrite tablesAt_succ, aloneAt_succ.
    apply projectAccounts_own; assumption.
Qed.

Lemma entriesAt_values p key b c m :
  entriesAt p key = (Some b, Some c, Some m) ->
  getOr0 (balances p) key = b /\ getOr0 (contributions p) key = c /\
  getOr0 (cumulativeContributions p) key = m.
Proof.
  unfold entriesAt, getOr0. intros H. inversion H as [[Hb Hc Hm]].
  rewrite Hb, Hc, Hm. repeat split; reflexivity.
Qed.

(** The entries of an account on its own, one year on. *)
Lemma aloneAt_entries a k :
  exists b c m, entriesAt (aloneAt a k) (planned_id a) = (Some b, Some c, Some m).
Proof.
  induction k as [|k (b & c & m & IH)].
  - eexists _, _, _. apply (initProjection_own [a] a); [|left].
    simpl. apply NoDup_singleton.
  - rewrite aloneAt_succ. apply entriesAt_values in IH as (Hb & Hc & Hm).
    unfold entriesAt, projectAccount. cbv zeta.
    destruct (isFhsa (planned_type a)); cbn [balances contributions cumulativeContributions].
    + unfold addTo at 2. rewrite !lookup_insert_eq.
      destruct (_ || _); rewrite lookup_insert_eq; eexists _, _, _; reflexivity.
    + cbn [negb orb]. rewrite !lookup_insert_eq.
      unfold getOr0 in Hm. destruct (cumulativeContributions (aloneAt a k) !! planned_id a)
        as [m'|] eqn:E.
      * eexists _, _, _; reflexivity.
      * exfalso. clear -E. revert E. induction k as [|k IHk].
        -- unfold aloneAt. simpl. cbn. rewrite lookup_insert_eq. discriminate.
        -- rewrite aloneAt_succ. unfold projectAccount. cbv zeta.
           destruct (isFhsa (planned_type a)); cbn [cumulativeContributions];
             [unfold addTo; rewrite lookup_insert_eq; discriminate | exact IHk].
Qed.

(** ** One account on its own *)

Lemma contributionLoop_last a n : forall s,
  contributionLoop a (S n) s = contributionStep a (contributionLoop a n s).
Proof.
  induction n as [|n IH]; intros s; [reflexivity|].
  change (contributionLoop a (S (S n)) s)
    with (contributionLoop a (S n) (contributionStep a s)).
  rewrite IH. reflexivity.
Qed.

Lemma contributedAt_succ a k :
  contributedAt a (S k) = contributionStep a (contributedAt a k).
Proof. apply contributionLoop_last. Qed.

Lemma employerMatch_fhsa a c :
  isFhsa (planned_type a) = true -> calculateEmployerMatch (withContribution a c) = 0.
Proof.
  intros Hf. unfold calculateEmployerMatch, withContribution, planned_type in *.
  cbn [employerMatchPercent employerMatchLimit annualContribution account_of].
  destruct (employerMatchPercent a); [|reflexivity].
  destruct (employerMatchLimit a); [|reflexivity].
  destruct (account_type (account_of a)); try discriminate. reflexivity.
Qed.

Lemma employerMatch_idle a c :
  c == 0 ->
  (forall limit, employerMatchLimit a = Some limit -> 0 <= limit) ->
  calculateEmployerMatch (withContribution a c) == 0.
Proof.
  intros Hc Hl. unfold calculateEmployerMatch, withContribution.
  cbn [employerMatchPercent employerMatchLimit annualContribution planned_type account_of].
  destruct (employerMatchPercent a) as [percent|]; [|reflexivity].
  destruct (employerMatchLimit a) as [limit|]; [|reflexivity].
  specialize (Hl limit eq_refl).
  destruct (_ || _); [reflexivity|]. cbv zeta.
  assert (E : c * percent == 0) by (rewrite Hc; ring).
  minmax_cases; lra.
Qed.

(** An account that is not an FHSA: its planned contribution and what has
    been paid in are those of the loop of [calculateTotalContributions]. *)
Lemma alone_contributed a k :
  isFhsa (planned_type a) = false ->
  contributions (aloneAt a k) !! planned_id a = Some (snd (contributedAt a k)) /\
  exists bal,
    balances (aloneAt a k) !! planned_id a = Some bal /\
    (returnRate a == 0 ->
     bal == account_balance (account_of a) + fst (contributedAt a k)) /\
    (wellFunded a -> 0 <= returnRate a ->
     0 <= snd (contributedAt a k) /\ 0 <= fst (contributedAt a k) /\
     account_balance (account_of a) + fst (contributedAt a k) <= bal).
Proof.
  intros Hf. induction k as [|k (Hc & bal & Hb & Hzero & Hgrow)].
  - unfold aloneAt, contributedAt. simpl. cbn. rewrite !lookup_insert_eq.
    split; [reflexivity|]. eexists. split; [reflexivity|].
    split; [intros _; ring|].
    intros (Hb & Hc & _) _. repeat split; lra.
  - rewrite aloneAt_succ, contributedAt_succ.
    destruct (contributedAt a k) as [t y]. cbn [fst snd] in *.
    unfold projectAccount. cbv zeta. rewrite Hf. cbn [negb orb balances contributions].
    unfold getOr0. rewrite Hb, Hc, !lookup_insert_eq. cbn [default from_option contributionStep fst snd]. unfold Datatypes.id.
    split; [reflexivity|]. eexists. split; [reflexivity|]. split.
    + intros Hr. rewrite (Hzero Hr), Hr. ring.
    + intros Hw Hr. destruct (Hgrow Hw Hr) as (Hy & Ht & Hbal).
      destruct Hw as (Hb0 & _ & Hg & _ & Hp & Hl).
      pose proof (employerMatch_nonneg a y Hy Hp Hl) as Hm.
      repeat split; nra.
Qed.

(** An FHSA: no match is paid, and what has been paid in is the cumulative
    contribution. *)
Lemma alone_fhsa a k :
  isFhsa (planned_type a) = true ->
  exists bal c cum,
    entriesAt (aloneAt a k) (planned_id a) = (Some bal, Some c, Some cum) /\
    (returnRate a == 0 -> bal == account_balance (account_of a) + cum) /\
    (wellFunded a -> 0 <= c /\ 0 <= cum).
Proof.
  intros Hf. induction k as [|k (bal & c & cum & He & Hzero & Hnn)].
  - eexists _, _, _. split; [|split].
    + apply (initProjection_own [a] a); [simpl; apply NoDup_singleton | left].
    + intros _. ring.
    + intros (_ & Hc & _). split; lra.
  - rewrite aloneAt_succ. apply entriesAt_values in He as (Hb & Hc & Hm).
    unfold entriesAt, projectAccount. cbv zeta.
    rewrite Hf, Hb, Hc, Hm. cbn [negb orb balances contributions cumulativeContributions].
    rewrite employerMatch_fhsa by exact Hf.
    unfold addTo. rewrite Hm, !lookup_insert_eq.
    destruct (fhsa_room_cases cum c) as (_ & H0 & _). cbv zeta in H0.
    set (c' := if Qleb _ 0 then 0 else _) in *.
    match goal with
    | |- context [if ?t then <[_ := _]> _ else _] => destruct t
    end; rewrite lookup_insert_eq; eexists _, _, _; (split; [reflexivity|]); split.
    + intros Hr. rewrite (Hzero Hr), Hr. ring.
    + intros Hw. destruct (Hnn Hw) as [Hc0 Hcum]. specialize (H0 Hc0).
      destruct Hw as (_ & _ & Hg & _). split; nra.
    + intros Hr. rewrite (Hzero Hr), Hr. ring.
    + intros Hw. destruct (Hnn Hw) as [Hc0 Hcum]. specialize (H0 Hc0). split; lra.
Qed.

(** An account without contributions only compounds. *)
Lemma alone_idle a k :
  annualContribution a == 0 ->
  (forall limit, employerMatchLimit a = Some limit -> 0 <= limit) ->
  exists bal c cum,
    entriesAt (aloneAt a k) (planned_id a) = (Some bal, Some c, Some cum) /\
    c == 0 /\
    bal == account_balance (account_of a) * (1 + returnRate a) ^ Z.of_nat k.
Proof.
  intros Hidle Hl. induction k as [|k (bal & c & cum & He & Hc0 & Hbal)].
  - eexists _, _, _. split; [|split].
    + apply (initProjection_own [a] a); [simpl; apply NoDup_singleton | left].
    + exact Hidle.
    + simpl. ring.
  - rewrite aloneAt_succ. apply entriesAt_values in He as (Hb & Hc & Hm).
    assert (Hpow : (1 + returnRate a) ^ Z.of_nat (S k)
                   == (1 + returnRate a) ^ Z.of_nat k * (1 + returnRate a)).
    { replace (Z.of_nat (S k)) with (Z.of_nat k + 1)%Z by lia.
      rewrite Qpower_plus' by lia. rewrite Qpower_1_r. reflexivity. }
    unfold entriesAt, projectAccount. cbv zeta. rewrite Hb, Hc, Hm.
    destruct (isFhsa (planned_type a)) eqn:Hf;
      cbn [negb orb balances contributions cumulativeContributions].
    + unfold addTo. rewrite Hm, !lookup_insert_eq.
      assert (Hc' : (if Qleb (FHSA_LIFETIME_LIMIT - cum) 0 then 0
                     else if Qltb (FHSA_LIFETIME_LIMIT - cum) c
                          then FHSA_LIFETIME_LIMIT - cum else c) == 0).
      { cmp_all; lra. }
      set (c' := if Qleb _ 0 then 0 else _) in *.
      pose proof (employerMatch_idle a c' Hc' Hl) as Hmatch.
      match goal with
      | |- context [if ?t then <[_ := _]> _ else _] => destruct t
      end; rewrite lookup_insert_eq; eexists _, _, _; (split; [reflexivity|]); split;
        first [ rewrite Hc'; ring | reflexivity
              | rewrite Hmatch, Hpow, Hbal, Hc'; ring ].
    + rewrite !lookup_insert_eq.
      pose proof (employerMatch_idle a c Hc0 Hl) as Hmatch.
      unfold getOr0 in Hm.
      destruct (aloneAt_entries a k) as (b1 & c1 & m1 & He1).
      unfold entriesAt in He1. inversion He1 as [[E1 E2 E3]]. rewrite E3.
      eexists _, _, _. split; [reflexivity|]. split.
      * rewrite Hc0. ring.
      * rewrite Hmatch, Hpow, Hbal, Hc0. ring.
Qed.

(** ** The table of [calculateTotalContributions] *)

Lemma totalContributions_from (f : PlannedAccount -> Q) accs key :
  forall m : gmap string Q,
  key ∉ map planned_id accs ->
  fold_left (fun totals a => <[planned_id a := f a]> totals) accs m !! key = m !! key.
Proof.
  induction accs as [|a rest IH]; intros m Hnot; [reflexivity|].
  simpl. rewrite IH by (intros Hin; apply Hnot; right; exact Hin).
  apply lookup_insert_ne. intros Heq. apply Hnot. rewrite <- Heq. left.
Qed.

Lemma totalContributions_own (f : PlannedAccount -> Q) accs a :
  forall m : gmap string Q,
  NoDup (map planned_id accs) -> a ∈ accs ->
  fold_left (fun totals a => <[planned_id a := f a]> totals) accs m !! planned_id a
  = Some (f a).
Proof.
  induction accs as [|x rest IH]; intros m Hnd Hin; [inversion Hin|].
  simpl in Hnd. apply NoDup_cons in Hnd as [Hx Hnd]. simpl.
  apply elem_of_cons in Hin as [->|Hin].
  - rewrite totalContributions_from by exact Hx. apply lookup_insert_eq.
  - apply IH; assumption.
Qed.

Lemma calculateTotalContributions_own accounts profile a :
  NoDup (map planned_id accounts) -> a ∈ accounts ->
  getOr0 (calculateTotalContributions accounts profile) (planned_id a)
  = fst (contributedAt a (Z.to_nat (yearsToRetirement profile))).
Proof.
  intros Hnd Hin. unfold calculateTotalContributions, getOr0. cbv zeta.
  rewrite (totalContributions_own
             (fun a => fst (contributionLoop a (Z.to_nat (yearsToRetirement profile))
                              (0, annualContribution a)))
             accounts a ∅ Hnd Hin).
  reflexivity.
Qed.

(** ** Keys and sums of the tables *)

Lemma initProjection_keys accs key : forall p,
  is_Some
    (balances
       (fold_left
          (fun p a =>
             mkProjection (<[planned_id a := account_balance (account_of a)]> (balances p))
               (<[planned_id a := annualContribution a]> (contributions p))
               (<[planned_id a := 0]> (cumulativeContributions p)))
          accs p) !! key)
  <-> key ∈ map planned_id accs \/ is_Some (balances p !! key).
Proof.
  induction accs as [|a rest IH]; intros p; simpl.
  - split; [intros H; right; exact H | intros [H|H]; [inversion H | exact H]].
  - rewrite IH. cbn [balances]. rewrite lookup_insert_is_Some, elem_of_cons.
    destruct (decide (planned_id a = key)) as [->|Hne]; split; intros H; try tauto.
    destruct H as [[H|H]|H]; try tauto. congruence.
Qed.

Lemma projectAccount_keys p a key :
  is_Some (balances (projectAccount p a) !! key)
  <-> planned_id a = key \/ is_Some (balances p !! key).
Proof.
  unfold projectAccount. cbv zeta.
  destruct (isFhsa (planned_type a)); cbn [balances]; rewrite lookup_insert_is_Some;
    destruct (decide (planned_id a = key)); tauto.
Qed.

Lemma projectAccounts_keys accs key : forall p,
  is_Some (balances (fold_left projectAccount accs p) !! key)
  <-> key ∈ map planned_id accs \/ is_Some (balances p !! key).
Proof.
  induction accs as [|a rest IH]; intros p; simpl.
  - split; [intros H; right; exact H | intros [H|H]; [inversion H | exact H]].
  - rewrite IH, projectAccount_keys, elem_of_cons. split.
    + intros [H|[H|H]];
        [left; right; exact H | left; left; symmetry; exact H | right; exact H].
    + intros [[H|H]|H];
        [right; left; symmetry; exact H | left; exact H | right; right; exact H].
Qed.

Lemma tables_keys currentYear accounts profile k key :
  is_Some (balances (fst (projectionAt currentYear accounts profile k)) !! key)
  <-> key ∈ map planned_id accounts.
Proof.
  induction k as [|k IH].
  - change (fst (projectionAt currentYear accounts profile 0))
      with (initProjection accounts).
    unfold initProjection. rewrite initProjection_keys. cbn [balances].
    rewrite lookup_empty. split; [intros [H|H]; [exact H | inversion H; discriminate]|].
    intros H. left. exact H.
  - rewrite tablesAt_succ, projectAccounts_keys, IH. tauto.
Qed.

(** A table that holds exactly the given ids, each once, adds up to the
    sum of its entries under these ids. *)
Lemma sumValues_over_ids ids : forall m : gmap string Q,
  NoDup ids -> (forall key, is_Some (m !! key) <-> key ∈ ids) ->
  sumValues m == fold_right (fun k s => getOr0 m k + s) 0 ids.
Proof.
  induction ids as [|k rest IH]; intros m Hnd Hkeys.
  - assert (m = ∅) as ->.
    { apply map_empty. intros key. apply eq_None_not_Some. rewrite Hkeys. inversion 1. }
    unfold sumValues. rewrite map_fold_empty. reflexivity.
  - apply NoDup_cons in Hnd as [Hk Hnd].
    destruct (proj2 (Hkeys k) ltac:(left)) as [v Hv].
    rewrite (sumValues_delete m k v Hv). simpl.
    rewrite (IH (delete k m) Hnd).
    + assert (E : forall l, k ∉ l ->
                fold_right (fun k0 s => getOr0 (delete k m) k0 + s) 0 l
                = fold_right (fun k0 s => getOr0 m k0 + s) 0 l).
      { induction l as [|x l IHl]; intros Hx; [reflexivity|]. simpl.
        rewrite IHl by (intros Hin; apply Hx; right; exact Hin).
        unfold getOr0. rewrite lookup_delete_ne; [reflexivity|].
        intros Heq. apply Hx. rewrite Heq. left. }
      rewrite (E rest Hk). unfold getOr0 at 2. rewrite Hv. simpl. ring.
    + intros key. destruct (decide (k = key)) as [<-|Hne].
      * rewrite lookup_delete_eq. split; [intros [x Hx]; discriminate | tauto].
      * rewrite lookup_delete_ne by exact Hne. rewrite Hkeys, elem_of_cons.
        split; [intros [H|H]; [congruence | exact H] | tauto].
Qed.

Lemma breakdown_adds_up (m : gmap string Q) accs : forall b,
  let b' :=
    fold_left
      (fun b a => addToTreatment b (getTaxTreatment (planned_type a)) (getOr0 m (planned_id a)))
      accs b in
  breakdown_pretax b' + breakdown_tax_free b' + breakdown_taxable b'
  == breakdown_pretax b + breakdown_tax_free b + breakdown_taxable b
     + fold_right (fun k s => getOr0 m k + s) 0 (map planned_id accs).
Proof.
  induction accs as [|a rest IH]; intros b; simpl; [ring|].
  rewrite IH. destruct (getTaxTreatment (planned_type a)); simpl; ring.
Qed.

Lemma find_first {A} (f : A -> bool) (l : list A) : forall j y,
  l !! j = Some y -> f y = true ->
  (forall i y', (i < j)%nat -> l !! i = Some y' -> f y' = false) ->
  List.find f l = Some y.
Proof.
  induction l as [|x l IH]; intros j y Hy Hf Hbefore; [destruct j; discriminate|].
  destruct j as [|j]; simpl in *.
  - inversion Hy. subst x. rewrite Hf. reflexivity.
  - rewrite (Hbefore 0%nat x ltac:(lia) eq_refl).
    apply (IH j); [exact Hy | exact Hf|].
    intros i y' Hi Hy'. apply (Hbefore (S i) y'); [lia | exact Hy'].
Qed.

Lemma find_nowhere {A} (f : A -> bool) (l : list A) :
  (forall i y, l !! i = Some y -> f y = false) -> List.find f l = None.
Proof.
  induction l as [|x l IH]; intros H; [reflexivity|]. simpl.
  rewrite (H 0%nat x eq_refl). apply IH. intros i y Hy. apply (H (S i) y Hy).
Qed.

Section AccumulationResults.
Variable currentYear : Z.
Variable accounts : list PlannedAccount.
Variable profile : Profile.
Variable assumptions : Assumptions.

Abbreviation tablesAt k := (fst (projectionAt currentYear accounts profile k)).
Abbreviation accumulated := (calculateAccumulation currentYear accounts profile assumptions).
Abbreviation years := (Z.to_nat (yearsToRetirement profile)).

Lemma calculateAccumulation_real :
  let d := (1 + inflationRate assumptions) ^ yearsToRetirement profile in
  breakdownByTaxTreatmentReal accumulated
  = mkBreakdown (breakdown_pretax (breakdownByTaxTreatment accumulated) / d)
      (breakdown_tax_free (breakdownByTaxTreatment accumulated) / d)
      (breakdown_taxable (breakdownByTaxTreatment accumulated) / d).
Proof.
  unfold calculateAccumulation. cbv zeta.
  destruct (projectionAt currentYear accounts profile years) as [p snaps]. reflexivity.
Qed.

Lemma snapshot_balances j y :
  yearlyBalances accumulated !! j = Some y ->
  yb_balances y = balances (tablesAt j) /\ yb_contributions y = contributions (tablesAt j) /\
  yb_age y = (currentAge profile + Z.of_nat j)%Z /\ (j <= years)%nat.
Proof.
  intros Hy.
  apply (yearlyBalances_lookup currentYear accounts profile assumptions) in Hy as [Hj ->].
  repeat split; [exact Hj].
Qed.

Lemma own_entries a k :
  NoDup (map planned_id accounts) -> a ∈ accounts ->
  getOr0 (balances (tablesAt k)) (planned_id a)
  = getOr0 (balances (aloneAt a k)) (planned_id a) /\
  getOr0 (contributions (tablesAt k)) (planned_id a)
  = getOr0 (contributions (aloneAt a k)) (planned_id a) /\
  getOr0 (cumulativeContributions (tablesAt k)) (planned_id a)
  = getOr0 (cumulativeContributions (aloneAt a k)) (planned_id a).
Proof.
  intros Hnd Hin.
  pose proof (entries_as_alone currentYear accounts profile a k Hnd Hin) as He.
  unfold entriesAt in He. inversion He as [[Hb Hc Hm]].
  unfold getOr0. rewrite Hb, Hc, Hm. repeat split; reflexivity.
Qed.

(** X25.  The cumulative FHSA contributions never exceed the lifetime
    limit, for every input.  With ids of their own, an FHSA without
    investment return therefore never holds more than its entered balance
    and the lifetime limit together, and, on a plan without negative
    amounts, never less than its entered balance. *)
Theorem fhsa_lifetime_limit_is_never_exceeded :
  (forall k key,
     getOr0 (cumulativeContributions (fst (projectionAt currentYear accounts profile k))) key
     <= FHSA_LIFETIME_LIMIT) /\
  (NoDup (map planned_id accounts) ->
   forall a, a ∈ accounts -> planned_type a = fhsa -> returnRate a == 0 ->
   forall j y,
     yearlyBalances (calculateAccumulation currentYear accounts profile assumptions) !! j
     = Some y ->
     getOr0 (yb_balances y) (planned_id a)
     <= account_balance (account_of a) + FHSA_LIFETIME_LIMIT /\
     (wellFunded a ->
      account_balance (account_of a) <= getOr0 (yb_balances y) (planned_id a))).
Proof.
  split; [intros k key; apply cumulative_capped|].
  intros Hnd a Hin Ht Hr j y Hy.
  apply snapshot_balances in Hy as (-> & _).
  destruct (own_entries a j Hnd Hin) as (Eb & _ & Em). rewrite Eb.
  pose proof (cumulative_capped currentYear accounts profile j (planned_id a)) as Hcap.
  rewrite Em in Hcap.
  assert (Hf : isFhsa (planned_type a) = true) by (rewrite Ht; reflexivity).
  destruct (alone_fhsa a j Hf) as (bal & c & cum & He & Hzero & Hnn).
  apply entriesAt_values in He as (Hb & _ & Hm). rewrite Hb. rewrite Hm in Hcap.
  specialize (Hzero Hr). split; [lra|].
  intros Hw. destruct (Hnn Hw). lra.
Qed.

(** X26.  With ids of their own, the three parts of the breakdown by tax
    treatment add up to the total at retirement, in future and in today's
    dollars. *)
Theorem breakdown_adds_up_to_the_total :
  NoDup (map planned_id accounts) ->
  let res := calculateAccumulation currentYear accounts profile assumptions in
  breakdown_pretax (breakdownByTaxTreatment res)
  + breakdown_tax_free (breakdownByTaxTreatment res)
  + breakdown_taxable (breakdownByTaxTreatment res)
  == totalAtRetirement (handedOver res) /\
  breakdown_pretax (breakdownByTaxTreatmentReal res)
  + breakdown_tax_free (breakdownByTaxTreatmentReal res)
  + breakdown_taxable (breakdownByTaxTreatmentReal res)
  == totalAtRetirementReal (handedOver res).
Proof.
  intros Hnd res.
  assert (Hsum : breakdown_pretax (breakdownByTaxTreatment res)
                 + breakdown_tax_free (breakdownByTaxTreatment res)
                 + breakdown_taxable (breakdownByTaxTreatment res)
                 == totalAtRetirement (handedOver res)).
  { unfold res.
    destruct (calculateAccumulation_fields currentYear accounts profile assumptions)
      as (_ & _ & -> & _ & ->).
    rewrite breakdown_adds_up. cbn [breakdown_pretax breakdown_tax_free breakdown_taxable].
    rewrite (sumValues_over_ids (map planned_id accounts) _ Hnd
               (tables_keys currentYear accounts profile years)).
    ring. }
  split; [exact Hsum|].
  unfold res in *. rewrite calculateAccumulation_real.
  cbn [breakdown_pretax breakdown_tax_free breakdown_taxable].
  destruct (calculateAccumulation_fields currentYear accounts profile assumptions)
    as (_ & _ & Ht & -> & _).
  rewrite Ht in Hsum. rewrite <- Hsum. unfold Qdiv. ring.
Qed.

(** X27.  With ids of their own, the first snapshot holds every account's
    entered balance, and so do the final balances when the retirement age is
    not above the current age.  An account without contributions only
    compounds: after [j] years it holds its entered balance times
    [(1 + returnRate) ^ j]. *)
Theorem idle_accounts_only_compound :
  NoDup (map planned_id accounts) ->
  forall a, a ∈ accounts ->
  ((retirementAge profile <= currentAge profile)%Z ->
   getOr0 (finalBalances
             (handedOver (calculateAccumulation currentYear accounts profile assumptions)))
     (planned_id a)
   = account_balance (account_of a)) /\
  forall j y,
    yearlyBalances (calculateAccumulation currentYear accounts profile assumptions) !! j
    = Some y ->
    (j = 0%nat -> getOr0 (yb_balances y) (planned_id a) = account_balance (account_of a)) /\
    (annualContribution a == 0 ->
     (forall limit, employerMatchLimit a = Some limit -> 0 <= limit) ->
     getOr0 (yb_balances y) (planned_id a)
     == account_balance (account_of a) * (1 + returnRate a) ^ Z.of_nat j).
Proof.
  intros Hnd a Hin.
  assert (Hfirst : getOr0 (balances (tablesAt 0)) (planned_id a)
                   = account_balance (account_of a)).
  { change (tablesAt 0) with (initProjection accounts).
    pose proof (initProjection_own accounts a Hnd Hin) as He.
    apply entriesAt_values in He as (Hb & _). exact Hb. }
  split.
  - intros Hages.
    destruct (calculateAccumulation_fields currentYear accounts profile assumptions)
      as (_ & -> & _).
    assert (years = 0%nat) as -> by (unfold yearsToRetirement; lia).
    exact Hfirst.
  - intros j y Hy. apply snapshot_balances in Hy as (-> & _). split.
    + intros ->. exact Hfirst.
    + intros Hidle Hl.
      destruct (own_entries a j Hnd Hin) as (-> & _).
      destruct (alone_idle a j Hidle Hl) as (bal & c & cum & He & _ & Hbal).
      apply entriesAt_values in He as (-> & _). exact Hbal.
Qed.

(** X28.  With ids of their own, for an account that is not an FHSA the
    final balance without investment return is the entered balance and the
    total of [calculateTotalContributions] together; on a plan without
    negative amounts and with a return that is not negative it is at least
    that. *)
Theorem total_contributions_agree_with_the_projection :
  NoDup (map planned_id accounts) ->
  forall a, a ∈ accounts -> planned_type a <> fhsa ->
  let final :=
    getOr0 (finalBalances
              (handedOver (calculateAccumulation currentYear accounts profile assumptions)))
      (planned_id a) in
  let paid := getOr0 (calculateTotalContributions accounts profile) (planned_id a) in
  (returnRate a == 0 -> final == account_balance (account_of a) + paid) /\
  (wellFunded a -> 0 <= returnRate a ->
   0 <= paid /\ account_balance (account_of a) + paid <= final).
Proof.
  intros Hnd a Hin Ht final paid. unfold final, paid.
  destruct (calculateAccumulation_fields currentYear accounts profile assumptions)
    as (_ & -> & _).
  rewrite (calculateTotalContributions_own accounts profile a Hnd Hin).
  destruct (own_entries a years Hnd Hin) as (-> & _).
  assert (Hf : isFhsa (planned_type a) = false) 
    by (destruct (planned_type a); first [reflexivity | exfalso; apply Ht; reflexivity]).
  destruct (alone_contributed a years Hf) as (_ & bal & Hb & Hzero & Hgrow).
  unfold getOr0. rewrite Hb. simpl. split; [exact Hzero|].
  intros Hw Hr. destruct (Hgrow Hw Hr) as (_ & H0 & H1). split; assumption.
Qed.

(** X29.  On plans without negative amounts no snapshot holds a negative
    balance or a negative contribution, and the total at retirement is not
    negative; handed over to the withdrawal simulation with a return rate of
    at least -1, the projection makes no year of the retirement record a
    negative remaining balance. *)
Theorem planned_savings_never_go_negative :
  Forall wellFunded accounts ->
  let res := calculateAccumulation currentYear accounts profile assumptions in
  (forall j y key,
     yearlyBalances res !! j = Some y ->
     0 <= getOr0 (yb_balances y) key /\ 0 <= getOr0 (yb_contributions y) key) /\
  0 <= totalAtRetirement (handedOver res) /\
  (-1 <= retirementReturnRate assumptions ->
   forall k rec key v,
     yearlyWithdrawals
       (calculateWithdrawals currentYear (map account_of accounts) profile assumptions
          (handedOver res)) !! k = Some rec ->
     remainingBalances rec !! key = Some v -> 0 <= v).
Proof.
  intros Hall res. unfold res.
  assert (Hfinal : entriesFrom0 (finalBalances (handedOver accumulated))).
  { destruct (calculateAccumulation_fields currentYear accounts profile assumptions)
      as (_ & -> & _).
    apply (tables_nonneg currentYear accounts profile years Hall). }
  split; [|split].
  - intros j y key Hy. apply snapshot_balances in Hy as (-> & -> & _).
    destruct (tables_nonneg currentYear accounts profile j Hall) as [Hb Hc].
    split; [apply Hb | apply Hc].
  - destruct (calculateAccumulation_fields currentYear accounts profile assumptions)
      as (_ & Hf & -> & _).
    apply sumValues_nonneg. rewrite <- Hf. exact Hfinal.
  - intros Hrate k rec key v Hrec Hv.
    apply calculateWithdrawals_record_of in Hrec as [_ ->].
    refine (proj1 (year_record_bounds currentYear (map account_of accounts) profile
                     assumptions (handedOver accumulated) _ Hrate k) key v Hv).
    intros account _. apply Hfinal.
Qed.

(** X30.  [getBalanceAtAge] reads back what the projection recorded: at
    the age of a snapshot it returns the snapshot's entry for the id, 0 for
    an id without an entry; at the last age it returns the final balance;
    at an age outside the projected years it returns 0. *)
Theorem recorded_balances_are_read_back :
  let res := calculateAccumulation currentYear accounts profile assumptions in
  (forall j y accountId,
     yearlyBalances res !! j = Some y ->
     getBalanceAtAge res accountId (yb_age y) = getOr0 (yb_balances y) accountId) /\
  (forall accountId,
     getBalanceAtAge res accountId
       (currentAge profile + Z.of_nat (Z.to_nat (yearsToRetirement profile)))
     = getOr0 (finalBalances (handedOver res)) accountId) /\
  (forall accountId age,
     (age < currentAge profile \/ Z.max (currentAge profile) (retirementAge profile) < age)%Z ->
     getBalanceAtAge res accountId age = 0).
Proof.
  intros res. unfold res.
  assert (Hread : forall j y accountId,
            yearlyBalances accumulated !! j = Some y ->
            getBalanceAtAge accumulated accountId (yb_age y)
            = getOr0 (yb_balances y) accountId).
  { intros j y accountId Hy. unfold getBalanceAtAge.
    rewrite (find_first _ _ j y Hy); [reflexivity | apply Z.eqb_refl|].
    intros i y' Hi Hy'.
    apply snapshot_balances in Hy as (_ & _ & -> & _).
    apply snapshot_balances in Hy' as (_ & _ & -> & _).
    apply Z.eqb_neq. lia. }
  split; [exact Hread|]. split.
  - intros accountId.
    destruct (calculateAccumulation_fields currentYear accounts profile assumptions)
      as (Hsnaps & Hf & _).
    assert (Hy : yearlyBalances accumulated !! years
                 = Some (snapshot (currentAge profile + Z.of_nat years)
                           (currentYear + Z.of_nat years) (tablesAt years))).
    { rewrite Hsnaps. apply snapshotsAt_lookup. lia. }
    rewrite Hf. apply (Hread _ _ accountId) in Hy. exact Hy.
  - intros accountId age Hout. unfold getBalanceAtAge.
    rewrite find_nowhere; [reflexivity|].
    intros i y Hy. apply snapshot_balances in Hy as (_ & _ & -> & Hi).
    apply Z.eqb_neq. unfold yearsToRetirement in Hi. lia.
Qed.
End AccumulationResults.

Lemma savers_ids : NoDup (map planned_id savers_accounts).
Proof. apply (bool_decide_unpack _). vm_compute. exact I. Qed.

Lemma savers_wellFunded : Forall wellFunded savers_accounts.
Proof.
  unfold savers_accounts.
  repeat (apply List.Forall_cons; [|]); [| | |apply List.Forall_nil];
    (split; [vm_compute; discriminate|]); (split; [vm_compute; discriminate|]);
    (split; [vm_compute; discriminate|]); (split; [vm_compute; discriminate|]);
    split; intros x Hx; inversion Hx; vm_compute; discriminate.
Qed.

Lemma accumulation_snapshots_follow_the_schedule_witness :
  let res := calculateAccumulation 2026 savers_accounts savers_profile savers_assumptions in
  length (yearlyBalances res) = 7%nat /\
  totalAtRetirementReal (handedOver res) * (1 + (2 # 100)) ^ 6
  == totalAtRetirement (handedOver res).
Proof.
  intros res.
  destruct (accumulation_snapshots_follow_the_schedule 2026 savers_accounts savers_profile
              savers_assumptions) as (Hlen & _ & _ & Hreal).
  split; [exact Hlen|]. apply Hreal. vm_compute. discriminate.
Defined.

Lemma fhsa_lifetime_limit_is_never_exceeded_witness :
  let res := calculateAccumulation 2026 savers_accounts savers_profile savers_assumptions in
  exists y,
    yearlyBalances res !! 6%nat = Some y /\
    getOr0 (yb_balances y) "fhsa" <= 0 + FHSA_LIFETIME_LIMIT.
Proof.
  intros res.
  destruct (yearlyBalances res !! 6%nat) as [y|] eqn:Hy; [|vm_compute in Hy; discriminate].
  exists y. split; [reflexivity|].
  assert (Hin : savers_fhsa ∈ savers_accounts) by (right; left).
  assert (Hr : returnRate savers_fhsa == 0) by reflexivity.
  exact (proj1 (proj2 (fhsa_lifetime_limit_is_never_exceeded 2026 savers_accounts
                         savers_profile savers_assumptions)
                  savers_ids savers_fhsa Hin eq_refl Hr 6%nat y Hy)).
Defined.

Lemma breakdown_adds_up_to_the_total_witness :
  let res := calculateAccumulation 2026 savers_accounts savers_profile savers_assumptions in
  breakdown_pretax (breakdownByTaxTreatment res)
  + breakdown_tax_free (breakdownByTaxTreatment res)
  + breakdown_taxable (breakdownByTaxTreatment res)
  == totalAtRetirement (handedOver res).
Proof.
  intros res.
  exact (proj1 (breakdown_adds_up_to_the_total 2026 savers_accounts savers_profile
                  savers_assumptions savers_ids)).
Defined.

Lemma idle_accounts_only_compound_witness :
  let res := calculateAccumulation 2026 savers_accounts savers_profile savers_assumptions in
  exists y,
    yearlyBalances res !! 6%nat = Some y /\
    getOr0 (yb_balances y) "tfsa" == 20000 * (1 + (5 # 100)) ^ 6.
Proof.
  intros res.
  destruct (yearlyBalances res !! 6%nat) as [y|] eqn:Hy; [|vm_compute in Hy; discriminate].
  exists y. split; [reflexivity|].
  assert (Hin : savers_tfsa ∈ savers_accounts) by (right; right; left).
  assert (Hidle : annualContribution savers_tfsa == 0) by reflexivity.
  assert (Hl : forall limit, employerMatchLimit savers_tfsa = Some limit -> 0 <= limit)
    by (intros limit Hlimit; discriminate Hlimit).
  exact (proj2 (proj2 (idle_accounts_only_compound 2026 savers_accounts savers_profile
                         savers_assumptions savers_ids savers_tfsa Hin) 6%nat y Hy)
           Hidle Hl).
Defined.

Lemma total_contributions_agree_with_the_projection_witness :
  getOr0 (finalBalances
            (handedOver (calculateAccumulation 2026 savers_accounts savers_profile
                           savers_assumptions))) "rrsp"
  == 10000 + getOr0 (calculateTotalContributions savers_accounts savers_profile) "rrsp".
Proof.
  assert (Hin : savers_rrsp ∈ savers_accounts) by left.
  assert (Ht : planned_type savers_rrsp <> fhsa) by discriminate.
  assert (Hr : returnRate savers_rrsp == 0) by reflexivity.
  exact (proj1 (total_contributions_agree_with_the_projection 2026 savers_accounts
                  savers_profile savers_assumptions savers_ids savers_rrsp Hin Ht) Hr).
Defined.

Lemma planned_savings_never_go_negative_witness :
  0 <= totalAtRetirement
         (handedOver (calculateAccumulation 2026 savers_accounts savers_profile
                        savers_assumptions)).
Proof.
  exact (proj1 (proj2 (planned_savings_never_go_negative 2026 savers_accounts savers_profile
                         savers_assumptions savers_wellFunded))).
Defined.

Lemma recorded_balances_are_read_back_witness :
  let res := calculateAccumulation 2026 savers_accounts savers_profile savers_assumptions in
  getBalanceAtAge res "rrsp" 30 = 10000 /\ getBalanceAtAge res "rrsp" 29 = 0.
Proof.
  intros res.
  destruct (recorded_balances_are_read_back 2026 savers_accounts savers_profile
              savers_assumptions) as (Hread & _ & Hout).
  split.
  - destruct (yearlyBalances res !! 0%nat) as [y|] eqn:Hy; [|vm_compute in Hy; discriminate].
    assert (Hage : yb_age y = 30%Z) by (vm_compute in Hy; inversion Hy; reflexivity).
    assert (Hbal : getOr0 (yb_balances y) "rrsp" = 10000)
      by (vm_compute in Hy; inversion Hy; reflexivity).
    rewrite <- Hage, <- Hbal. exact (Hread 0%nat y "rrsp" Hy).
  - apply Hout. left. vm_compute. reflexivity.
Defined.

(** * Realized gains of the taxable step, in the simulated years *)





(** The other steps take from accounts that are not taxable, and leave
    their types as they are. *)
Section BasisKept.
Variable P : AccountState -> Prop.
Hypothesis taxable_only : forall acc, isTaxable (type acc) = false -> P acc.
Hypothesis taxable_step : forall age acc l,
  needMet l = false -> P acc -> P (fst (taxableBody age acc l)).









End BasisKept.







Section RealizedGains.
Variable currentYear : Z.
Variable accounts : list Account.
Variable profile : Profile.
Variable assumptions : Assumptions.
Variable accumulationResult : AccumulationResult.

Abbreviation stateAtYear := (stateAt currentYear accounts profile assumptions accumulationResult).



End RealizedGains.

